(** * RedisManager: distributed locks, cache and concurrency counters

    A shallow embedding of [src/core/redis_manager.py] and of
    [src/services/redis_lock.py].

    The manager routes every operation either to a remote Redis server
    ([_client] is set) or to in-process dictionaries (the fallback).  The
    embedding threads one [World] through every call: the manager object,
    the imported configuration, the event-loop clock, the coroutines the
    event loop still has to resume, and the remote server.

    Conventions.
    - All instants and durations of the clock are whole milliseconds in [Z];
      [asyncio.sleep(0.1)] is [100].  [timeout] and [ex] are seconds, as in
      the source, and are multiplied by [1000] where they meet the clock;
      [wait_timeout] (a float number of seconds in the source) is given in
      milliseconds.
    - Code between two [await]s runs atomically (asyncio is cooperative);
      a command sent to the remote server is one atomic step at one
      instant, a method that sends two commands is suspended between them,
      and a coroutine handed to [asyncio.create_task] starts its sleep at
      the instant it is created.
    - The event loop may resume any coroutine that can run; the clock
      advances only when none can (a sleep ends on time).
    - The remote server is not part of the repository.  It is modelled by
      the commands the manager sends ([SET], [GET], [DEL], [EXISTS],
      [INCR], [DECR], the release script), on a keyspace with absolute
      expiry deadlines; [INCR] and [DECR] count in signed 64-bit integers.
      A call made while [link] is down raises [ConnectionError] and reaches
      no command. *)

From Stdlib Require Import ZArith String Ascii List Lia Bool.
From Stdlib Require Import DecimalString DecimalZ.
From stdpp Require Import base option gmap strings list.

Open Scope Z_scope.

(** ** Python values, exceptions, outcomes *)

(** The values that flow through the manager: [None], [str], [int], [bool]. *)
Inductive pyval :=
| PNone
| PStr (s : string)
| PInt (z : Z)
| PBool (b : bool).

#[global] Instance pyval_eq_dec : EqDecision pyval.
Proof. solve_decision. Defined.

Inductive exn :=
| ConnectionError
| ResponseError
| ImportError
| TypeError
| ValueError
| AttributeError.

(** What running a piece of a coroutine up to its next suspension gives:
    a value, an exception, or [Blocked] when the coroutine stands at
    [async with self._local_lock] while another coroutine holds that guard
    (it has then done nothing yet). *)
Inductive outcome (A : Type) :=
| Returned (a : A)
| Raised (e : exn)
| Blocked.
Arguments Returned {A} a.
Arguments Raised {A} e.
Arguments Blocked {A}.

(** [str(n)] of a Python int, as an f-string formats it and as Redis
    stores a counter. *)
Definition str_of_int (z : Z) : string := NilZero.string_of_int (Z.to_int z).

(** The integer of a decimal numeral, with [-] before it or not. *)
Definition int_of_str (s : string) : option Z :=
  Z.of_int <$> NilZero.int_of_string s.

(** [int(s)] of a Python [str] of ASCII characters; [None] stands for
    [ValueError].  Python strips white space around the numeral, takes a
    sign, and takes single underscores between digits.  (The interpreter's
    limit on the number of digits, 4300 by default, is not modelled.) *)
Definition is_space (a : ascii) : bool :=
  let n := nat_of_ascii a in ((9 <=? n) && (n <=? 13) || (n =? 32))%nat.

Definition is_digit (a : ascii) : bool :=
  let n := nat_of_ascii a in ((48 <=? n) && (n <=? 57))%nat.

Fixpoint lstrip (s : string) : string :=
  match s with
  | String a s' => if is_space a then lstrip s' else s
  | EmptyString => EmptyString
  end.

Fixpoint rstrip (s : string) : string :=
  match s with
  | EmptyString => EmptyString
  | String a s' =>
      match rstrip s' with
      | EmptyString => if is_space a then EmptyString else String a EmptyString
      | r => String a r
      end
  end.

(** The digits of a numeral without its underscores; [after_digit] says
    whether the character before was a digit. *)
Fixpoint digits (after_digit : bool) (s : string) : option string :=
  match s with
  | EmptyString => if after_digit then Some EmptyString else None
  | String a s' =>
      if is_digit a then String a <$> digits true s'
      else if Ascii.eqb a "_" && after_digit then digits false s'
      else None
  end.

Definition py_int (s : string) : option Z :=
  match rstrip (lstrip s) with
  | EmptyString => None
  | String a r =>
      if Ascii.eqb a "-" then ds ← digits false r; Z.opp <$> int_of_str ds
      else if Ascii.eqb a "+" then ds ← digits false r; int_of_str ds
      else ds ← digits false (String a r); int_of_str ds
  end.

(** A string of decimal digits. *)
Fixpoint all_digits (s : string) : bool :=
  match s with
  | EmptyString => true
  | String a s => is_digit a && all_digits s
  end.

(** [x or d] for an optional number: [None] and [0] are falsy. *)
Definition py_or (x : option Z) (d : Z) : Z :=
  match x with
  | Some v => if v =? 0 then d else v
  | None => d
  end.

(** ** The imported configuration object ([from .config import config]) *)

Record Config := {
  redis_enabled : bool;
  redis_host : string;
  redis_port : Z;
  redis_password : string;
  redis_db : Z;
  redis_lock_timeout : Z
}.

(** ** The remote server *)

(** The handle [redis.Redis(host=..., port=..., password=..., db=...)]. *)
Record Redis := {
  host : string;
  port : Z;
  password : option string;
  db : Z
}.

(** One key of the remote keyspace: its string and, when it was written
    with [EX], the instant at which it disappears. *)
Record rentry := {
  rvalue : string;
  rdeadline : option Z
}.

Definition alive (now : Z) (e : rentry) : bool :=
  match rdeadline e with
  | None => true
  | Some d => now <? d
  end.

(** The signed 64-bit range of the server's counters. *)
Definition int64_min : Z := -9223372036854775808.
Definition int64_max : Z := 9223372036854775807.

(** The integer a stored string is to [INCR] and [DECR]: the server takes
    the decimal numeral of a signed 64-bit integer exactly as [str] prints
    it, and nothing else (no [+], no leading zero, no [-0], no space). *)
Definition redis_int (s : string) : option Z :=
  match int_of_str s with
  | Some n =>
      if bool_decide (str_of_int n = s) && (int64_min <=? n) && (n <=? int64_max)
      then Some n else None
  | None => None
  end.

(** What the server sees under [k] at instant [now]. *)
Definition rlookup (now : Z) (st : gmap string rentry) (k : string) : option rentry :=
  match st !! k with
  | Some e => if alive now e then Some e else None
  | None => None
  end.

Module Server.

(** [SET k v NX EX ttl] *)
Definition set_nx_ex (k v : string) (ttl : Z) (now : Z) (st : gmap string rentry)
  : outcome bool * gmap string rentry :=
  if ttl <=? 0 then (Raised ResponseError, st)
  else match rlookup now st k with
       | Some _ => (Returned false, st)
       | None =>
           (Returned true, <[k := {| rvalue := v; rdeadline := Some (now + 1000 * ttl) |}]> st)
       end.

(** [SET k v] and [SET k v EX ex] *)
Definition set (k v : string) (ex : option Z) (now : Z) (st : gmap string rentry)
  : outcome bool * gmap string rentry :=
  match ex with
  | None => (Returned true, <[k := {| rvalue := v; rdeadline := None |}]> st)
  | Some e =>
      if e <=? 0 then (Raised ResponseError, st)
      else (Returned true, <[k := {| rvalue := v; rdeadline := Some (now + 1000 * e) |}]> st)
  end.

(** [GET k] *)
Definition get (k : string) (now : Z) (st : gmap string rentry)
  : outcome (option string) * gmap string rentry :=
  (Returned (rvalue <$> rlookup now st k), st).

(** [DEL k]: the number of keys removed. *)
Definition del (k : string) (now : Z) (st : gmap string rentry)
  : outcome Z * gmap string rentry :=
  match rlookup now st k with
  | Some _ => (Returned 1, delete k st)
  | None => (Returned 0, st)
  end.

(** [EXISTS k]: the number of keys found. *)
Definition exists_ (k : string) (now : Z) (st : gmap string rentry)
  : outcome Z * gmap string rentry :=
  match rlookup now st k with
  | Some _ => (Returned 1, st)
  | None => (Returned 0, st)
  end.

(** [INCR k] and [DECR k] ([delta] is [1] or [-1]): an absent key counts
    as [0]; the deadline of a present key is kept.  The server refuses a
    value that is not an integer to it, and a result outside the signed
    64-bit range; the key is then left as it is. *)
Definition incrby (k : string) (delta : Z) (now : Z) (st : gmap string rentry)
  : outcome Z * gmap string rentry :=
  match rlookup now st k with
  | Some e =>
      match redis_int (rvalue e) with
      | Some n =>
          if (int64_min <=? n + delta) && (n + delta <=? int64_max)
          then (Returned (n + delta),
                <[k := {| rvalue := str_of_int (n + delta); rdeadline := rdeadline e |}]> st)
          else (Raised ResponseError, st)
      | None => (Raised ResponseError, st)
      end
  | None =>
      (Returned delta, <[k := {| rvalue := str_of_int delta; rdeadline := None |}]> st)
  end.

(** The script of [release_lock]:
    [if redis.call("get", KEYS[1]) == ARGV[1] then return redis.call("del", KEYS[1]) else return 0 end] *)
Definition eval_release (k v : string) (now : Z) (st : gmap string rentry)
  : outcome Z * gmap string rentry :=
  match rlookup now st k with
  | Some e =>
      if bool_decide (rvalue e = v) then del k now st else (Returned 0, st)
  | None => (Returned 0, st)
  end.

End Server.

(** ** The manager object and the world around it *)

Record RedisManager := {
  _client : option Redis;
  _initialized : bool;
  _local_locks : gmap string string;
  _local_cache : gmap string pyval;
  _local_lock : bool                 (* asyncio.Lock(): is it locked? *)
}.

(** [RedisManager.__init__] *)
Definition RedisManager_init : RedisManager :=
  {| _client := None;
     _initialized := false;
     _local_locks := ∅;
     _local_cache := ∅;
     _local_lock := false |}.

(** A call of a lock method that has not yet run: it is waiting for the
    event loop, or for [_local_lock]. *)
Inductive call :=
| AcquireLock (key lock_value : string) (timeout : option Z) (blocking : bool)
              (wait_timeout : option Z)
    (* [lock_value] is the uuid the call draws *)
| ReleaseLock (key lock_value : string)
| ReleaseCfLock.

(** A coroutine of the event loop. *)
Inductive task :=
| AcquireRemoteSleep (lock_key lock_value : string) (timeout wait_timeout : Z)
                     (start_time wake : Z)
    (* [acquire_lock], remote loop, inside [asyncio.sleep(0.1)] *)
| AcquireLocalSleep (lock_key lock_value : string) (timeout wait_timeout : Z)
                    (start_time wake : Z)
    (* [acquire_lock], fallback loop, inside [asyncio.sleep(0.1)], holding
       [_local_lock] *)
| AutoReleaseLocalLock (key : string) (wake : Z)
    (* [_auto_release_local_lock], inside [asyncio.sleep(timeout)] or at
       [async with self._local_lock] after it *)
| AutoExpireLocalCache (key : string) (wake : Z)
    (* [_auto_expire_local_cache], inside [asyncio.sleep(ex)] *)
| DecrementReset (key : string)
    (* [decrement_concurrency], remote branch: [decr] has returned a
       negative number, [set(key, 0)] is still to be sent *)
| Pending (c : call)
| Done (r : outcome pyval).

Record World := {
  mgr : RedisManager;
  config : Config;
  clock : Z;                         (* loop.time(), in ms *)
  tasks : list task;                 (* coroutines of the event loop *)
  redis_module : bool;               (* [import redis.asyncio] succeeds *)
  link : bool;                       (* the server answers *)
  store : gmap string rentry         (* the server's keyspace *)
}.

Definition set_mgr (m : RedisManager) (w : World) : World :=
  {| mgr := m; config := config w; clock := clock w; tasks := tasks w;
     redis_module := redis_module w; link := link w; store := store w |}.

Definition set_store (st : gmap string rentry) (w : World) : World :=
  {| mgr := mgr w; config := config w; clock := clock w; tasks := tasks w;
     redis_module := redis_module w; link := link w; store := st |}.

Definition set_tasks (ts : list task) (w : World) : World :=
  {| mgr := mgr w; config := config w; clock := clock w; tasks := ts;
     redis_module := redis_module w; link := link w; store := store w |}.

Definition set_clock (t : Z) (w : World) : World :=
  {| mgr := mgr w; config := config w; clock := t; tasks := tasks w;
     redis_module := redis_module w; link := link w; store := store w |}.


Definition set_client (c : option Redis) (m : RedisManager) : RedisManager :=
  {| _client := c; _initialized := _initialized m; _local_locks := _local_locks m;
     _local_cache := _local_cache m; _local_lock := _local_lock m |}.

Definition set_initialized (b : bool) (m : RedisManager) : RedisManager :=
  {| _client := _client m; _initialized := b; _local_locks := _local_locks m;
     _local_cache := _local_cache m; _local_lock := _local_lock m |}.

Definition set_local_locks (l : gmap string string) (m : RedisManager) : RedisManager :=
  {| _client := _client m; _initialized := _initialized m; _local_locks := l;
     _local_cache := _local_cache m; _local_lock := _local_lock m |}.

Definition set_local_cache (c : gmap string pyval) (m : RedisManager) : RedisManager :=
  {| _client := _client m; _initialized := _initialized m; _local_locks := _local_locks m;
     _local_cache := c; _local_lock := _local_lock m |}.

Definition set_local_lock (b : bool) (m : RedisManager) : RedisManager :=
  {| _client := _client m; _initialized := _initialized m; _local_locks := _local_locks m;
     _local_cache := _local_cache m; _local_lock := b |}.

(** ** The monad of coroutine segments *)

Definition M (A : Type) : Type := World → outcome A * World.

#[global] Instance M_ret : MRet M := λ A a w, (Returned a, w).

#[global] Instance M_bind : MBind M := λ A B k m w,
  match m w with
  | (Returned a, w') => k a w'
  | (Raised e, w') => (Raised e, w')
  | (Blocked, w') => (Blocked, w')
  end.

#[global] Instance M_fmap : FMap M := λ A B f m, a ← m; mret (f a).

Definition raise {A} (e : exn) : M A := λ w, (Raised e, w).

(** [try: body except Exception: handler] *)
Definition try_except {A} (body : M A) (handler : exn → M A) : M A := λ w,
  match body w with
  | (Raised e, w') => handler e w'
  | r => r
  end.

Definition self : M RedisManager := λ w, (Returned (mgr w), w).
Definition modify_self (f : RedisManager → RedisManager) : M () :=
  λ w, (Returned (), set_mgr (f (mgr w)) w).
Definition get_config : M Config := λ w, (Returned (config w), w).

(** [asyncio.get_event_loop().time()] *)
Definition loop_time : M Z := λ w, (Returned (clock w), w).

(** [asyncio.create_task(...)] *)
Definition create_task (t : task) : M () :=
  λ w, (Returned (), set_tasks (tasks w ++ [t]) w).

(** Entering and leaving [async with self._local_lock]. *)
Definition local_lock_acquire : M () := λ w,
  if _local_lock (mgr w) then (Blocked, w)
  else (Returned (), set_mgr (set_local_lock true (mgr w)) w).

Definition local_lock_release : M () :=
  modify_self (set_local_lock false).

(** [await self._client.<command>(...)] *)
Definition remote {A} (cmd : Z → gmap string rentry → outcome A * gmap string rentry) : M A :=
  λ w, if link w
       then let '(r, st) := cmd (clock w) (store w) in (r, set_store st w)
       else (Raised ConnectionError, w).

(** What one resumption of a coroutine leads to: its [return], or the next
    [await] that suspends it. *)
Inductive step (A : Type) :=
| Return (a : A)
| Await (t : task).
Arguments Return {A} a.
Arguments Await {A} t.

(** ** Lifecycle *)

Definition import_redis : M () := λ w,
  if redis_module w then (Returned (), w) else (Raised ImportError, w).

(** [await self._client.ping()] *)
Definition ping : M bool := remote (λ _ st, (Returned true, st)).

Definition initialize : M bool :=
  cfg ← get_config;
  if negb (redis_enabled cfg) then
    modify_self (set_initialized true);;
    mret false
  else
    try_except
      (import_redis;;
       modify_self (set_client (Some
         {| host := redis_host cfg;
            port := redis_port cfg;
            password := if bool_decide (redis_password cfg = "") then None
                        else Some (redis_password cfg);
            db := redis_db cfg |}));;
       ping;;
       modify_self (set_initialized true);;
       mret true)
      (λ _,
       modify_self (set_client None);;
       modify_self (set_initialized true);;
       mret false).

Definition close : M () :=
  m ← self;
  (if _client m is Some _ then modify_self (set_client None) else mret ());;
  modify_self (set_initialized false).

Definition is_connected (m : RedisManager) : bool :=
  bool_decide (_client m ≠ None).

(** ** Distributed lock operations *)

Definition acquire_lock_remote_loop (lock_key lock_value : string)
    (timeout wait_timeout : Z) (blocking : bool) (start_time : Z)
  : M (step (option string)) :=
  acquired ← remote (Server.set_nx_ex lock_key lock_value timeout);
  if acquired : bool then mret (Return (Some lock_value))
  else if negb blocking then mret (Return None)
  else
    now ← loop_time;
    if wait_timeout <=? now - start_time then mret (Return None)
    else mret (Await (AcquireRemoteSleep lock_key lock_value timeout wait_timeout
                                          start_time (now + 100))).

(** The two statements after the [if] of the fallback branch, and the end
    of its [async with]. *)
Definition acquire_lock_local_take (lock_key lock_value : string) (timeout : Z)
  : M (step (option string)) :=
  modify_self (λ m, set_local_locks (<[lock_key := lock_value]> (_local_locks m)) m);;
  now ← loop_time;
  create_task (AutoReleaseLocalLock lock_key (now + 1000 * timeout));;
  local_lock_release;;
  mret (Return (Some lock_value)).

(** [while lock_key in self._local_locks: await asyncio.sleep(0.1) ...] at
    its head. *)
Definition acquire_lock_local_loop (lock_key lock_value : string)
    (timeout wait_timeout : Z) (start_time : Z)
  : M (step (option string)) :=
  m ← self;
  if bool_decide (is_Some (_local_locks m !! lock_key)) then
    now ← loop_time;
    mret (Await (AcquireLocalSleep lock_key lock_value timeout wait_timeout
                                   start_time (now + 100)))
  else acquire_lock_local_take lock_key lock_value timeout.

(** The loop body after its sleep. *)
Definition acquire_lock_local_wake (lock_key lock_value : string)
    (timeout wait_timeout : Z) (start_time : Z)
  : M (step (option string)) :=
  now ← loop_time;
  if wait_timeout <=? now - start_time then
    local_lock_release;;
    mret (Return None)
  else acquire_lock_local_loop lock_key lock_value timeout wait_timeout start_time.

(** [acquire_lock] up to its first suspension.  [lock_value] is the value
    of [str(uuid.uuid4())] in this call. *)
Definition acquire_lock (key lock_value : string) (timeout : option Z)
    (blocking : bool) (wait_timeout : option Z)
  : M (step (option string)) :=
  let lock_key := "lock:" +:+ key in
  cfg ← get_config;
  let timeout := py_or timeout (redis_lock_timeout cfg) in
  let wait_timeout := py_or wait_timeout (1000 * timeout) in
  m ← self;
  if _client m is Some _ then
    start_time ← loop_time;
    acquire_lock_remote_loop lock_key lock_value timeout wait_timeout blocking start_time
  else
    local_lock_acquire;;
    m ← self;
    if bool_decide (is_Some (_local_locks m !! lock_key)) then
      if negb blocking then
        local_lock_release;;
        mret (Return None)
      else
        start_time ← loop_time;
        acquire_lock_local_loop lock_key lock_value timeout wait_timeout start_time
    else acquire_lock_local_take lock_key lock_value timeout.

(** [_auto_release_local_lock] after its [asyncio.sleep(timeout)]. *)
Definition _auto_release_local_lock (key : string) : M () :=
  local_lock_acquire;;
  m ← self;
  (if bool_decide (is_Some (_local_locks m !! key))
   then modify_self (set_local_locks (delete key (_local_locks m)))
   else mret ());;
  local_lock_release.

Definition release_lock (key lock_value : string) : M bool :=
  let lock_key := "lock:" +:+ key in
  m ← self;
  if _client m is Some _ then
    try_except
      (result ← remote (Server.eval_release lock_key lock_value);
       mret (result =? 1))
      (λ _, mret false)
  else
    local_lock_acquire;;
    m ← self;
    if bool_decide (_local_locks m !! lock_key = Some lock_value) then
      modify_self (set_local_locks (delete lock_key (_local_locks m)));;
      local_lock_release;;
      mret true
    else
      local_lock_release;;
      mret false.

Definition is_locked (key : string) : M bool :=
  let lock_key := "lock:" +:+ key in
  m ← self;
  if _client m is Some _ then
    n ← remote (Server.exists_ lock_key);
    mret (0 <? n)
  else mret (bool_decide (is_Some (_local_locks m !! lock_key))).

(** ** Cache operations *)

Definition get (key : string) : M pyval :=
  m ← self;
  if _client m is Some _ then
    v ← remote (Server.get key);
    mret (from_option PStr PNone v)
  else mret (default PNone (_local_cache m !! key)).

(** [_auto_expire_local_cache] after its [asyncio.sleep(ex)]. *)
Definition _auto_expire_local_cache (key : string) : M () :=
  m ← self;
  if bool_decide (is_Some (_local_cache m !! key))
  then modify_self (set_local_cache (delete key (_local_cache m)))
  else mret ().

Definition set (key value : string) (ex : option Z) : M bool :=
  m ← self;
  if _client m is Some _ then remote (Server.set key value ex)
  else
    modify_self (set_local_cache (<[key := PStr value]> (_local_cache m)));;
    (if py_or ex 0 =? 0 then mret ()
     else now ← loop_time;
          create_task (AutoExpireLocalCache key (now + 1000 * py_or ex 0)));;
    mret true.

Definition delete (key : string) : M bool :=
  m ← self;
  if _client m is Some _ then
    n ← remote (Server.del key);
    mret (0 <? n)
  else if bool_decide (is_Some (_local_cache m !! key)) then
    modify_self (set_local_cache (base.delete key (_local_cache m)));;
    mret true
  else mret false.

Definition exists_ (key : string) : M bool :=
  m ← self;
  if _client m is Some _ then
    n ← remote (Server.exists_ key);
    mret (0 <? n)
  else mret (bool_decide (is_Some (_local_cache m !! key))).

(** ** Token lock operations *)

(** [f"token:{token_id}:{lock_type}"] *)
Definition token_key (token_id : Z) (lock_type : string) : string :=
  "token:" +:+ str_of_int token_id +:+ ":" +:+ lock_type.

Definition acquire_token_lock (token_id : Z) (lock_type lock_value : string) (timeout : Z)
  : M (step (option string)) :=
  acquire_lock (token_key token_id lock_type) lock_value (Some timeout) false None.

Definition release_token_lock (token_id : Z) (lock_type lock_value : string) : M bool :=
  release_lock (token_key token_id lock_type) lock_value.

Definition is_token_locked (token_id : Z) (lock_type : string) : M bool :=
  is_locked (token_key token_id lock_type).

(** ** Cloudflare lock operations *)

Definition acquire_cf_lock (lock_value : string) (timeout : Z) : M (step bool) :=
  r ← acquire_lock "cf:refresh" lock_value (Some timeout) false None;
  mret (match r with
        | Return v => Return (bool_decide (v ≠ None))
        | Await t => Await t
        end).

Definition release_cf_lock : M () :=
  m ← self;
  if _client m is Some _ then
    remote (Server.del "lock:cf:refresh");;
    mret ()
  else
    local_lock_acquire;;
    m ← self;
    (if bool_decide (is_Some (_local_locks m !! "lock:cf:refresh"))
     then modify_self (set_local_locks (base.delete "lock:cf:refresh" (_local_locks m)))
     else mret ());;
    local_lock_release.

Definition is_cf_refreshing : M bool := exists_ "cf:refreshing".

Definition set_cf_refreshing (value : bool) (ttl : Z) : M () :=
  if value then set "cf:refreshing" "1" (Some ttl);; mret ()
  else delete "cf:refreshing";; mret ().

(** ** Concurrency counter operations *)

(** [f"concurrency:{token_id}:{lock_type}"] *)
Definition concurrency_key (token_id : Z) (lock_type : string) : string :=
  "concurrency:" +:+ str_of_int token_id +:+ ":" +:+ lock_type.

(** The integer a Python value is in arithmetic ([bool] is an [int]);
    [None] stands for [TypeError]. *)
Definition as_int (v : pyval) : option Z :=
  match v with
  | PInt z => Some z
  | PBool b => Some (Z.b2z b)
  | _ => None
  end.

Definition arith (v : pyval) : M Z := λ w,
  match as_int v with
  | Some z => (Returned z, w)
  | None => (Raised TypeError, w)
  end.

Definition get_concurrency (token_id : Z) (lock_type : string) : M pyval :=
  let key := concurrency_key token_id lock_type in
  m ← self;
  if _client m is Some _ then
    value ← remote (Server.get key);
    match value with
    | None | Some "" => mret (PInt 0)
    | Some s =>
        match py_int s with
        | Some n => mret (PInt n)
        | None => raise ValueError
        end
    end
  else mret (default (PInt 0) (_local_cache m !! key)).

Definition increment_concurrency (token_id : Z) (lock_type : string) : M Z :=
  let key := concurrency_key token_id lock_type in
  m ← self;
  if _client m is Some _ then remote (Server.incrby key 1)
  else
    current ← arith (default (PInt 0) (_local_cache m !! key));
    modify_self (set_local_cache (<[key := PInt (current + 1)]> (_local_cache m)));;
    mret (current + 1).

(** [decrement_concurrency] up to its second [await]: in the remote
    branch [await self._client.decr(key)] and [await self._client.set(key,
    0)] are two commands, and the coroutine is suspended between them. *)
Definition decrement_concurrency (token_id : Z) (lock_type : string) : M (step Z) :=
  let key := concurrency_key token_id lock_type in
  m ← self;
  if _client m is Some _ then
    result ← remote (Server.incrby key (-1));
    if result <? 0 then mret (Await (DecrementReset key))
    else mret (Return result)
  else
    current ← arith (default (PInt 0) (_local_cache m !! key));
    let new_value := Z.max 0 (current - 1) in
    modify_self (set_local_cache (<[key := PInt new_value]> (_local_cache m)));;
    mret (Return new_value).

(** The rest of the remote branch: [await self._client.set(key, 0)] and
    [return 0].  [self._client] is read again here. *)
Definition decrement_concurrency_reset (key : string) : M Z :=
  m ← self;
  if _client m is Some _ then
    remote (Server.set key (str_of_int 0) None);;
    mret 0
  else raise AttributeError.

(** ** [RedisCFLock] of [services/redis_lock.py]

    [get_redis_manager()] is the manager of the world. *)

Definition ensure_initialized : M () :=
  manager ← self;
  if negb (_initialized manager) then initialize;; mret () else mret ().

Definition RedisCFLock_is_refreshing : M bool :=
  ensure_initialized;; is_cf_refreshing.

Definition RedisCFLock_set_refreshing (value : bool) (ttl : Z) : M () :=
  ensure_initialized;; set_cf_refreshing value ttl.

Definition RedisCFLock_acquire_lock (lock_value : string) (timeout : Z) : M (step bool) :=
  ensure_initialized;; acquire_cf_lock lock_value timeout.

Definition RedisCFLock_release_lock : M () :=
  ensure_initialized;; release_cf_lock.

(** ** The event loop

    [resume t w] runs coroutine [t] from where it stands to its next
    suspension; [None] when it cannot run now (its sleep is not over, it is
    blocked on [_local_lock], or it is finished). *)

Definition settle {A} (inj : A → pyval) (r : outcome (step A) * World) : option (task * World) :=
  match r with
  | (Returned (Return a), w) => Some (Done (Returned (inj a)), w)
  | (Returned (Await t), w) => Some (t, w)
  | (Raised e, w) => Some (Done (Raised e), w)
  | (Blocked, _) => None
  end.

Definition of_token (v : option string) : pyval := from_option PStr PNone v.

Definition resume (t : task) (w : World) : option (task * World) :=
  match t with
  | AcquireRemoteSleep lock_key lock_value timeout wait_timeout start_time wake =>
      if clock w <? wake then None
      else settle of_token
             (acquire_lock_remote_loop lock_key lock_value timeout wait_timeout true
                                       start_time w)
  | AcquireLocalSleep lock_key lock_value timeout wait_timeout start_time wake =>
      if clock w <? wake then None
      else settle of_token
             (acquire_lock_local_wake lock_key lock_value timeout wait_timeout start_time w)
  | AutoReleaseLocalLock key wake =>
      if clock w <? wake then None
      else settle (λ _, PNone) ((Return <$> _auto_release_local_lock key) w)
  | AutoExpireLocalCache key wake =>
      if clock w <? wake then None
      else settle (λ _, PNone) ((Return <$> _auto_expire_local_cache key) w)
  | DecrementReset key =>
      settle PInt ((Return <$> decrement_concurrency_reset key) w)
  | Pending (AcquireLock key lock_value timeout blocking wait_timeout) =>
      settle of_token (acquire_lock key lock_value timeout blocking wait_timeout w)
  | Pending (ReleaseLock key lock_value) =>
      settle PBool ((Return <$> release_lock key lock_value) w)
  | Pending ReleaseCfLock =>
      settle (λ _, PNone) ((Return <$> release_cf_lock) w)
  | Done _ => None
  end.

Definition runnable (t : task) (w : World) : bool :=
  bool_decide (is_Some (resume t w)).

(** No coroutine becomes runnable during the next [d] milliseconds. *)
Definition idle_for (d : Z) (w : World) : bool :=
  forallb (λ t, negb (runnable t (set_clock (clock w + d - 1) w))) (tasks w).

Inductive event :=
| Start (c : call)                               (* a caller invokes a lock method *)
| Resume (i : nat)                               (* the loop resumes coroutine [i] *)
| Advance (d : Z)                                (* [d] ms pass with nothing to run *)
| Peer (st : gmap string rentry) (up : bool).    (* the server's keyspace and the
                                                    link change under other clients *)

Definition fire (e : event) (w : World) : option World :=
  match e with
  | Start c => Some (set_tasks (tasks w ++ [Pending c]) w)
  | Resume i =>
      t ← tasks w !! i;
      '(t', w') ← resume t w;
      Some (set_tasks (<[i := t']> (tasks w')) w')
  | Advance d =>
      if (0 <? d) && idle_for d w then Some (set_clock (clock w + d) w) else None
  | Peer st up =>
      Some {| mgr := mgr w; config := config w; clock := clock w; tasks := tasks w;
              redis_module := redis_module w; link := up; store := st |}
  end.

Fixpoint run (es : list event) (w : World) : option World :=
  match es with
  | [] => Some w
  | e :: es => w' ← fire e w; run es w'
  end.

(** A process that has just constructed its manager. *)
Definition boot (cfg : Config) : World :=
  {| mgr := RedisManager_init; config := cfg; clock := 0; tasks := [];
     redis_module := true; link := true; store := ∅ |}.

(** ** Observers used to state the properties *)

(** The active backend answers a lock call now: the server is reachable,
    or no coroutine is inside [async with self._local_lock]. *)
Definition serving (w : World) : Prop :=
  if _client (mgr w) is Some _ then link w = true else _local_lock (mgr w) = false.

(** The server answers whenever the manager talks to it. *)
Definition answering (w : World) : Prop :=
  if _client (mgr w) is Some _ then link w = true else True.

(** The owner token recorded for [key] in the active backend. *)
Definition stored_token (key : string) (w : World) : option string :=
  if _client (mgr w) is Some _
  then rvalue <$> rlookup (clock w) (store w) ("lock:" +:+ key)
  else _local_locks (mgr w) !! ("lock:" +:+ key).

(** The world without the lock record of [key] in the active backend. *)
Definition without_lock (key : string) (w : World) : World :=
  if _client (mgr w) is Some _
  then if rlookup (clock w) (store w) ("lock:" +:+ key) is Some _
       then set_store (base.delete ("lock:" +:+ key) (store w)) w
       else w
  else set_mgr (set_local_locks (base.delete ("lock:" +:+ key) (_local_locks (mgr w))) (mgr w)) w.



(** [initialize] reaches the server: the feature is enabled, the client
    library is importable and [ping] is answered. *)
Definition connects (w : World) : bool :=
  redis_enabled (config w) && redis_module w && link w.

(** The release of the refresh lock as the specification words it: the
    ownership-checked primitive applied to the fixed key. *)
Definition release_cf_lock_spec (lock_value : string) : M bool :=
  release_lock "cf:refresh" lock_value.

(** The deferred expiry that the fallback [set] leaves to the event loop. *)
Definition expiry_task (key : string) (ex : option Z) (w : World) : list task :=
  if _client (mgr w) is Some _ then []
  else if py_or ex 0 =? 0 then []
  else [AutoExpireLocalCache key (clock w + 1000 * py_or ex 0)].

(** The deferred expiry that a fallback acquisition of [key] at [clock w]
    leaves to the event loop. *)
Definition expiry_action (key : string) (timeout : option Z) (w : World) : task :=
  AutoReleaseLocalLock ("lock:" +:+ key)
    (clock w + 1000 * py_or timeout (redis_lock_timeout (config w))).

(** The number a counter stands at in the active backend.  An absent
    counter stands at [0]; [None] when the key holds something that is not
    a number to the backend's counter commands. *)
Definition counter_value (token_id : Z) (lock_type : string) (w : World) : option Z :=
  let key := concurrency_key token_id lock_type in
  if _client (mgr w) is Some _ then
    match rlookup (clock w) (store w) key with
    | None => Some 0
    | Some e => redis_int (rvalue e)
    end
  else
    match _local_cache (mgr w) !! key with
    | None => Some 0
    | Some (PInt n) => Some n
    | Some _ => None
    end.


Inductive counter_op := Get | Increment | Decrement.

(** A counter method that nothing interleaves with: where it suspends,
    the event loop resumes it at once. *)
Definition uninterrupted (m : M (step Z)) : M Z := λ w,
  match m w with
  | (Returned (Return z), w') => (Returned z, w')
  | (Returned (Await t), w') =>
      match resume t w' with
      | Some (Done (Returned (PInt z)), w'') => (Returned z, w'')
      | Some (Done (Raised e), w'') => (Raised e, w'')
      | _ => (Blocked, w')
      end
  | (Raised e, w') => (Raised e, w')
  | (Blocked, w') => (Blocked, w')
  end.

(** One counter method, called and awaited to its end before anything else
    runs. *)
Definition counter_call (token_id : Z) (lock_type : string) (o : counter_op) : M pyval :=
  match o with
  | Get => get_concurrency token_id lock_type
  | Increment => PInt <$> increment_concurrency token_id lock_type
  | Decrement => PInt <$> uninterrupted (decrement_concurrency token_id lock_type)
  end.

Fixpoint counter_calls (token_id : Z) (lock_type : string) (os : list counter_op)
  : M (list pyval) :=
  match os with
  | [] => mret []
  | o :: os =>
      r ← counter_call token_id lock_type o;
      rs ← counter_calls token_id lock_type os;
      mret (r :: rs)
  end.

(** The counter as the specification words it: what an operation returns,
    and where it leaves a counter that stands at [n]. *)
Definition counter_spec (o : counter_op) (n : Z) : Z * Z :=
  match o with
  | Get => (n, n)
  | Increment => (n + 1, n + 1)
  | Decrement => if n - 1 <? 0 then (0, 0) else (n - 1, n - 1)
  end.

Fixpoint counter_spec_run (os : list counter_op) (n : Z) : list Z * Z :=
  match os with
  | [] => ([], n)
  | o :: os =>
      let '(r, n') := counter_spec o n in
      let '(rs, n'') := counter_spec_run os n' in
      (r :: rs, n'')
  end.

(** The highest value the counter of the specification stands at during
    the operations [os], from [n]. *)
Fixpoint counter_spec_peak (os : list counter_op) (n : Z) : Z :=
  match os with
  | [] => n
  | o :: os => Z.max n (counter_spec_peak os (counter_spec o n).2)
  end.

(** The key a coroutine is waiting for inside the fallback loop. *)
Definition local_sleeper (t : task) : option string :=
  match t with
  | AcquireLocalSleep lock_key _ _ _ _ _ => Some lock_key
  | _ => None
  end.

(** The start, the wait timeout and the wake-up instant of a coroutine that
    sleeps in a wait loop of [acquire_lock]. *)
Definition acquire_sleep (t : task) : option (Z * Z * Z) :=
  match t with
  | AcquireRemoteSleep _ _ _ wt st wk
  | AcquireLocalSleep _ _ _ wt st wk => Some (st, wt, wk)
  | _ => None
  end.

Definition is_expiry (t : task) : Prop :=
  match t with
  | AutoReleaseLocalLock _ _ => True
  | _ => False
  end.

(** While a coroutine sleeps in the fallback loop it holds the guard, the
    key it waits for is recorded, and it is the only such coroutine. *)
Definition guard_inv (w : World) : Prop :=
  ∀ i t lk, tasks w !! i = Some t → local_sleeper t = Some lk →
    _local_lock (mgr w) = true ∧
    is_Some (_local_locks (mgr w) !! lk) ∧
    ∀ j t', tasks w !! j = Some t' → is_Some (local_sleeper t') → j = i.

(** A coroutine sleeping in a wait loop wakes up no later than one polling
    interval after its wait timeout, counted from its [start_time]; and the
    clock never runs past its wake-up instant. *)
Definition wait_inv (w : World) : Prop :=
  ∀ i t st wt wk, tasks w !! i = Some t → acquire_sleep t = Some (st, wt, wk) →
    clock w ≤ wk ∧ st + 100 ≤ wk ∧ wk ≤ st + Z.max wt 0 + 100.

(** ** Concrete worlds and schedules *)

Definition cfg_off : Config :=
  {| redis_enabled := false; redis_host := "localhost"; redis_port := 6379;
     redis_password := ""; redis_db := 0; redis_lock_timeout := 30 |}.

Definition cfg_on : Config :=
  {| redis_enabled := true; redis_host := "localhost"; redis_port := 6379;
     redis_password := ""; redis_db := 0; redis_lock_timeout := 30 |}.

(** A fallback process in which ["job:42"] is locked with token ["t1"]. *)
Definition held_world : World :=
  set_mgr (set_local_locks {[ "lock:job:42" := "t1" ]}
             (set_initialized true RedisManager_init)) (boot cfg_off).

(** A fallback process in which another owner holds the refresh lock. *)
Definition cf_held_by_other : World :=
  set_mgr (set_local_locks {[ "lock:cf:refresh" := "owner-A" ]}
             (set_initialized true RedisManager_init)) (boot cfg_off).

(** A process connected to a server that holds [conc:7:image = "3"]. *)
Definition remote_world : World :=
  {| mgr := set_client (Some {| host := "localhost"; port := 6379; password := None; db := 0 |})
              (set_initialized true RedisManager_init);
     config := cfg_on; clock := 0; tasks := [];
     redis_module := true; link := true;
     store := {[ "concurrency:7:image" := {| rvalue := "3"; rdeadline := None |} ]} |}.


(** [n] rounds of: 100 ms pass, the loop resumes coroutine [i]. *)
Definition polls (n : nat) (i : nat) : list event :=
  concat (replicate n [Advance 100; Resume i]).

(** A holds ["job:42"] for one second; B waits for it for up to five; A
    releases at once. *)
Definition waiting_run : list event :=
  [ Start (AcquireLock "job:42" "token-A" (Some 1) false None); Resume 0%nat;
    Start (AcquireLock "job:42" "token-B" (Some 1) true (Some 5000)); Resume 2%nat;
    Start (ReleaseLock "job:42" "token-A") ].

(** ["job:42"] is acquired for two seconds and released after half a
    second; at 1 s it is acquired again with token ["t1"]; at 2 s the
    expiry of the first acquisition runs; at 2.5 s a third caller asks. *)
Definition stale_expiry_run : list event :=
  [ Start (AcquireLock "job:42" "t0" (Some 2) false None); Resume 0%nat;
    Advance 500;
    Start (ReleaseLock "job:42" "t0"); Resume 2%nat;
    Advance 500;
    Start (AcquireLock "job:42" "t1" (Some 2) false None); Resume 3%nat;
    Advance 1000;
    Resume 1%nat;
    Advance 500;
    Start (AcquireLock "job:42" "t2" (Some 2) false None); Resume 5%nat ].

(** A holds ["job:42"] for a minute; B waits for it for up to 5 s; C, at
    the same instant, for up to 1 s. *)
Definition contended_run : list event :=
  [ Start (AcquireLock "job:42" "token-A" (Some 60) false None); Resume 0%nat;
    Start (AcquireLock "job:42" "token-B" (Some 60) true (Some 5000)); Resume 2%nat;
    Start (AcquireLock "job:42" "token-C" (Some 60) true (Some 1000)) ].

(** A takes ["job:42"] for one second and never releases it; B waits for
    it for up to five; two seconds later C asks without waiting. *)
Definition unreleased_run : list event :=
  [ Start (AcquireLock "job:42" "token-A" (Some 1) false None); Resume 0%nat;
    Start (AcquireLock "job:42" "token-B" (Some 1) true (Some 5000)); Resume 2%nat ]
  ++ polls 20 2 ++
  [ Start (AcquireLock "job:42" "token-C" (Some 1) false None) ].

(** ** [RedisLock] of [services/redis_lock.py]

    [lock_value] is the uuid the inner [acquire_lock] draws.  The
    [timeout] argument of [acquire] is a wait in milliseconds, like
    [wait_timeout]; [self.timeout] is in seconds. *)

Module RedisLock.

Record t := {
  key : string;
  timeout : Z;
  _lock_value : option string
}.

Definition set_lock_value (v : option string) (self : t) : t :=
  {| key := key self; timeout := timeout self; _lock_value := v |}.

(** [RedisLock.__init__] *)
Definition init (key : string) (timeout : option Z) : M t :=
  cfg ← get_config;
  mret {| key := key;
          timeout := py_or timeout (redis_lock_timeout cfg);
          _lock_value := None |}.

(** The end of [acquire], once the inner [acquire_lock] has returned [v]:
    [self._lock_value = v; return self._lock_value is not None]. *)
Definition acquired (self : t) (v : option string) : bool * t :=
  (bool_decide (v ≠ None), set_lock_value v self).

(** [acquire] up to its first suspension. *)
Definition acquire (self : t) (lock_value : string) (blocking : bool) (timeout_ : option Z)
  : M (step (bool * t)) :=
  ensure_initialized;;
  let wait_timeout := py_or timeout_ (1000 * timeout self) in
  r ← acquire_lock (key self) lock_value (Some (timeout self)) blocking (Some wait_timeout);
  mret (match r with
        | Return v => Return (acquired self v)
        | Await s => Await s
        end).

Definition release (self : t) : M t :=
  match _lock_value self with
  | None => mret self
  | Some v =>
      release_lock (key self) v;;
      mret (set_lock_value None self)
  end.

(** [__aenter__]: [await self.acquire(); return self]. *)
Definition aenter (self : t) (lock_value : string) : M (step t) :=
  r ← acquire self lock_value true None;
  mret (match r with
        | Return (_, self') => Return self'
        | Await s => Await s
        end).

(** [__aexit__] *)
Definition aexit (self : t) : M t := release self.

End RedisLock.

(** [get_redis_client] of [services/redis_lock.py] *)
Definition get_redis_client : M (option Redis) :=
  ensure_initialized;;
  manager ← self;
  mret (_client manager).

(** ** The process-wide manager

    [_redis_manager] is the module global; [around] is everything else.
    While a method of the global manager runs, the manager sits in the
    [mgr] field of [around]; the coroutines already in the event loop are
    not resumed at this level. *)

Record Process := {
  _redis_manager : option RedisManager;
  around : World
}.

Definition get_redis_manager (p : Process) : RedisManager * Process :=
  match _redis_manager p with
  | Some m => (m, p)
  | None => (RedisManager_init,
             {| _redis_manager := Some RedisManager_init; around := around p |})
  end.

(** Runs a method on the manager [m] and stores the manager back in the
    global. *)
Definition on_manager {A} (m : RedisManager) (method : M A) (p : Process)
  : outcome A * Process :=
  let '(r, w) := method (set_mgr m (around p)) in
  (r, {| _redis_manager := Some (mgr w); around := w |}).

Definition init_redis (p : Process) : outcome RedisManager * Process :=
  let '(manager, p) := get_redis_manager p in
  match on_manager manager initialize p with
  | (Returned _, p') => (Returned (default manager (_redis_manager p')), p')
  | (Raised e, p') => (Raised e, p')
  | (Blocked, p') => (Blocked, p')
  end.

Definition close_redis (p : Process) : outcome () * Process :=
  match _redis_manager p with
  | Some m =>
      match on_manager m close p with
      | (Returned _, p') => (Returned (), {| _redis_manager := None; around := around p' |})
      | r => r
      end
  | None => (Returned (), p)
  end.

(** ** Further observers *)

(** Whether the active backend has a lock record for [key]. *)
Definition locked (key : string) (w : World) : bool :=
  bool_decide (is_Some (stored_token key w)).

(** The value the cache of the active backend holds under [key]. *)
Definition cached (key : string) (w : World) : option pyval :=
  if _client (mgr w) is Some _
  then PStr ∘ rvalue <$> rlookup (clock w) (store w) key
  else _local_cache (mgr w) !! key.

(** A string without [":"]. *)
Fixpoint colon_free (s : string) : bool :=
  match s with
  | EmptyString => true
  | String a s => negb (Ascii.eqb a ":") && colon_free s
  end.

(** A process connected to a server that does not answer. *)
Definition unreachable_world : World :=
  {| mgr := set_client (Some {| host := "localhost"; port := 6379; password := None; db := 0 |})
              (set_initialized true RedisManager_init);
     config := cfg_on; clock := 0; tasks := [];
     redis_module := true; link := false;
     store := {[ "lock:job:42" := {| rvalue := "t1"; rdeadline := Some 2000 |} ]} |}.

(** A connected process whose configuration has since been switched off. *)
Definition switched_off_world : World :=
  {| mgr := set_client (Some {| host := "localhost"; port := 6379; password := None; db := 0 |})
              (set_initialized true RedisManager_init);
     config := cfg_off; clock := 0; tasks := [];
     redis_module := true; link := true; store := ∅ |}.

(** The fallback world in which B sleeps in the wait loop ([waiting_run]). *)
Definition waiting_world : World :=
  default (boot cfg_off) (run waiting_run (boot cfg_off)).

(** The same world a second later, B having polled ten times. *)
Definition waiting_world_later : World :=
  default waiting_world (run (polls 10 2) waiting_world).

(** * Properties *)

(** ** Proof automation *)

Ltac run_m :=
  repeat (unfold mbind, M_bind, mret, M_ret, fmap, M_fmap, self, modify_self, get_config,
            loop_time, create_task, local_lock_acquire, local_lock_release, remote,
            raise, try_except, arith in *; cbn -[rlookup String.append] in * ).

Ltac run_all :=
  unfold acquire_lock, acquire_lock_remote_loop, acquire_lock_local_wake,
    acquire_lock_local_loop, acquire_lock_local_take, _auto_release_local_lock,
    _auto_expire_local_cache, decrement_concurrency_reset, release_lock, release_cf_lock,
    settle in *;
  run_m.

Ltac world_eq :=
  repeat match goal with
         | w : World |- _ => destruct w
         | m : RedisManager |- _ => destruct m
         end;
  unfold set_mgr, set_store, set_tasks, set_clock, set_client, set_initialized,
    set_local_locks, set_local_cache, set_local_lock in *;
  cbn -[String.append] in *; subst; try reflexivity.

Ltac each_task t :=
  destruct t as [?lk ?v ?to ?wt ?st ?wk|?lk ?v ?to ?wt ?st ?wk|?k ?wk|?k ?wk|?k
                |[?k ?v ?to ?b ?wt|?k ?v|]|?r].

(** ** Numerals and the server's keyspace *)

Lemma int_of_str_of_int z : int_of_str (str_of_int z) = Some z.
Proof.
  unfold int_of_str, str_of_int.
  rewrite NilZero.isi.
  - cbn. f_equal. apply DecimalZ.of_to.
  - destruct z; cbn; try discriminate. intros [= H].
    by pose proof (DecimalPos.Unsigned.to_uint_nonnil p).
  - destruct z; cbn; try discriminate. intros [= H].
    by pose proof (DecimalPos.Unsigned.to_uint_nonnil p).
Qed.

Lemma all_digits_uint d : all_digits (NilEmpty.string_of_uint d) = true.
Proof. induction d; cbn; done. Qed.

Lemma is_digit_not_space a : is_digit a = true → is_space a = false.
Proof.
  unfold is_digit, is_space. intros H.
  apply andb_true_iff in H as [H1%Nat.leb_le H2%Nat.leb_le].
  apply orb_false_iff. split.
  - apply andb_false_iff. right. apply Nat.leb_gt. lia.
  - apply Nat.eqb_neq. lia.
Qed.

Lemma lstrip_digits s : all_digits s = true → lstrip s = s.
Proof.
  destruct s as [|a s]; [done|]. cbn. intros [Ha _]%andb_true_iff.
  by rewrite is_digit_not_space.
Qed.

Lemma rstrip_digits s : all_digits s = true → rstrip s = s.
Proof.
  induction s as [|a s IH]; [done|]. cbn. intros [Ha Hs]%andb_true_iff.
  rewrite IH by done. destruct s; [|done]. by rewrite is_digit_not_space.
Qed.

Lemma digits_all_digits s : all_digits s = true → digits true s = Some s.
Proof.
  induction s as [|a s IH]; [done|]. cbn. intros [Ha Hs]%andb_true_iff.
  by rewrite Ha, IH.
Qed.

Lemma py_int_digits a s :
  all_digits (String a s) = true →
  py_int (String a s) = int_of_str (String a s) ∧
  py_int (String "-" (String a s)) = Z.opp <$> int_of_str (String a s).
Proof.
  intros Hd. pose proof Hd as [Ha Hs]%andb_true_iff.
  assert (digits false (String a s) = Some (String a s)) as Hds.
  { cbn. by rewrite Ha, digits_all_digits. }
  assert (Ascii.eqb a "-" = false ∧ Ascii.eqb a "+" = false) as [Hm Hp].
  { split; apply Ascii.eqb_neq; intros ->; done. }
  unfold py_int. split.
  - rewrite lstrip_digits, rstrip_digits by done. rewrite Hm, Hp, Hds. done.
  - assert (rstrip (lstrip (String "-" (String a s))) = String "-" (String a s)) as ->.
    { change (lstrip (String "-" (String a s))) with (String "-" (String a s)).
      change (rstrip (String "-" (String a s)))
        with (match rstrip (String a s) with
              | EmptyString => String "-" EmptyString
              | r => String "-" r
              end).
      by rewrite rstrip_digits. }
    change (Ascii.eqb "-" "-") with true. cbv iota. rewrite Hds. done.
Qed.

Lemma py_int_str_of_int n : py_int (str_of_int n) = Some n.
Proof.
  pose proof (int_of_str_of_int n) as Hn.
  destruct n as [|p|p].
  - reflexivity.
  - unfold str_of_int in *. cbn in *.
    pose proof (all_digits_uint (Pos.to_uint p)) as Hd.
    pose proof (DecimalPos.Unsigned.to_uint_nonnil p) as Hnil.
    unfold NilZero.string_of_uint in *.
    destruct (Pos.to_uint p) eqn:E; try done;
      cbn [NilEmpty.string_of_uint] in *;
      match goal with |- py_int (String ?a ?s) = _ =>
        destruct (py_int_digits a s Hd) as [-> _] end; exact Hn.
  - pose proof (int_of_str_of_int (Z.pos p)) as Hp.
    unfold str_of_int in *. cbn in *.
    pose proof (all_digits_uint (Pos.to_uint p)) as Hd.
    pose proof (DecimalPos.Unsigned.to_uint_nonnil p) as Hnil.
    unfold NilZero.string_of_uint in *.
    destruct (Pos.to_uint p) eqn:E; try done;
      cbn [NilEmpty.string_of_uint] in *;
      match goal with |- py_int (String "-" (String ?a ?s)) = _ =>
        destruct (py_int_digits a s Hd) as [_ ->] end; by rewrite Hp.
Qed.

Example py_int_examples :
  py_int "+3" = Some 3 ∧ py_int " 3" = Some 3 ∧ py_int "1_0" = Some 10 ∧
  py_int "007" = Some 7 ∧ py_int "-0" = Some 0 ∧ py_int " -12 " = Some (-12) ∧
  py_int "" = None ∧ py_int "1__0" = None ∧ py_int "_1" = None ∧ py_int "1_" = None ∧
  py_int "- 1" = None ∧ py_int "1 2" = None ∧ py_int "3.0" = None ∧ py_int "--1" = None.
Proof. vm_compute. repeat split. Qed.

Lemma str_of_int_nonempty n : str_of_int n ≠ "".
Proof.
  intros H. pose proof (int_of_str_of_int n) as Hn. rewrite H in Hn.
  vm_compute in Hn. simplify_eq; by vm_compute in H.
Qed.

Lemma redis_int_str_of_int n :
  int64_min ≤ n ≤ int64_max → redis_int (str_of_int n) = Some n.
Proof.
  intros [Hlo Hhi]. unfold redis_int. rewrite int_of_str_of_int.
  rewrite bool_decide_eq_true_2 by done.
  by rewrite (proj2 (Z.leb_le _ _) Hlo), (proj2 (Z.leb_le _ _) Hhi).
Qed.

Lemma redis_int_Some s n :
  redis_int s = Some n → s = str_of_int n ∧ int64_min ≤ n ≤ int64_max.
Proof.
  unfold redis_int. destruct (int_of_str s) as [m|]; [|done].
  case_bool_decide as Hs; [|done].
  destruct (Z.leb_spec int64_min m); [|done]. destruct (Z.leb_spec m int64_max); [|done].
  cbn. intros [= <-]. done.
Qed.

Example concurrency_key_example : concurrency_key 7 "image" = "concurrency:7:image".
Proof. reflexivity. Qed.

Lemma lock_key_inj key key' : key ≠ key' → "lock:" +:+ key ≠ "lock:" +:+ key'.
Proof. intros Hne Heq. cbn in Heq. by simplify_eq. Qed.

Lemma rlookup_Some now st k e :
  rlookup now st k = Some e → st !! k = Some e ∧ alive now e = true.
Proof.
  unfold rlookup. destruct (st !! k) as [e'|]; [|done].
  destruct (alive now e') eqn:Ha; [|done]. by intros [= <-].
Qed.

Lemma rlookup_delete now st k : rlookup now (base.delete k st) k = None.
Proof. unfold rlookup. by rewrite lookup_delete_eq. Qed.

Lemma rlookup_delete_ne now st k k' :
  k ≠ k' → rlookup now (base.delete k st) k' = rlookup now st k'.
Proof. intros. unfold rlookup. by rewrite lookup_delete_ne. Qed.

Lemma rlookup_insert now st k e :
  rlookup now (<[k := e]> st) k = if alive now e then Some e else None.
Proof. unfold rlookup. by rewrite lookup_insert_eq. Qed.

(** ** Ownership-checked release *)

Lemma release_lock_local key tok w :
  _client (mgr w) = None → _local_lock (mgr w) = false →
  release_lock key tok w =
    if bool_decide (stored_token key w = Some tok)
    then (Returned true, without_lock key w)
    else (Returned false, w).
Proof.
  intros Hc Hg. unfold release_lock, without_lock, stored_token.
  run_m. rewrite Hc, Hg. run_m.
  case_bool_decide; cbn; f_equal; world_eq.
Qed.

Lemma release_lock_remote key tok w c :
  _client (mgr w) = Some c → link w = true →
  release_lock key tok w =
    if bool_decide (stored_token key w = Some tok)
    then (Returned true, without_lock key w)
    else (Returned false, w).
Proof.
  intros Hc Hl. unfold release_lock, without_lock, stored_token.
  run_m. rewrite Hc, Hl. unfold Server.eval_release, Server.del.
  destruct (rlookup _ _ _) as [e|] eqn:He; cbn.
  - case_bool_decide as Hv; case_bool_decide as Hv'; cbn in *; try congruence;
      rewrite ?He; cbn; f_equal; world_eq.
  - f_equal; world_eq.
Qed.

Lemma release_lock_serving key tok w :
  serving w →
  release_lock key tok w =
    if bool_decide (stored_token key w = Some tok)
    then (Returned true, without_lock key w)
    else (Returned false, w).
Proof.
  unfold serving. destruct (_client (mgr w)) as [c|] eqn:Hc; intros H.
  - by eapply release_lock_remote.
  - by apply release_lock_local.
Qed.

(** When the server does not answer, [release_lock] reports [False] and
    nothing has changed. *)
Lemma release_lock_link_down key tok w c :
  _client (mgr w) = Some c → link w = false →
  release_lock key tok w = (Returned false, w).
Proof. intros Hc Hl. unfold release_lock. run_m. by rewrite Hc, Hl. Qed.

Lemma stored_token_without_lock key w : stored_token key (without_lock key w) = None.
Proof.
  unfold stored_token, without_lock. destruct (_client (mgr w)) eqn:Hc; cbn.
  - destruct (rlookup _ _ _) eqn:He; cbn; rewrite Hc; cbn.
    + by rewrite rlookup_delete.
    + by rewrite He.
  - rewrite Hc. by rewrite lookup_delete_eq.
Qed.

Lemma stored_token_without_lock_ne key key' w :
  key ≠ key' → stored_token key' (without_lock key w) = stored_token key' w.
Proof.
  intros Hne%lock_key_inj.
  unfold stored_token, without_lock. destruct (_client (mgr w)) eqn:Hc; cbn.
  - destruct (rlookup _ _ ("lock:" +:+ key)) eqn:He; cbn; rewrite Hc; cbn; [|done].
    by rewrite rlookup_delete_ne.
  - rewrite Hc. by rewrite lookup_delete_ne.
Qed.

Lemma serving_without_lock key w : serving w → serving (without_lock key w).
Proof.
  unfold serving, without_lock. destruct (_client (mgr w)) eqn:Hc; cbn.
  - destruct (rlookup _ _ _); cbn; by rewrite Hc.
  - by rewrite Hc.
Qed.

(** C1.  [release_lock key tok] returns [True] exactly when the token
    recorded for [key] is [tok], and then the record is gone; otherwise it
    returns [False] and the world is as before.  Releasing again returns
    [False] and changes nothing. *)
Theorem release_lock_ownership key tok w :
  serving w →
  ∃ b w',
    release_lock key tok w = (Returned b, w') ∧
    (b = true ↔ stored_token key w = Some tok) ∧
    w' = (if b then without_lock key w else w) ∧
    stored_token key w' = (if b then None else stored_token key w) ∧
    release_lock key tok w' = (Returned false, w').
Proof.
  intros Hs. rewrite (release_lock_serving _ _ _ Hs).
  case_bool_decide as Ht.
  - exists true, (without_lock key w). split_and!; try done.
    + apply stored_token_without_lock.
    + rewrite release_lock_serving by by apply serving_without_lock.
      by rewrite stored_token_without_lock.
  - exists false, w. split_and!; try done.
    rewrite release_lock_serving by done. by rewrite bool_decide_eq_false_2.
Qed.

Lemma release_lock_ownership_witness :
  serving held_world ∧
  ∃ b w',
    release_lock "job:42" "t1" held_world = (Returned b, w') ∧
    (b = true ↔ stored_token "job:42" held_world = Some "t1") ∧
    w' = (if b then without_lock "job:42" held_world else held_world) ∧
    stored_token "job:42" w' = (if b then None else stored_token "job:42" held_world) ∧
    release_lock "job:42" "t1" w' = (Returned false, w').
Proof.
  split; [reflexivity|].
  apply (release_lock_ownership "job:42" "t1" held_world). reflexivity.
Defined.

(** ** Lifecycle *)

(** [initialize] always returns and never raises, whatever the state of
    the manager; it returns [True] exactly when it reaches the server, and
    the disabled branch leaves [_client] as it found it. *)
Lemma initialize_returns w :
  ∃ w', initialize w = (Returned (connects w), w') ∧
        _initialized (mgr w') = true ∧
        _client (mgr w') =
          (if redis_enabled (config w)
           then if connects w
                then Some {| host := redis_host (config w);
                             port := redis_port (config w);
                             password := if bool_decide (redis_password (config w) = "")
                                         then None else Some (redis_password (config w));
                             db := redis_db (config w) |}
                else None
           else _client (mgr w)).
Proof.
  unfold initialize, connects, import_redis, ping. run_m.
  destruct (redis_enabled (config w)); cbn.
  - destruct (redis_module w); cbn.
    + destruct (link w); cbn; eexists; split_and!; reflexivity.
    + eexists; split_and!; reflexivity.
  - eexists; split_and!; reflexivity.
Qed.


(** ** The refresh lock *)

Lemma release_cf_lock_serving w :
  serving w → release_cf_lock w = (Returned (), without_lock "cf:refresh" w).
Proof.
  unfold serving, release_cf_lock, without_lock. run_m.
  destruct (_client (mgr w)) eqn:Hc; intros Hs; rewrite Hs; cbn -[rlookup].
  - unfold Server.del. change ("lock:" +:+ "cf:refresh") with "lock:cf:refresh".
    destruct (rlookup _ _ _); cbn; f_equal; world_eq.
  - change ("lock:" +:+ "cf:refresh") with "lock:cf:refresh".
    destruct (_local_locks (mgr w) !! "lock:cf:refresh") eqn:Hk.
    + rewrite bool_decide_eq_true_2 by done. cbn. f_equal. world_eq.
    + rewrite bool_decide_eq_false_2 by by intros [? ?]. cbn.
      rewrite delete_id by done. f_equal. world_eq.
Qed.

Lemma ensure_initialized_skip w :
  _initialized (mgr w) = true → ensure_initialized w = (Returned (), w).
Proof. intros Hi. unfold ensure_initialized. run_m. by rewrite Hi. Qed.

(** C6, as the code has it.  [release_cf_lock] takes no token: it removes
    the record of the fixed key ["lock:cf:refresh"], whatever token it
    holds, and touches no other lock record; [RedisCFLock.release_lock] on
    an initialized manager is that same call. *)
Theorem release_cf_lock_unconditional w :
  serving w →
  release_cf_lock w = (Returned (), without_lock "cf:refresh" w) ∧
  stored_token "cf:refresh" (without_lock "cf:refresh" w) = None ∧
  (∀ key, key ≠ "cf:refresh" →
     stored_token key (without_lock "cf:refresh" w) = stored_token key w) ∧
  (_initialized (mgr w) = true → RedisCFLock_release_lock w = release_cf_lock w).
Proof.
  intros Hs. split_and!.
  - by apply release_cf_lock_serving.
  - apply stored_token_without_lock.
  - intros key Hk. by apply stored_token_without_lock_ne.
  - intros Hi. unfold RedisCFLock_release_lock. run_m.
    by rewrite ensure_initialized_skip.
Qed.

Lemma release_cf_lock_unconditional_witness :
  serving cf_held_by_other ∧
  release_cf_lock cf_held_by_other
    = (Returned (), without_lock "cf:refresh" cf_held_by_other) ∧
  stored_token "cf:refresh" (without_lock "cf:refresh" cf_held_by_other) = None ∧
  (∀ key, key ≠ "cf:refresh" →
     stored_token key (without_lock "cf:refresh" cf_held_by_other)
       = stored_token key cf_held_by_other) ∧
  (_initialized (mgr cf_held_by_other) = true →
     RedisCFLock_release_lock cf_held_by_other = release_cf_lock cf_held_by_other).
Proof.
  split; [reflexivity|]. apply (release_cf_lock_unconditional cf_held_by_other). reflexivity.
Defined.

(** C6, as the claim has it, fails: the refresh lock is held with token
    ["owner-A"]; the ownership-checked primitive called with another token
    leaves the record, [release_cf_lock] and [RedisCFLock.release_lock]
    delete it. *)
Lemma release_cf_lock_deletes_foreign_lock :
  stored_token "cf:refresh" cf_held_by_other = Some "owner-A" ∧
  stored_token "cf:refresh" (release_cf_lock_spec "owner-B" cf_held_by_other).2
    = Some "owner-A" ∧
  stored_token "cf:refresh" (release_cf_lock cf_held_by_other).2 = None ∧
  stored_token "cf:refresh" (RedisCFLock_release_lock cf_held_by_other).2 = None.
Proof. vm_compute. done. Qed.

(** ** Cache operations *)

Lemma set_local key value ex w :
  _client (mgr w) = None →
  set key value ex w =
    (Returned true,
     set_tasks (tasks w ++ expiry_task key ex w)
       (set_mgr (set_local_cache (<[key := PStr value]> (_local_cache (mgr w))) (mgr w)) w)).
Proof.
  intros Hc. unfold set, expiry_task. run_m. rewrite Hc.
  destruct (py_or ex 0 =? 0); cbn; f_equal; world_eq. by rewrite app_nil_r.
Qed.

Lemma get_local key w :
  _client (mgr w) = None →
  get key w = (Returned (default PNone (_local_cache (mgr w) !! key)), w).
Proof. intros Hc. unfold get. run_m. by rewrite Hc. Qed.

Lemma delete_local key w :
  _client (mgr w) = None →
  delete key w =
    (Returned (bool_decide (is_Some (_local_cache (mgr w) !! key))),
     set_mgr (set_local_cache (base.delete key (_local_cache (mgr w))) (mgr w)) w).
Proof.
  intros Hc. unfold delete. run_m. rewrite Hc.
  case_bool_decide as Hin; cbn; [done|].
  apply eq_None_not_Some in Hin. rewrite delete_id by done. f_equal. world_eq.
Qed.

Lemma exists_local key w :
  _client (mgr w) = None →
  exists_ key w = (Returned (bool_decide (is_Some (_local_cache (mgr w) !! key))), w).
Proof. intros Hc. unfold exists_. run_m. by rewrite Hc. Qed.

Lemma get_remote key w c :
  _client (mgr w) = Some c → link w = true →
  get key w
    = (Returned (from_option PStr PNone (rvalue <$> rlookup (clock w) (store w) key)), w).
Proof.
  intros Hc Hl. unfold get, Server.get. run_m. rewrite Hc, Hl. cbn -[rlookup].
  f_equal. world_eq.
Qed.

Lemma set_remote key value ex w c :
  _client (mgr w) = Some c → link w = true → (∀ e, ex = Some e → 0 < e) →
  set key value ex w =
    (Returned true,
     set_store (<[key := {| rvalue := value;
                             rdeadline := (λ e, clock w + 1000 * e) <$> ex |}]> (store w)) w).
Proof.
  intros Hc Hl Hex. unfold set, Server.set. run_m. rewrite Hc, Hl.
  destruct ex as [e|]; cbn; [|done].
  specialize (Hex e eq_refl). by rewrite (proj2 (Z.leb_gt _ _)) by done.
Qed.

Lemma delete_remote key w c :
  _client (mgr w) = Some c → link w = true →
  ∃ st, delete key w
          = (Returned (bool_decide (is_Some (rlookup (clock w) (store w) key))),
             set_store st w) ∧
        rlookup (clock w) st key = None.
Proof.
  intros Hc Hl. unfold delete, Server.del. run_m. rewrite Hc, Hl.
  destruct (rlookup _ _ _) eqn:He; cbn -[rlookup].
  - eexists. split; [done|]. apply rlookup_delete.
  - eexists. split; [done|exact He].
Qed.

(** C9 at its failing input.  Fallback backend.  [set("session", "1",
    ex=60)] at 0 s; [set("session", "2", ex=60)] at 30 s, so that the new
    value is due to expire at 90 s.  The expiry scheduled by the first
    [set] is still in the event loop: the clock cannot pass 60 s before it
    has run, and when it runs it deletes the new value.  At 70 s, with
    nothing written since the second [set] and its expiry twenty seconds
    ahead, [get("session")] returns [None].  On the server the second
    [SET] replaces the deadline, and the same calls return ["2"] at
    70 s. *)
Theorem stale_cache_expiry_deletes_newer_value :
  (∃ w1 w2 w3 w4,
     set "session" "1" (Some 60) (boot cfg_off) = (Returned true, w1) ∧
     run [Advance 30000] w1 = Some w2 ∧
     set "session" "2" (Some 60) w2 = (Returned true, w3) ∧
     get "session" w3 = (Returned (PStr "2"), w3) ∧
     tasks w3 = [ AutoExpireLocalCache "session" 60000;
                  AutoExpireLocalCache "session" 90000 ] ∧
     fire (Advance 30001) w3 = None ∧
     run [Advance 30000; Resume 0%nat; Advance 10000] w3 = Some w4 ∧
     clock w4 = 70000 ∧
     tasks w4 = [ Done (Returned PNone); AutoExpireLocalCache "session" 90000 ] ∧
     get "session" w4 = (Returned PNone, w4)) ∧
  (∃ w1 w2 w3 w4,
     set "session" "1" (Some 60) remote_world = (Returned true, w1) ∧
     run [Advance 30000] w1 = Some w2 ∧
     set "session" "2" (Some 60) w2 = (Returned true, w3) ∧
     run [Advance 40000] w3 = Some w4 ∧
     clock w4 = 70000 ∧
     get "session" w4 = (Returned (PStr "2"), w4)).
Proof.
  split.
  - eexists _, _, _, _. split; [vm_compute; reflexivity|].
    split; [vm_compute; reflexivity|]. split; [vm_compute; reflexivity|].
    split; [vm_compute; reflexivity|]. split; [reflexivity|].
    split; [vm_compute; reflexivity|]. split; [vm_compute; reflexivity|].
    split; [reflexivity|]. split; [reflexivity|]. vm_compute; reflexivity.
  - eexists _, _, _, _. split; [vm_compute; reflexivity|].
    split; [vm_compute; reflexivity|]. split; [vm_compute; reflexivity|].
    split; [vm_compute; reflexivity|]. split; [reflexivity|]. vm_compute; reflexivity.
Qed.

(** ** Concurrency counters *)

(** C10.  In the fallback the counters live in [_local_cache]: after
    [increment_concurrency], [exists] on the counter's key returns [True];
    [delete] on that key removes the counter, and [get_concurrency] is back
    at [0]. *)
Theorem fallback_counter_shares_cache token_id lock_type w :
  _client (mgr w) = None →
  is_Some (as_int (default (PInt 0)
                     (_local_cache (mgr w) !! concurrency_key token_id lock_type))) →
  ∃ n w1 w2,
    increment_concurrency token_id lock_type w = (Returned n, w1) ∧
    exists_ (concurrency_key token_id lock_type) w1 = (Returned true, w1) ∧
    delete (concurrency_key token_id lock_type) w1 = (Returned true, w2) ∧
    get_concurrency token_id lock_type w2 = (Returned (PInt 0), w2).
Proof.
  intros Hc [n Hn].
  exists (n + 1). eexists. eexists.
  split.
  { unfold increment_concurrency. run_m. rewrite Hc, Hn. cbn. reflexivity. }
  split.
  { rewrite exists_local by done. cbn. rewrite lookup_insert_eq.
    by rewrite bool_decide_eq_true_2 by by eexists. }
  split.
  { rewrite delete_local by done. cbn. rewrite lookup_insert_eq.
    by rewrite bool_decide_eq_true_2 by by eexists. }
  unfold get_concurrency. run_m. rewrite Hc. cbn. by rewrite lookup_delete_eq.
Qed.

Lemma fallback_counter_shares_cache_witness :
  _client (mgr (boot cfg_off)) = None ∧
  is_Some (as_int (default (PInt 0)
                     (_local_cache (mgr (boot cfg_off)) !! concurrency_key 7 "image"))) ∧
  ∃ n w1 w2,
    increment_concurrency 7 "image" (boot cfg_off) = (Returned n, w1) ∧
    exists_ (concurrency_key 7 "image") w1 = (Returned true, w1) ∧
    delete (concurrency_key 7 "image") w1 = (Returned true, w2) ∧
    get_concurrency 7 "image" w2 = (Returned (PInt 0), w2).
Proof.
  assert (is_Some (as_int (default (PInt 0)
            (_local_cache (mgr (boot cfg_off)) !! concurrency_key 7 "image")))) as Hv
    by (exists 0; reflexivity).
  split; [reflexivity|]. split; [exact Hv|].
  apply (fallback_counter_shares_cache 7 "image" (boot cfg_off)); [reflexivity|exact Hv].
Defined.

Section Counter.

Context (token_id : Z) (lock_type : string).

Lemma counter_spec_nonneg o n :
  0 ≤ n → 0 ≤ (counter_spec o n).1 ∧ 0 ≤ (counter_spec o n).2.
Proof.
  intros Hn. destruct o; cbn; try lia.
  destruct (Z.ltb_spec (n - 1) 0); cbn; lia.
Qed.



Lemma counter_spec_peak_ge os : ∀ n, n ≤ counter_spec_peak os n.
Proof. destruct os; intros n; cbn; lia. Qed.

Lemma counter_spec_peak_decrements k n :
  0 ≤ n → counter_spec_peak (replicate k Decrement) n = n.
Proof.
  revert n. induction k as [|k IH]; intros n Hn; [done|].
  change (replicate (S k) Decrement) with (Decrement :: replicate k Decrement).
  cbn [counter_spec_peak]. destruct (counter_spec_nonneg Decrement n Hn) as [_ H2].
  rewrite IH by done. cbn in *. destruct (n - 1 <? 0) eqn:E; cbn; lia.
Qed.


(** The remote counter that stands at [n]: what the three methods do when
    each runs alone.  [increment] needs room below [2^63]. *)
Lemma get_concurrency_remote w c n :
  _client (mgr w) = Some c → link w = true →
  counter_value token_id lock_type w = Some n →
  get_concurrency token_id lock_type w = (Returned (PInt n), w).
Proof.
  intros Hc Hl. unfold counter_value, get_concurrency, Server.get. rewrite Hc.
  run_m. rewrite Hc, Hl. cbn -[rlookup].
  destruct (rlookup _ _ _) as [e|] eqn:He; cbn -[rlookup].
  - intros [Hs _]%redis_int_Some. rewrite Hs.
    destruct (str_of_int n) eqn:E; [by apply str_of_int_nonempty in E|].
    rewrite <- E, py_int_str_of_int. cbn. f_equal. world_eq.
  - intros [= <-]. f_equal. world_eq.
Qed.

Lemma increment_concurrency_remote w c n :
  _client (mgr w) = Some c → link w = true →
  counter_value token_id lock_type w = Some n → int64_min ≤ n + 1 ≤ int64_max →
  ∃ w', increment_concurrency token_id lock_type w = (Returned (n + 1), w') ∧
        counter_value token_id lock_type w' = Some (n + 1) ∧
        _client (mgr w') = Some c ∧ link w' = true.
Proof.
  intros Hc Hl Hv Hr. unfold counter_value in *. rewrite Hc in Hv.
  unfold increment_concurrency, Server.incrby. run_m. rewrite Hc, Hl. cbn -[rlookup].
  destruct (rlookup _ _ _) as [e|] eqn:He; cbn -[rlookup].
  - rewrite Hv. cbn -[rlookup].
    rewrite (proj2 (Z.leb_le _ _) (proj1 Hr)), (proj2 (Z.leb_le _ _) (proj2 Hr)).
    cbn -[rlookup]. eexists. split; [done|]. cbn -[rlookup]. rewrite Hc.
    rewrite rlookup_insert. apply rlookup_Some in He as [_ Ha].
    unfold alive in *. cbn. rewrite Ha. split_and!; try done.
    by apply redis_int_str_of_int.
  - simplify_eq. eexists. split; [done|]. cbn -[rlookup]. rewrite Hc.
    rewrite rlookup_insert. by cbn.
Qed.

Lemma decrement_concurrency_remote w c n :
  _client (mgr w) = Some c → link w = true →
  counter_value token_id lock_type w = Some n → 0 ≤ n →
  ∃ w', uninterrupted (decrement_concurrency token_id lock_type) w
          = (Returned (Z.max 0 (n - 1)), w') ∧
        counter_value token_id lock_type w' = Some (Z.max 0 (n - 1)) ∧
        _client (mgr w') = Some c ∧ link w' = true.
Proof.
  intros Hc Hl Hv Hn. unfold counter_value in *. rewrite Hc in Hv.
  unfold uninterrupted, decrement_concurrency, Server.incrby. run_m.
  rewrite Hc, Hl. cbn -[rlookup].
  destruct (rlookup _ _ _) as [e|] eqn:He; cbn -[rlookup].
  - rewrite Hv. apply redis_int_Some in Hv as [_ [Hlo Hhi]].
    change (n + -1) with (n - 1).
    assert (int64_min ≤ n - 1 ≤ int64_max) as [Hlo' Hhi'] by (unfold int64_min in *; lia).
    rewrite (proj2 (Z.leb_le _ _) Hlo'), (proj2 (Z.leb_le _ _) Hhi'). cbn -[rlookup].
    destruct (Z.ltb_spec (n - 1) 0) as [E|E]; cbn -[rlookup].
    + unfold decrement_concurrency_reset, Server.set. run_m.
      rewrite ?Hc; cbn -[rlookup]; rewrite ?Hl; cbn -[rlookup].
      rewrite Z.max_l by lia. eexists. split; [done|]. cbn -[rlookup]. rewrite Hc.
      rewrite rlookup_insert. by cbn.
    + rewrite Z.max_r by lia. eexists. split; [done|]. cbn -[rlookup]. rewrite Hc.
      rewrite rlookup_insert. apply rlookup_Some in He as [_ Ha].
      unfold alive in *. cbn. rewrite Ha. split_and!; try done.
      apply redis_int_str_of_int. lia.
  - simplify_eq. cbn -[rlookup].
    unfold decrement_concurrency_reset, Server.set. run_m.
      rewrite ?Hc; cbn -[rlookup]; rewrite ?Hl; cbn -[rlookup].
    eexists. split; [done|]. cbn -[rlookup]. rewrite Hc. rewrite rlookup_insert. by cbn.
Qed.

(** One counter operation on a counter that stands at [n ≥ 0] does what
    [counter_spec] says, in either backend; on the server the new value has
    to fit the signed 64-bit range. *)
Lemma counter_call_step o w n :
  answering w → counter_value token_id lock_type w = Some n → 0 ≤ n →
  (is_connected (mgr w) = true → (counter_spec o n).2 ≤ int64_max) →
  ∃ w', counter_call token_id lock_type o w
          = (Returned (PInt (counter_spec o n).1), w') ∧
        counter_value token_id lock_type w' = Some (counter_spec o n).2 ∧
        answering w' ∧ is_connected (mgr w') = is_connected (mgr w).
Proof.
  unfold answering, is_connected.
  destruct (_client (mgr w)) as [c|] eqn:Hc; intros Hl Hv Hn Hr.
  - (* remote *)
    rewrite bool_decide_eq_true_2 in Hr by done. specialize (Hr eq_refl).
    destruct o; cbn -[rlookup counter_value] in *.
    + exists w. rewrite (get_concurrency_remote w c n) by done. by rewrite Hc.
    + destruct (increment_concurrency_remote w c n Hc Hl Hv) as (w' & Hi & Hv' & Hc' & Hl').
      { unfold int64_min. lia. }
      exists w'. unfold fmap, M_fmap, mbind, M_bind. rewrite Hi, Hc', Hl'. by cbn.
    + destruct (decrement_concurrency_remote w c n Hc Hl Hv Hn) as (w' & Hd & Hv' & Hc' & Hl').
      exists w'. unfold fmap, M_fmap, mbind, M_bind. rewrite Hd, Hc', Hl'. cbn.
      destruct (Z.ltb_spec (n - 1) 0); cbn.
      * rewrite Z.max_l in Hv' by lia. by rewrite Z.max_l by lia.
      * rewrite Z.max_r in Hv' by lia. by rewrite Z.max_r by lia.
  - (* fallback *)
    unfold counter_value in *. rewrite Hc in Hv.
    destruct o; cbn.
    + exists w. unfold get_concurrency. run_m. rewrite Hc. cbn. rewrite ?Hc.
      destruct (_local_cache (mgr w) !! _) as [[]|]; simplify_eq; done.
    + unfold increment_concurrency. run_m. rewrite Hc. cbn.
      destruct (_local_cache (mgr w) !! _) as [[]|] eqn:Hk; simplify_eq; cbn;
        (eexists; split; [done|]; cbn; rewrite ?Hc; by rewrite lookup_insert_eq).
    + unfold uninterrupted, decrement_concurrency. run_m. rewrite Hc. cbn.
      destruct (_local_cache (mgr w) !! _) as [[]|] eqn:Hk; simplify_eq; cbn.
      * destruct (n - 1 <? 0) eqn:E; cbn.
        -- apply Z.ltb_lt in E. rewrite Z.max_l by lia.
           eexists; split; [done|]; cbn; rewrite ?Hc; by rewrite lookup_insert_eq.
        -- apply Z.ltb_ge in E. rewrite Z.max_r by lia.
           eexists; split; [done|]; cbn; rewrite ?Hc; by rewrite lookup_insert_eq.
      * eexists; split; [done|]; cbn; rewrite ?Hc; by rewrite lookup_insert_eq.
Qed.

Lemma counter_calls_run os : ∀ w n,
  answering w → counter_value token_id lock_type w = Some n → 0 ≤ n →
  (is_connected (mgr w) = true → counter_spec_peak os n ≤ int64_max) →
  ∃ w',
    counter_calls token_id lock_type os w
      = (Returned (PInt <$> (counter_spec_run os n).1), w') ∧
    counter_value token_id lock_type w' = Some (counter_spec_run os n).2 ∧
    answering w' ∧ is_connected (mgr w') = is_connected (mgr w).
Proof.
  induction os as [|o os IH]; intros w n Ha Hv Hn Hr.
  - exists w. by cbn.
  - cbn [counter_spec_peak] in Hr.
    pose proof (counter_spec_peak_ge os (counter_spec o n).2) as Hge.
    destruct (counter_call_step o w n Ha Hv Hn) as (w1 & Hcall & Hv1 & Ha1 & Hc1).
    { intros Hcon. specialize (Hr Hcon). lia. }
    destruct (counter_spec_nonneg o n Hn) as [_ Hn1].
    destruct (IH w1 _ Ha1 Hv1 Hn1) as (w2 & Hcalls & Hv2 & Ha2 & Hc2).
    { rewrite Hc1. intros Hcon. specialize (Hr Hcon). lia. }
    exists w2. cbn [counter_calls counter_spec_run].
    destruct (counter_spec o n) as [r n1]; cbn [fst snd] in *.
    destruct (counter_spec_run os n1) as [rs n2]; cbn [fst snd] in *.
    split; [|split_and!; congruence].
    unfold mbind, M_bind at 1. rewrite Hcall.
    unfold mbind, M_bind at 1. by rewrite Hcalls.
Qed.


End Counter.



(** The scenario of the specification: three increments, two decrements,
    five more decrements, on a counter that starts absent. *)
Example counter_scenario :
  (counter_calls 7 "image"
     (replicate 3 Increment ++ replicate 2 Decrement ++ replicate 5 Decrement)
     (boot cfg_off)).1
  = Returned (PInt <$> [1; 2; 3; 2; 1; 0; 0; 0; 0; 0]).
Proof. vm_compute. reflexivity. Qed.

(** ** Acquiring a lock, one resumption at a time *)

Lemma acquire_lock_local_free key lock_value timeout blocking wait_timeout w :
  _client (mgr w) = None → _local_lock (mgr w) = false →
  _local_locks (mgr w) !! ("lock:" +:+ key) = None →
  acquire_lock key lock_value timeout blocking wait_timeout w =
    (Returned (Return (Some lock_value)),
     set_tasks (tasks w ++ [expiry_action key timeout w])
       (set_mgr (set_local_locks (<["lock:" +:+ key := lock_value]> (_local_locks (mgr w)))
                   (mgr w)) w)).
Proof.
  intros Hc Hg Hk. unfold acquire_lock, acquire_lock_local_take, expiry_action.
  run_m. rewrite Hc, Hg. cbn. rewrite Hk.
  rewrite bool_decide_eq_false_2 by by intros [? ?]. cbn.
  f_equal. world_eq.
Qed.

Lemma acquire_lock_local_held key lock_value timeout wait_timeout w :
  _client (mgr w) = None → _local_lock (mgr w) = false →
  is_Some (_local_locks (mgr w) !! ("lock:" +:+ key)) →
  acquire_lock key lock_value timeout false wait_timeout w = (Returned (Return None), w).
Proof.
  intros Hc Hg Hk. unfold acquire_lock. run_m. rewrite Hc, Hg. cbn.
  rewrite bool_decide_eq_true_2 by done. cbn. f_equal. world_eq.
Qed.

Lemma acquire_lock_local_wait key lock_value timeout wait_timeout w :
  _client (mgr w) = None → _local_lock (mgr w) = false →
  is_Some (_local_locks (mgr w) !! ("lock:" +:+ key)) →
  acquire_lock key lock_value timeout true wait_timeout w =
    (Returned (Await (AcquireLocalSleep ("lock:" +:+ key) lock_value
                        (py_or timeout (redis_lock_timeout (config w)))
                        (py_or wait_timeout
                           (1000 * py_or timeout (redis_lock_timeout (config w))))
                        (clock w) (clock w + 100))),
     set_mgr (set_local_lock true (mgr w)) w).
Proof.
  intros Hc Hg Hk. unfold acquire_lock, acquire_lock_local_loop. run_m. rewrite Hc, Hg. cbn.
  rewrite bool_decide_eq_true_2 by done. cbn.
  by rewrite bool_decide_eq_true_2 by done.
Qed.

Lemma acquire_lock_local_blocked key lock_value timeout blocking wait_timeout w :
  _client (mgr w) = None → _local_lock (mgr w) = true →
  acquire_lock key lock_value timeout blocking wait_timeout w = (Blocked, w).
Proof. intros Hc Hg. unfold acquire_lock. run_m. by rewrite Hc, Hg. Qed.

Lemma acquire_lock_remote_free key lock_value timeout blocking wait_timeout w c :
  _client (mgr w) = Some c → link w = true →
  0 < py_or timeout (redis_lock_timeout (config w)) →
  rlookup (clock w) (store w) ("lock:" +:+ key) = None →
  acquire_lock key lock_value timeout blocking wait_timeout w =
    (Returned (Return (Some lock_value)),
     set_store (<["lock:" +:+ key :=
                    {| rvalue := lock_value;
                       rdeadline := Some (clock w + 1000 * py_or timeout
                                                             (redis_lock_timeout (config w))) |}]>
                  (store w)) w).
Proof.
  intros Hc Hl Ht Hk. unfold acquire_lock, acquire_lock_remote_loop, Server.set_nx_ex.
  run_m. rewrite Hc, Hl. rewrite (proj2 (Z.leb_gt _ _)) by done. by rewrite Hk.
Qed.

Lemma acquire_lock_remote_held key lock_value timeout wait_timeout w c :
  _client (mgr w) = Some c → link w = true →
  0 < py_or timeout (redis_lock_timeout (config w)) →
  is_Some (rlookup (clock w) (store w) ("lock:" +:+ key)) →
  acquire_lock key lock_value timeout false wait_timeout w = (Returned (Return None), w).
Proof.
  intros Hc Hl Ht [e Hk]. unfold acquire_lock, acquire_lock_remote_loop, Server.set_nx_ex.
  run_m. rewrite Hc, Hl. rewrite (proj2 (Z.leb_gt _ _)) by done. rewrite Hk. cbn.
  f_equal. world_eq.
Qed.

(** One resumption of the remote wait loop: the lock is taken at the first
    poll that finds the key free; a poll that finds it held gives up once
    [wait_timeout] has elapsed and sleeps 100 ms otherwise. *)
Lemma remote_poll lk v to wt st wk w :
  link w = true → 0 < to → wk ≤ clock w →
  resume (AcquireRemoteSleep lk v to wt st wk) w =
    match rlookup (clock w) (store w) lk with
    | None =>
        Some (Done (Returned (PStr v)),
              set_store (<[lk := {| rvalue := v; rdeadline := Some (clock w + 1000 * to) |}]>
                           (store w)) w)
    | Some _ =>
        if wt <=? clock w - st then Some (Done (Returned PNone), w)
        else Some (AcquireRemoteSleep lk v to wt st (clock w + 100), w)
    end.
Proof.
  intros Hl Hto Hwk. cbn -[String.append].
  rewrite (proj2 (Z.ltb_ge _ _)) by done.
  unfold acquire_lock_remote_loop, Server.set_nx_ex. run_m. rewrite Hl.
  rewrite (proj2 (Z.leb_gt _ _)) by done.
  destruct (rlookup _ _ _); cbn; [|done].
  destruct (wt <=? clock w - st); cbn; do 2 f_equal; world_eq.
Qed.

(** X4.  Handing a lock over, in either backend: while [key] is recorded
    with token [t1], a non-blocking [acquire_lock] returns [None] and
    changes nothing; after the holder's [release_lock] the next
    [acquire_lock] succeeds and records its own token. *)
Lemma lock_handover key t1 lock_value timeout wait_timeout w :
  serving w → 0 < py_or timeout (redis_lock_timeout (config w)) →
  stored_token key w = Some t1 →
  acquire_lock key lock_value timeout false wait_timeout w = (Returned (Return None), w) ∧
  ∃ w1 w2,
    release_lock key t1 w = (Returned true, w1) ∧
    acquire_lock key lock_value timeout false wait_timeout w1
      = (Returned (Return (Some lock_value)), w2) ∧
    stored_token key w2 = Some lock_value.
Proof.
  intros Hs Ht Hk. split.
  - revert Hs Hk. unfold serving, stored_token.
    destruct (_client (mgr w)) eqn:Hc; intros Hs Hk.
    + eapply acquire_lock_remote_held; try done.
      destruct (rlookup _ _ _); [by eexists|done].
    + apply acquire_lock_local_held; try done.
  - pose proof (stored_token_without_lock key w) as Hnone.
    pose proof (serving_without_lock key w Hs) as Hs1.
    assert (config (without_lock key w) = config w ∧ clock (without_lock key w) = clock w)
      as [Hcfg Hclk].
    { unfold without_lock. destruct (_client (mgr w)); [destruct (rlookup _ _ _)|]; done. }
    exists (without_lock key w).
    rewrite release_lock_serving by done. rewrite bool_decide_eq_true_2 by done.
    revert Hs1 Hnone. unfold serving, stored_token.
    destruct (_client (mgr (without_lock key w))) eqn:Hc1; intros Hs1 Hnone.
    + eexists. split; [done|]. split.
      * eapply acquire_lock_remote_free; try done; [by rewrite Hcfg|].
        by destruct (rlookup _ _ _).
      * cbn -[rlookup]. rewrite Hc1. rewrite rlookup_insert. unfold alive. cbn.
        rewrite Hcfg. by rewrite (proj2 (Z.ltb_lt _ _)) by lia.
    + eexists. split; [done|]. split.
      * by apply acquire_lock_local_free.
      * cbn. rewrite Hc1. by rewrite lookup_insert_eq.
Qed.

(** ** Expiry of a fallback lock *)

Lemma auto_release_fires key wake w :
  _local_lock (mgr w) = false → wake ≤ clock w →
  resume (AutoReleaseLocalLock key wake) w =
    Some (Done (Returned PNone),
          set_mgr (set_local_locks (base.delete key (_local_locks (mgr w))) (mgr w)) w).
Proof.
  intros Hg Ht. cbn -[_auto_release_local_lock].
  rewrite (proj2 (Z.ltb_ge _ _)) by done.
  unfold _auto_release_local_lock. run_m. rewrite Hg. cbn.
  destruct (_local_locks (mgr w) !! key) as [tok|] eqn:Hk.
  - rewrite bool_decide_eq_true_2 by done. cbn. do 2 f_equal; world_eq.
  - rewrite bool_decide_eq_false_2 by by intros [? ?]. cbn.
    rewrite delete_id by done. do 2 f_equal; world_eq.
Qed.

Lemma auto_release_early key wake w :
  clock w < wake → resume (AutoReleaseLocalLock key wake) w = None.
Proof.
  intros Ht. cbn -[_auto_release_local_lock]. by rewrite (proj2 (Z.ltb_lt _ _)) by done.
Qed.

Lemma auto_release_blocked key wake w :
  _local_lock (mgr w) = true → resume (AutoReleaseLocalLock key wake) w = None.
Proof.
  intros Hg. cbn -[_auto_release_local_lock]. destruct (_ <? _); [done|].
  unfold _auto_release_local_lock. run_m. by rewrite Hg.
Qed.

(** The wait loop schedules an expiry on the same terms as the entry of
    [acquire_lock]. *)
Lemma acquire_lock_local_wake_schedules lk v to wt st w r w1 :
  acquire_lock_local_wake lk v to wt st w = (Returned r, w1) →
  tasks w1 = tasks w ++
    (if r is Return (Some _) then [AutoReleaseLocalLock lk (clock w + 1000 * to)] else []).
Proof.
  unfold acquire_lock_local_wake, acquire_lock_local_loop, acquire_lock_local_take. run_m.
  intros H. repeat (case_match; simplify_eq/=; try done); by rewrite ?app_nil_r.
Qed.

(** X27.  In the fallback, a call of [acquire_lock] that returns a token
    has appended exactly one [_auto_release_local_lock] to the event loop,
    due [ttl] later, and a call that returns anything else has appended
    none.  That expiry cannot run before [ttl] has elapsed; from then on,
    in a world where the guard is free, it removes the record of the key
    if there is one and changes nothing if there is none, after which the
    key can be acquired again. *)
Theorem fallback_lock_expiry key lock_value timeout blocking wait_timeout w :
  _client (mgr w) = None →
  (∀ r w1,
     acquire_lock key lock_value timeout blocking wait_timeout w = (Returned r, w1) →
     tasks w1 = tasks w ++
       (if r is Return (Some _) then [expiry_action key timeout w] else [])) ∧
  (_local_lock (mgr w) = false → stored_token key w = None →
   ∃ w1,
     acquire_lock key lock_value timeout blocking wait_timeout w
       = (Returned (Return (Some lock_value)), w1) ∧
     stored_token key w1 = Some lock_value) ∧
  (∀ w2, clock w2 < clock w + 1000 * py_or timeout (redis_lock_timeout (config w)) →
     resume (expiry_action key timeout w) w2 = None) ∧
  (∀ w2,
     _client (mgr w2) = None → _local_lock (mgr w2) = false →
     clock w + 1000 * py_or timeout (redis_lock_timeout (config w)) ≤ clock w2 →
     resume (expiry_action key timeout w) w2
       = Some (Done (Returned PNone), without_lock key w2) ∧
     (stored_token key w2 = None → without_lock key w2 = w2) ∧
     ∀ lock_value' timeout' blocking' wait_timeout', ∃ w3,
       acquire_lock key lock_value' timeout' blocking' wait_timeout' (without_lock key w2)
         = (Returned (Return (Some lock_value')), w3)).
Proof.
  intros Hc. split_and!.
  - intros r w1.
    destruct (_local_lock (mgr w)) eqn:Hg.
    { by rewrite acquire_lock_local_blocked. }
    destruct (_local_locks (mgr w) !! ("lock:" +:+ key)) as [tok|] eqn:Hk.
    + destruct blocking.
      * rewrite acquire_lock_local_wait by (rewrite ?Hk; done).
        intros [= <- <-]. cbn. by rewrite app_nil_r.
      * rewrite acquire_lock_local_held by (rewrite ?Hk; done).
        intros [= <- <-]. cbn. by rewrite app_nil_r.
    + rewrite acquire_lock_local_free by done. by intros [= <- <-].
  - unfold stored_token. rewrite Hc. intros Hg Hk.
    eexists. split; [by apply acquire_lock_local_free|].
    cbn. rewrite Hc. by rewrite lookup_insert_eq.
  - intros w2 Ht. by apply auto_release_early.
  - intros w2 Hc2 Hg2 Ht. split_and!.
    + unfold expiry_action, without_lock. rewrite Hc2. by apply auto_release_fires.
    + unfold stored_token, without_lock. rewrite Hc2. intros Hk.
      rewrite delete_id by done. world_eq.
    + intros v' to' b' wt'. eexists.
      apply acquire_lock_local_free.
      * unfold without_lock. by rewrite Hc2.
      * unfold without_lock. by rewrite Hc2.
      * unfold without_lock. rewrite Hc2. cbn. by rewrite lookup_delete_eq.
Qed.

Lemma fallback_lock_expiry_witness :
  _client (mgr (boot cfg_off)) = None ∧
  (∀ r w1,
     acquire_lock "job:42" "t1" (Some 2) false None (boot cfg_off) = (Returned r, w1) →
     tasks w1 = tasks (boot cfg_off) ++
       (if r is Return (Some _) then [expiry_action "job:42" (Some 2) (boot cfg_off)] else [])) ∧
  (_local_lock (mgr (boot cfg_off)) = false → stored_token "job:42" (boot cfg_off) = None →
   ∃ w1,
     acquire_lock "job:42" "t1" (Some 2) false None (boot cfg_off)
       = (Returned (Return (Some "t1")), w1) ∧
     stored_token "job:42" w1 = Some "t1") ∧
  (∀ w2, clock w2 < clock (boot cfg_off)
                    + 1000 * py_or (Some 2) (redis_lock_timeout (config (boot cfg_off))) →
     resume (expiry_action "job:42" (Some 2) (boot cfg_off)) w2 = None) ∧
  (∀ w2,
     _client (mgr w2) = None → _local_lock (mgr w2) = false →
     clock (boot cfg_off)
       + 1000 * py_or (Some 2) (redis_lock_timeout (config (boot cfg_off))) ≤ clock w2 →
     resume (expiry_action "job:42" (Some 2) (boot cfg_off)) w2
       = Some (Done (Returned PNone), without_lock "job:42" w2) ∧
     (stored_token "job:42" w2 = None → without_lock "job:42" w2 = w2) ∧
     ∀ lock_value' timeout' blocking' wait_timeout', ∃ w3,
       acquire_lock "job:42" lock_value' timeout' blocking' wait_timeout'
                    (without_lock "job:42" w2)
         = (Returned (Return (Some lock_value')), w3)).
Proof.
  split; [reflexivity|].
  apply (fallback_lock_expiry "job:42" "t1" (Some 2) false None (boot cfg_off)). reflexivity.
Defined.

(** A lock taken for two seconds and never released: the expiry runs at
    2 s, and the key is free again. *)
Example expiry_scenario :
  ∃ w, run [ Start (AcquireLock "job:42" "t1" (Some 2) false None); Resume 0%nat;
             Advance 2000; Resume 1%nat;
             Start (AcquireLock "job:42" "t2" (Some 2) false None); Resume 2%nat ]
           (boot cfg_off) = Some w ∧
       tasks w = [ Done (Returned (PStr "t1")); Done (Returned PNone);
                   Done (Returned (PStr "t2")); AutoReleaseLocalLock "lock:job:42" 4000 ].
Proof. eexists. split; [vm_compute; reflexivity|reflexivity]. Qed.

(** ** The event loop: what one resumption can do *)

Lemma run_app es1 es2 w :
  run (es1 ++ es2) w = w' ← run es1 w; run es2 w'.
Proof.
  revert w. induction es1 as [|e es1 IH]; intros w; cbn; [done|].
  destruct (fire e w); cbn; [apply IH|done].
Qed.

Lemma run_invariant (P : World → Prop) :
  (∀ e w w', P w → fire e w = Some w' → P w') →
  ∀ es w w', P w → run es w = Some w' → P w'.
Proof.
  intros Hstep es. induction es as [|e es IH]; intros w w' HP Hrun; cbn in Hrun.
  - by simplify_eq.
  - destruct (fire e w) as [w1|] eqn:Hf; [|done]. cbn in Hrun. eauto.
Qed.

(** A resumption leaves the clock, the client and the configuration alone,
    and the only coroutines it adds to the loop are expiries. *)
Lemma resume_frame t w t' w' :
  resume t w = Some (t', w') →
  clock w' = clock w ∧ _client (mgr w') = _client (mgr w) ∧ config w' = config w ∧
  ∃ sp, tasks w' = tasks w ++ sp ∧ Forall is_expiry sp.
Proof.
  intros H. each_task t; cbn -[String.append] in H; run_all;
    repeat (case_match; simplify_eq/=; try done);
    (split_and!; try done);
    first [ by exists []; rewrite app_nil_r
          | by eexists [_]; split; [done|repeat constructor] ].
Qed.

Lemma fire_frame e w w' :
  fire e w = Some w' →
  clock w ≤ clock w' ∧ _client (mgr w') = _client (mgr w) ∧ config w' = config w.
Proof.
  intros Hf. destruct e as [c|i|d|st up]; cbn in Hf.
  - by simplify_eq.
  - destruct (tasks w !! i) as [t|]; [|done]. cbn in Hf.
    destruct (resume t w) as [[t' w1]|] eqn:Hr; [|done]. cbn in Hf. simplify_eq.
    destruct (resume_frame _ _ _ _ Hr) as (Hcl & ? & ? & _). cbn. rewrite Hcl. done.
  - destruct (Z.ltb_spec 0 d); cbn in Hf; [|done].
    destruct (idle_for d w); [|done]. simplify_eq. cbn. split_and!; try done. lia.
  - by simplify_eq.
Qed.

Lemma run_clock_mono es : ∀ w w', run es w = Some w' → clock w ≤ clock w'.
Proof.
  induction es as [|e es IH]; intros w w' Hrun; cbn in Hrun.
  - simplify_eq. lia.
  - destruct (fire e w) as [w1|] eqn:Hf; [|done]. cbn in Hrun.
    apply fire_frame in Hf as [? _]. apply IH in Hrun. lia.
Qed.

Lemma run_client es w w' : run es w = Some w' → _client (mgr w') = _client (mgr w).
Proof.
  intros Hrun.
  eapply (run_invariant (λ w1, _client (mgr w1) = _client (mgr w))); [|done|exact Hrun].
  intros e w1 w2 H1 Hf. by apply fire_frame in Hf as (_ & -> & _).
Qed.

(** What makes a coroutine runnable: its sleep is over and, where it is
    about to enter the guard, the guard is free. *)
Lemma runnable_spec t w :
  runnable t w =
    match t with
    | AcquireRemoteSleep _ _ _ _ _ wk | AcquireLocalSleep _ _ _ _ _ wk
    | AutoExpireLocalCache _ wk => bool_decide (wk ≤ clock w)
    | AutoReleaseLocalLock _ wk => bool_decide (wk ≤ clock w) && negb (_local_lock (mgr w))
    | DecrementReset _ => true
    | Pending _ => if _client (mgr w) is Some _ then true else negb (_local_lock (mgr w))
    | Done _ => false
    end.
Proof.
  unfold runnable.
  each_task t; cbn -[String.append]; run_all;
    unfold Server.set_nx_ex, Server.eval_release, Server.del in *;
    repeat (case_match; simplify_eq/=; try done);
    repeat match goal with
           | |- context [bool_decide (is_Some (Some ?x))] =>
               rewrite (bool_decide_eq_true_2 (is_Some (Some x))) by by eexists
           | |- context [bool_decide (is_Some None)] =>
               rewrite (bool_decide_eq_false_2 (is_Some (@None (task * World))))
                 by by intros [? ?]
           | H : (_ <? _) = true |- _ => apply Z.ltb_lt in H
           | H : (_ <? _) = false |- _ => apply Z.ltb_ge in H
           end;
    cbn; try done;
    try (rewrite bool_decide_eq_true_2 by done; done);
    try (rewrite bool_decide_eq_false_2 by lia; done).
Qed.

(** [idle_for d w] says what it should: during the next [d] milliseconds no
    coroutine becomes runnable. *)
Lemma idle_for_spec d w d' t :
  idle_for d w = true → 0 ≤ d' < d → t ∈ tasks w →
  runnable t (set_clock (clock w + d') w) = false.
Proof.
  unfold idle_for. rewrite forallb_forall. intros Hidle Hd Ht.
  specialize (Hidle t (proj1 (list_elem_of_In _ _) Ht)).
  apply negb_true_iff in Hidle. revert Hidle. rewrite !runnable_spec.
  destruct t as [??????|??????|??|??|?|?|?]; cbn; try done;
    repeat case_bool_decide; try done; lia.
Qed.

Lemma sleeper_runnable t w st wt wk :
  acquire_sleep t = Some (st, wt, wk) → wk ≤ clock w → is_Some (resume t w).
Proof.
  intros Hs Hwk.
  assert (runnable t w = true) as Hr.
  { rewrite runnable_spec. destruct t; try done; cbn in Hs; simplify_eq;
      by rewrite bool_decide_eq_true_2. }
  by apply bool_decide_eq_true_1 in Hr.
Qed.

Lemma pending_blocked c w :
  _client (mgr w) = None → _local_lock (mgr w) = true → resume (Pending c) w = None.
Proof.
  intros Hc Hg. destruct c; cbn -[String.append]; run_all; by rewrite Hc, Hg.
Qed.

Lemma resume_sleeper lk v to wt st wk w t' w' :
  is_Some (_local_locks (mgr w) !! lk) →
  resume (AcquireLocalSleep lk v to wt st wk) w = Some (t', w') →
  wk ≤ clock w ∧
  ((wt ≤ clock w - st ∧ t' = Done (Returned PNone) ∧
    w' = set_mgr (set_local_lock false (mgr w)) w) ∨
   (clock w - st < wt ∧ t' = AcquireLocalSleep lk v to wt st (clock w + 100) ∧ w' = w)).
Proof.
  intros Hk H. cbn -[String.append] in H.
  destruct (Z.ltb_spec (clock w) wk); [done|]. split; [done|].
  run_all. destruct (Z.leb_spec wt (clock w - st)); cbn in H.
  - left. by simplify_eq.
  - right. rewrite bool_decide_eq_true_2 in H by done. by simplify_eq.
Qed.

Lemma resume_other_guarded t w t' w' :
  local_sleeper t = None → _local_lock (mgr w) = true →
  resume t w = Some (t', w') →
  local_sleeper t' = None ∧
  _local_lock (mgr w') = true ∧ _local_locks (mgr w') = _local_locks (mgr w).
Proof.
  intros Hs Hg H. each_task t; try done; cbn -[String.append] in H; run_all;
    rewrite ?Hg in H; repeat (case_match; simplify_eq/=; try done).
Qed.

Lemma resume_other_free t w t' w' :
  local_sleeper t = None → _local_lock (mgr w) = false →
  resume t w = Some (t', w') →
  (local_sleeper t' = None ∧ _local_lock (mgr w') = false) ∨
  (∃ lk, local_sleeper t' = Some lk ∧ _local_lock (mgr w') = true ∧
         is_Some (_local_locks (mgr w') !! lk)).
Proof.
  intros Hs Hg H. each_task t; try done; cbn -[String.append] in H; run_all;
    rewrite ?Hg in H; repeat (case_match; simplify_eq/=; try done);
    try (by left); right; eexists; split_and!; try done;
    by eapply bool_decide_eq_true_1.
Qed.

Lemma resume_sleep_origin t w t' w' st wt wk' :
  resume t w = Some (t', w') → acquire_sleep t' = Some (st, wt, wk') →
  wk' = clock w + 100 ∧
  ((acquire_sleep t = None ∧ st = clock w) ∨
   (∃ wk, acquire_sleep t = Some (st, wt, wk) ∧ wk ≤ clock w ∧ clock w - st < wt)).
Proof.
  intros H Hs. each_task t; cbn -[String.append] in H; run_all;
    repeat (case_match; simplify_eq/=; try done);
    (split; [done|]); first [ by left | right; eexists; split_and!; [done|lia..] ].
Qed.

(** ** The guard of the fallback wait loop *)

Lemma is_expiry_not_sleeper t : is_expiry t → local_sleeper t = None ∧ acquire_sleep t = None.
Proof. by destruct t. Qed.

Lemma lookup_resumed (l sp : list task) i j t' t :
  (<[i := t']> (l ++ sp)) !! j = Some t →
  Forall is_expiry sp →
  is_Some (local_sleeper t) ∨ is_Some (acquire_sleep t) →
  (j = i ∧ t = t') ∨ (j ≠ i ∧ l !! j = Some t).
Proof.
  intros Hl Hsp Hs.
  destruct (decide (j = i)) as [->|Hne].
  - left. split; [done|].
    apply list_lookup_insert_Some in Hl as [(_ & -> & _)|[? _]]; done.
  - right. split; [done|].
    rewrite list_lookup_insert_ne in Hl by done.
    apply lookup_app_Some in Hl as [Hl|[_ Hl]]; [done|].
    apply list_elem_of_lookup_2 in Hl.
    rewrite Forall_forall in Hsp. apply Hsp, is_expiry_not_sleeper in Hl as [Hl1 Hl2].
    rewrite Hl1, Hl2 in Hs. by destruct Hs as [[? ?]|[? ?]].
Qed.

Lemma guard_inv_no_tasks w : tasks w = [] → guard_inv w.
Proof. intros Ht i t lk Hi. by rewrite Ht in Hi. Qed.

Lemma guard_inv_fire e w w' : guard_inv w → fire e w = Some w' → guard_inv w'.
Proof.
  intros Hinv Hf. destruct e as [c|i|d|st up]; cbn in Hf.
  - simplify_eq. intros j t lk Hj Hs. cbn in *.
    assert (∀ j t, (tasks w ++ [Pending c]) !! j = Some t → is_Some (local_sleeper t) →
                   tasks w !! j = Some t) as Hold.
    { intros j' t'' Hl Hs'. apply lookup_app_Some in Hl as [Hl|[_ Hl]]; [done|].
      apply list_lookup_singleton_Some in Hl as [_ <-]. by destruct Hs'. }
    apply Hold in Hj; [|by rewrite Hs].
    destruct (Hinv j t lk Hj Hs) as (Hg & Hk & Hu). split_and!; try done.
    intros j' t'' Hj' Hs'. apply Hold in Hj'; eauto.
  - destruct (tasks w !! i) as [t|] eqn:Hi; [|done]. cbn in Hf.
    destruct (resume t w) as [[t' w1]|] eqn:Hr; [|done]. cbn in Hf. simplify_eq.
    destruct (resume_frame _ _ _ _ Hr) as (_ & _ & _ & sp & Hsp & Hnos).
    destruct (local_sleeper t) as [lk|] eqn:Hst.
    + (* the sleeper itself wakes up *)
      destruct (Hinv i t lk Hi Hst) as (Hg & Hk & Hu).
      destruct t; try done. cbn in Hst. simplify_eq.
      apply resume_sleeper in Hr as [_ [(_ & -> & ->)|(_ & -> & ->)]]; [| |done].
      * intros j t lk' Hj Hs. cbn in *.
        assert (j ≠ i) as Hne.
        { intros ->. apply list_lookup_insert_Some in Hj as [(_ & <- & _)|[? _]]; done. }
        rewrite list_lookup_insert_ne in Hj by done.
        specialize (Hu j t Hj). rewrite Hs in Hu. destruct Hne. by apply Hu.
      * intros j t lk' Hj Hs. cbn in *.
        assert (j = i) as ->.
        { destruct (decide (j = i)) as [|Hne]; [done|].
          rewrite list_lookup_insert_ne in Hj by done.
          apply (Hu j t Hj). by rewrite Hs. }
        apply list_lookup_insert_Some in Hj as [(_ & <- & _)|[? _]]; [|done].
        cbn in Hs. simplify_eq. split_and!; try done.
        intros j t' Hj Hs'.
        destruct (decide (j = i)) as [|Hne]; [done|].
        rewrite list_lookup_insert_ne in Hj by done. by apply (Hu j t' Hj).
    + destruct (_local_lock (mgr w)) eqn:Hg.
      * (* another coroutine holds the guard *)
        destruct (resume_other_guarded _ _ _ _ Hst Hg Hr) as (Hst' & Hg' & Hl').
        intros j t'' lk Hj Hs. cbn in *. rewrite Hsp in Hj.
        apply lookup_resumed in Hj as [[-> ->]|[Hne Hj]];
          [congruence| |done|by left; rewrite Hs].
        destruct (Hinv j t'' lk Hj Hs) as (_ & Hk & Hu). rewrite Hl'.
        split_and!; try done.
        intros j' t3 Hj' Hs'. rewrite Hsp in Hj'.
        apply lookup_resumed in Hj' as [[-> ->]|[Hne' Hj']]; [|by eauto|done|by left].
        rewrite Hst' in Hs'. by destruct Hs'.
      * (* the guard is free: nobody sleeps in the loop *)
        assert (∀ j t, tasks w !! j = Some t → local_sleeper t = None) as Hnone.
        { intros j t'' Hj. destruct (local_sleeper t'') eqn:Hs; [|done].
          destruct (Hinv j t'' _ Hj Hs) as (? & _). congruence. }
        intros j t'' lk Hj Hs. cbn in *. rewrite Hsp in Hj.
        apply lookup_resumed in Hj as [[-> ->]|[Hne Hj]]; [| |done|by left; rewrite Hs].
        2:{ apply Hnone in Hj. congruence. }
        destruct (resume_other_free _ _ _ _ Hst Hg Hr) as [[Hst' _]|(lk' & Hst' & Hg' & Hk')];
          [congruence|].
        simplify_eq. split_and!; try done.
        intros j t3 Hj Hs'. rewrite Hsp in Hj.
        apply lookup_resumed in Hj as [[-> ->]|[Hne Hj]]; [done| |done|by left].
        apply Hnone in Hj. rewrite Hj in Hs'. by destruct Hs'.
  - destruct (_ && _); [|done]. simplify_eq. exact Hinv.
  - simplify_eq. exact Hinv.
Qed.

Lemma guard_inv_run es w w' : guard_inv w → run es w = Some w' → guard_inv w'.
Proof. apply run_invariant. intros e. apply guard_inv_fire. Qed.

(** X10.  In the fallback, while a coroutine sleeps in the wait loop of
    [acquire_lock]: no release, no expiry and no other acquire can run, and
    the sleeper itself can only go back to sleep or give up.  It never
    returns a token. *)
Lemma fallback_wait_is_futile es w0 w i lk v to wt st wk :
  tasks w0 = [] → _client (mgr w0) = None →
  run es w0 = Some w →
  tasks w !! i = Some (AcquireLocalSleep lk v to wt st wk) →
  (∀ c, resume (Pending c) w = None) ∧
  (∀ key wake, resume (AutoReleaseLocalLock key wake) w = None) ∧
  (∀ t' w', resume (AcquireLocalSleep lk v to wt st wk) w = Some (t', w') →
     (t' = Done (Returned PNone) ∧ wt ≤ clock w - st) ∨
     (t' = AcquireLocalSleep lk v to wt st (clock w + 100) ∧ w' = w)).
Proof.
  intros Ht0 Hc0 Hrun Hi.
  assert (guard_inv w) as Hinv by (eapply guard_inv_run; [by apply guard_inv_no_tasks|done]).
  assert (_client (mgr w) = None) as Hc by (by rewrite (run_client _ _ _ Hrun)).
  destruct (Hinv i _ lk Hi eq_refl) as (Hg & Hk & _).
  split_and!.
  - intros c. by apply pending_blocked.
  - intros key wake. by apply auto_release_blocked.
  - intros t' w' Hr. apply resume_sleeper in Hr as [_ [(? & -> & _)|(_ & -> & ->)]]; auto.
Qed.

(** While a coroutine sleeps in the fallback wait loop, with its deadline
    still ahead, a lock call made in the meantime stays where it is: at
    [async with self._local_lock]. *)
Lemma pending_starves es : ∀ w w' i j lk v to wt st wk c,
  guard_inv w → _client (mgr w) = None →
  tasks w !! i = Some (AcquireLocalSleep lk v to wt st wk) →
  tasks w !! j = Some (Pending c) →
  run es w = Some w' → clock w' < st + wt →
  tasks w' !! j = Some (Pending c) ∧
  ∃ wk', tasks w' !! i = Some (AcquireLocalSleep lk v to wt st wk').
Proof.
  induction es as [|e es IH]; intros w w' i j lk v to wt st wk c Hinv Hc Hi Hj Hrun Ht;
    cbn in Hrun.
  - simplify_eq. eauto.
  - destruct (fire e w) as [w1|] eqn:Hf; [|done]. cbn in Hrun.
    pose proof (run_clock_mono _ _ _ Hrun) as Hmono.
    pose proof (guard_inv_fire _ _ _ Hinv Hf) as Hinv1.
    pose proof (fire_frame _ _ _ Hf) as (Hcl & Hc1 & _). rewrite Hc in Hc1.
    destruct (Hinv i _ lk Hi eq_refl) as (Hg & Hk & _).
    assert (i ≠ j) as Hij by (intros ->; congruence).
    assert (tasks w1 !! j = Some (Pending c) ∧
            ∃ wk1, tasks w1 !! i = Some (AcquireLocalSleep lk v to wt st wk1))
      as [Hj1 [wk1 Hi1]].
    { destruct e as [c'|k|d|s up]; cbn in Hf.
      - simplify_eq. cbn. rewrite !lookup_app_l by by eapply lookup_lt_Some. eauto.
      - destruct (tasks w !! k) as [t|] eqn:Hk'; [|done]. cbn in Hf.
        destruct (resume t w) as [[t' w2]|] eqn:Hr; [|done]. cbn in Hf. simplify_eq.
        destruct (resume_frame _ _ _ _ Hr) as (_ & _ & _ & sp & Hsp & _). cbn in *.
        rewrite Hsp.
        destruct (decide (k = j)) as [->|Hkj].
        { simplify_eq. by rewrite pending_blocked in Hr. }
        rewrite list_lookup_insert_ne by done.
        rewrite (lookup_app_l _ _ j) by by eapply lookup_lt_Some.
        split; [done|].
        destruct (decide (k = i)) as [->|Hki].
        + simplify_eq.
          apply resume_sleeper in Hr as [_ [(? & _)|(_ & -> & ->)]]; [lia| |done].
          rewrite list_lookup_insert_eq; [eauto|].
          rewrite length_app. apply lookup_lt_Some in Hi. lia.
        + rewrite list_lookup_insert_ne by done.
          rewrite lookup_app_l by by eapply lookup_lt_Some. eauto.
      - destruct (_ && _); [|done]. simplify_eq. cbn. eauto.
      - simplify_eq. cbn. eauto. }
    eapply IH; eauto.
Qed.

(** ** The bound of the wait loops *)

Lemma wait_inv_fire e w w' : wait_inv w → fire e w = Some w' → wait_inv w'.
Proof.
  intros Hinv Hf. destruct e as [c|i|d|s up]; cbn in Hf.
  - simplify_eq. intros j t st wt wk Hj Hs. cbn in *.
    apply lookup_app_Some in Hj as [Hj|[_ Hj]]; [by eapply Hinv|].
    apply list_lookup_singleton_Some in Hj as [_ <-]. done.
  - destruct (tasks w !! i) as [t|] eqn:Hi; [|done]. cbn in Hf.
    destruct (resume t w) as [[t' w1]|] eqn:Hr; [|done]. cbn in Hf. simplify_eq.
    destruct (resume_frame _ _ _ _ Hr) as (Hclk & _ & _ & sp & Hsp & Hnos).
    intros j t'' st wt wk Hj Hs. cbn in *. rewrite Hclk. rewrite Hsp in Hj.
    apply lookup_resumed in Hj as [[-> ->]|[Hne Hj]]; [| |done|by right; rewrite Hs].
    + destruct (resume_sleep_origin _ _ _ _ _ _ _ Hr Hs) as [-> [[_ ->]|(wk0 & Hs0 & ? & ?)]];
        [lia|].
      destruct (Hinv i t st wt wk0 Hi Hs0) as (? & ? & ?). lia.
    + by eapply Hinv.
  - destruct (Z.ltb_spec 0 d); cbn in Hf; [|done].
    destruct (idle_for d w) eqn:Hidle; [|done]. simplify_eq.
    intros j t st wt wk Hj Hs. cbn in *.
    destruct (Hinv j t st wt wk Hj Hs) as (? & ? & ?). split_and!; try done.
    destruct (decide (wk ≤ clock w + (d - 1))) as [Hle|]; [|lia].
    pose proof (idle_for_spec d w (d - 1) t Hidle) as Hnot.
    rewrite runnable_spec in Hnot.
    assert (bool_decide (wk ≤ clock (set_clock (clock w + (d - 1)) w)) = false) as Hb.
    { destruct t; try done; cbn in Hs; simplify_eq;
        apply Hnot; [lia|by eapply list_elem_of_lookup_2|lia|by eapply list_elem_of_lookup_2]. }
    apply bool_decide_eq_false_1 in Hb. cbn in Hb. lia.
  - simplify_eq. exact Hinv.
Qed.

(** X11.  In either backend, a coroutine that sleeps in a wait loop of
    [acquire_lock] entered at [start_time] is due no later than
    [start_time + wait_timeout + 100]; the clock never runs past the instant
    it is due, and at that instant it can run. *)
Lemma wait_loop_bounded es w0 w i t st wt wk :
  tasks w0 = [] → run es w0 = Some w →
  tasks w !! i = Some t → acquire_sleep t = Some (st, wt, wk) →
  clock w ≤ wk ∧ wk ≤ st + Z.max wt 0 + 100 ∧
  (wk ≤ clock w → is_Some (resume t w)).
Proof.
  intros Ht0 Hrun Hi Hs.
  assert (wait_inv w) as Hinv.
  { eapply (run_invariant wait_inv); [apply wait_inv_fire| |exact Hrun].
    intros j t' ?????. by rewrite Ht0 in *. }
  destruct (Hinv i t st wt wk Hi Hs) as (? & ? & ?).
  split_and!; try done. intros. by eapply sleeper_runnable.
Qed.

(** ** The fallback wait loop on concrete schedules *)

(** C2 at its failing input.  Fallback backend.  A holds ["job:42"] with a
    [ttl] of one second; B calls [acquire_lock] with [blocking=True] and a
    wait timeout of five seconds and goes to sleep in the wait loop; A calls
    [release_lock] at once.  That release cannot run, nor can the expiry at
    1 s: B holds [_local_lock] while it sleeps.  B polls every 100 ms and at
    5 s returns [None]; the lock record of A is still there. *)
Theorem fallback_waiter_misses_release_and_expiry :
  ∃ w1 w2,
    run waiting_run (boot cfg_off) = Some w1 ∧
    tasks w1 = [ Done (Returned (PStr "token-A"));
                 AutoReleaseLocalLock "lock:job:42" 1000;
                 AcquireLocalSleep "lock:job:42" "token-B" 1 5000 0 100;
                 Pending (ReleaseLock "job:42" "token-A") ] ∧
    fire (Resume 3%nat) w1 = None ∧
    run (polls 50 2) w1 = Some w2 ∧
    clock w2 = 5000 ∧
    tasks w2 = [ Done (Returned (PStr "token-A"));
                 AutoReleaseLocalLock "lock:job:42" 1000;
                 Done (Returned PNone);
                 Pending (ReleaseLock "job:42" "token-A") ] ∧
    stored_token "job:42" w2 = Some "token-A".
Proof.
  eexists _, _. split; [vm_compute; reflexivity|].
  split; [reflexivity|]. split; [reflexivity|].
  split; [vm_compute; reflexivity|]. split_and!; reflexivity.
Qed.

(** The same two callers against the remote backend: B takes the lock at
    its first poll after A's release. *)
Example remote_waiter_gets_released_lock :
  ∃ w,
    run [ Start (AcquireLock "job:42" "token-A" (Some 1) false None); Resume 0%nat;
          Start (AcquireLock "job:42" "token-B" (Some 1) true (Some 5000)); Resume 1%nat;
          Start (ReleaseLock "job:42" "token-A"); Resume 2%nat;
          Advance 100; Resume 1%nat ]
        remote_world = Some w ∧
    clock w = 100 ∧
    tasks w = [ Done (Returned (PStr "token-A")); Done (Returned (PStr "token-B"));
                Done (Returned (PBool true)) ] ∧
    stored_token "job:42" w = Some "token-B".
Proof. eexists. split; [vm_compute; reflexivity|]. split_and!; reflexivity. Qed.

(** C3 at its failing input.  Fallback backend.  The expiry scheduled by an
    acquisition that was released long ago removes the record of the next
    holder: ["t1"] was acquired at 1 s with a [ttl] of two seconds and never
    released, its own expiry is still pending, and yet at 2.5 s a
    non-blocking [acquire_lock] of another caller returns a token. *)
Theorem stale_expiry_breaks_mutual_exclusion :
  ∃ w,
    run stale_expiry_run (boot cfg_off) = Some w ∧
    clock w = 2500 ∧
    tasks w = [ Done (Returned (PStr "t0"));
                Done (Returned PNone);
                Done (Returned (PBool true));
                Done (Returned (PStr "t1"));
                AutoReleaseLocalLock "lock:job:42" 3000;
                Done (Returned (PStr "t2"));
                AutoReleaseLocalLock "lock:job:42" 4500 ] ∧
    stored_token "job:42" w = Some "t2".
Proof. eexists. split; [vm_compute; reflexivity|]. split_and!; reflexivity. Qed.

(** The same callers against the remote backend: the server ties the
    expiry to the record, and the third caller gets [None]. *)
Example remote_expiry_is_per_record :
  ∃ w,
    run [ Start (AcquireLock "job:42" "t0" (Some 2) false None); Resume 0%nat;
          Advance 500;
          Start (ReleaseLock "job:42" "t0"); Resume 1%nat;
          Advance 500;
          Start (AcquireLock "job:42" "t1" (Some 2) false None); Resume 2%nat;
          Advance 1500;
          Start (AcquireLock "job:42" "t2" (Some 2) false None); Resume 3%nat ]
        remote_world = Some w ∧
    clock w = 2500 ∧
    tasks w = [ Done (Returned (PStr "t0")); Done (Returned (PBool true));
                Done (Returned (PStr "t1")); Done (Returned PNone) ] ∧
    stored_token "job:42" w = Some "t1".
Proof. eexists. split; [vm_compute; reflexivity|]. split_and!; reflexivity. Qed.

(** C4 at its failing input.  Fallback backend.  A holds ["job:42"]; B and
    C both call [acquire_lock] with [blocking=True] at instant 0, B with a
    wait timeout of 5 s and C with one of 1 s.  B sleeps in the wait loop
    holding [_local_lock]; C cannot even enter [async with] until B gives
    up at 5 s, then starts its own wait, and returns [None] at 6 s. *)
Theorem fallback_wait_exceeds_wait_timeout :
  ∃ w1 w2 w3,
    run contended_run (boot cfg_off) = Some w1 ∧
    clock w1 = 0 ∧
    tasks w1 !! 3%nat
      = Some (Pending (AcquireLock "job:42" "token-C" (Some 60) true (Some 1000))) ∧
    fire (Resume 3%nat) w1 = None ∧
    run (polls 50 2) w1 = Some w2 ∧
    clock w2 = 5000 ∧
    tasks w2 !! 2%nat = Some (Done (Returned PNone)) ∧
    tasks w2 !! 3%nat
      = Some (Pending (AcquireLock "job:42" "token-C" (Some 60) true (Some 1000))) ∧
    run (Resume 3%nat :: polls 10 3) w2 = Some w3 ∧
    clock w3 = 6000 ∧
    tasks w3 !! 3%nat = Some (Done (Returned PNone)).
Proof.
  eexists _, _, _. split; [vm_compute; reflexivity|].
  do 3 (split; [reflexivity|]).
  split; [vm_compute; reflexivity|].
  do 3 (split; [reflexivity|]).
  split; [vm_compute; reflexivity|]. split; reflexivity.
Qed.

(** Whatever the event loop does after [contended_run], C's call has not
    moved at any instant before 5 s. *)
Lemma contended_call_starves es w' :
  (w1 ← run contended_run (boot cfg_off); run es w1) = Some w' →
  clock w' < 5000 →
  tasks w' !! 3%nat
    = Some (Pending (AcquireLock "job:42" "token-C" (Some 60) true (Some 1000))).
Proof.
  destruct (run contended_run (boot cfg_off)) as [w1|] eqn:H1; [|done]. cbn.
  intros Hrun Ht.
  assert (guard_inv w1) as Hinv.
  { eapply guard_inv_run; [|exact H1]. by apply guard_inv_no_tasks. }
  vm_compute in H1. simplify_eq.
  eapply (pending_starves es _ w' 2 3) in Hrun as [? _]; try done.
Qed.

(** While a coroutine sleeps in the fallback wait loop, with its deadline
    still ahead, the lock dictionary does not change: no record is
    released, none expires, none is added. *)
Lemma records_frozen_while_waiting es : ∀ w w' i lk v to wt st wk,
  guard_inv w → _client (mgr w) = None →
  tasks w !! i = Some (AcquireLocalSleep lk v to wt st wk) →
  run es w = Some w' → clock w' < st + wt →
  _local_locks (mgr w') = _local_locks (mgr w) ∧
  ∃ wk', tasks w' !! i = Some (AcquireLocalSleep lk v to wt st wk').
Proof.
  induction es as [|e es IH]; intros w w' i lk v to wt st wk Hinv Hc Hi Hrun Ht;
    cbn in Hrun.
  - simplify_eq. eauto.
  - destruct (fire e w) as [w1|] eqn:Hf; [|done]. cbn in Hrun.
    pose proof (run_clock_mono _ _ _ Hrun) as Hmono.
    pose proof (guard_inv_fire _ _ _ Hinv Hf) as Hinv1.
    pose proof (fire_frame _ _ _ Hf) as (Hcl & Hc1 & _). rewrite Hc in Hc1.
    destruct (Hinv i _ lk Hi eq_refl) as (Hg & Hk & Hu).
    assert (_local_locks (mgr w1) = _local_locks (mgr w) ∧
            ∃ wk1, tasks w1 !! i = Some (AcquireLocalSleep lk v to wt st wk1))
      as [Hl1 [wk1 Hi1]].
    { destruct e as [c'|k|d|s up]; cbn in Hf.
      - simplify_eq. cbn. rewrite !lookup_app_l by by eapply lookup_lt_Some. eauto.
      - destruct (tasks w !! k) as [t|] eqn:Hk'; [|done]. cbn in Hf.
        destruct (resume t w) as [[t' w2]|] eqn:Hr; [|done]. cbn in Hf. simplify_eq.
        destruct (resume_frame _ _ _ _ Hr) as (_ & _ & _ & sp & Hsp & _). cbn in *.
        rewrite Hsp.
        destruct (decide (k = i)) as [->|Hki].
        + simplify_eq.
          apply resume_sleeper in Hr as [_ [(? & _)|(_ & -> & ->)]]; [lia| |done].
          split; [done|]. rewrite list_lookup_insert_eq; [eauto|].
          rewrite length_app. apply lookup_lt_Some in Hi. lia.
        + assert (local_sleeper t = None) as Hst.
          { destruct (local_sleeper t) eqn:E; [|done].
            destruct Hki. apply (Hu k t Hk'). by rewrite E. }
          destruct (resume_other_guarded _ _ _ _ Hst Hg Hr) as (_ & _ & Hl').
          split; [done|]. rewrite list_lookup_insert_ne by done.
          rewrite lookup_app_l by by eapply lookup_lt_Some. eauto.
      - destruct (_ && _); [|done]. simplify_eq. cbn. eauto.
      - simplify_eq. cbn. eauto. }
    destruct (IH w1 w' i lk v to wt st wk1 Hinv1 Hc1 Hi1 Hrun Ht) as [Hl' Hi'].
    split; [congruence|done].
Qed.

(** C7 at its failing input.  Fallback backend.  A acquires ["job:42"] with
    a [ttl] of one second and never releases it; B calls [acquire_lock]
    with [blocking=True] and a wait timeout of five seconds and sleeps in
    the wait loop, holding [_local_lock].  At 2 s, one second after the
    [ttl] has elapsed, the record of A is still there: the expiry is due
    but cannot enter the guard, and the [acquire_lock] of a new caller C
    cannot start.  Whatever the event loop does, the record stays until
    5 s.  Only when B has given up does the expiry run, four seconds late,
    and C gets the lock. *)
Theorem fallback_lock_outlives_ttl :
  ∃ w1 w2 w3,
    run unreleased_run (boot cfg_off) = Some w1 ∧
    clock w1 = 2000 ∧
    tasks w1 = [ Done (Returned (PStr "token-A"));
                 AutoReleaseLocalLock "lock:job:42" 1000;
                 AcquireLocalSleep "lock:job:42" "token-B" 1 5000 0 2100;
                 Pending (AcquireLock "job:42" "token-C" (Some 1) false None) ] ∧
    stored_token "job:42" w1 = Some "token-A" ∧
    fire (Resume 1%nat) w1 = None ∧
    fire (Resume 3%nat) w1 = None ∧
    (∀ es w', run es w1 = Some w' → clock w' < 5000 →
       stored_token "job:42" w' = Some "token-A") ∧
    run (polls 30 2) w1 = Some w2 ∧
    clock w2 = 5000 ∧
    tasks w2 !! 2%nat = Some (Done (Returned PNone)) ∧
    stored_token "job:42" w2 = Some "token-A" ∧
    run [Resume 1%nat; Resume 3%nat] w2 = Some w3 ∧
    tasks w3 !! 3%nat = Some (Done (Returned (PStr "token-C"))) ∧
    stored_token "job:42" w3 = Some "token-C".
Proof.
  assert (∃ w1, run unreleased_run (boot cfg_off) = Some w1) as [w1 H1]
    by (eexists; vm_compute; reflexivity).
  assert (guard_inv w1) as Hinv.
  { eapply guard_inv_run; [|exact H1]. by apply guard_inv_no_tasks. }
  vm_compute in H1. simplify_eq.
  eexists _, _, _. split; [vm_compute; reflexivity|].
  do 5 (split; [reflexivity|]).
  split.
  { intros es w' Hrun Ht.
    pose proof (run_client _ _ _ Hrun) as Hc.
    eapply (records_frozen_while_waiting es _ w' 2) in Hrun as [Hl _]; try done.
    unfold stored_token. rewrite Hc, Hl. reflexivity. }
  split; [vm_compute; reflexivity|].
  do 3 (split; [reflexivity|]).
  split; [vm_compute; reflexivity|]. split; reflexivity.
Qed.

(** ** Lifecycle, continued *)

Lemma close_returns w :
  close w =
    (Returned (),
     set_mgr (set_initialized false (set_client None (mgr w))) w).
Proof.
  unfold close. run_m. destruct (_client (mgr w)) eqn:Hc; cbn; f_equal; world_eq.
Qed.

(** X1.  [close] followed by [initialize] works from every state of the
    manager: [close] drops the connection and the initialized flag and
    keeps the fallback dictionaries; the [initialize] after it returns
    [True] exactly when it reaches the server, and [is_connected] is then
    what it returned. *)
Theorem close_then_initialize w :
  ∃ w1 w2,
    close w = (Returned (), w1) ∧
    is_connected (mgr w1) = false ∧ _initialized (mgr w1) = false ∧
    _local_locks (mgr w1) = _local_locks (mgr w) ∧
    _local_cache (mgr w1) = _local_cache (mgr w) ∧
    initialize w1 = (Returned (connects w), w2) ∧
    is_connected (mgr w2) = connects w ∧ _initialized (mgr w2) = true ∧
    _local_locks (mgr w2) = _local_locks (mgr w) ∧
    _local_cache (mgr w2) = _local_cache (mgr w).
Proof.
  rewrite close_returns.
  destruct w as [m [en ? ? ? ? ?] ? ? md up ?].
  unfold initialize, connects, import_redis, ping, is_connected. run_m.
  destruct en, md, up; cbn; eexists _, _; split_and!; done.
Qed.

(** X3.  While the server does not answer, every call of a connected
    manager raises and changes nothing, [release_lock] apart (and
    [release_token_lock], which goes through it): its [try]/[except] turns
    the failure into [False]. *)
Theorem remote_failure_propagates w c :
  _client (mgr w) = Some c → link w = false →
  (∀ key lock_value timeout blocking wait_timeout,
     acquire_lock key lock_value timeout blocking wait_timeout w
       = (Raised ConnectionError, w)) ∧
  (∀ key, is_locked key w = (Raised ConnectionError, w)) ∧
  (∀ key, get key w = (Raised ConnectionError, w)) ∧
  (∀ key value ex, set key value ex w = (Raised ConnectionError, w)) ∧
  (∀ key, delete key w = (Raised ConnectionError, w)) ∧
  (∀ key, exists_ key w = (Raised ConnectionError, w)) ∧
  release_cf_lock w = (Raised ConnectionError, w) ∧
  (∀ token_id lock_type,
     get_concurrency token_id lock_type w = (Raised ConnectionError, w) ∧
     increment_concurrency token_id lock_type w = (Raised ConnectionError, w) ∧
     decrement_concurrency token_id lock_type w = (Raised ConnectionError, w)) ∧
  (∀ key lock_value, release_lock key lock_value w = (Returned false, w)) ∧
  (∀ token_id lock_type lock_value,
     release_token_lock token_id lock_type lock_value w = (Returned false, w)).
Proof.
  intros Hc Hl. split_and!; intros;
    try (unfold release_token_lock; by eapply release_lock_link_down);
    unfold acquire_lock, acquire_lock_remote_loop, is_locked, get, set, delete, exists_,
      release_cf_lock, get_concurrency, increment_concurrency, decrement_concurrency;
    run_m; by rewrite Hc, Hl.
Qed.

Lemma remote_failure_propagates_witness :
  _client (mgr unreachable_world)
    = Some {| host := "localhost"; port := 6379; password := None; db := 0 |} ∧
  link unreachable_world = false ∧
  (∀ key lock_value timeout blocking wait_timeout,
     acquire_lock key lock_value timeout blocking wait_timeout unreachable_world
       = (Raised ConnectionError, unreachable_world)) ∧
  (∀ key, is_locked key unreachable_world = (Raised ConnectionError, unreachable_world)) ∧
  (∀ key, get key unreachable_world = (Raised ConnectionError, unreachable_world)) ∧
  (∀ key value ex, set key value ex unreachable_world
                   = (Raised ConnectionError, unreachable_world)) ∧
  (∀ key, delete key unreachable_world = (Raised ConnectionError, unreachable_world)) ∧
  (∀ key, exists_ key unreachable_world = (Raised ConnectionError, unreachable_world)) ∧
  release_cf_lock unreachable_world = (Raised ConnectionError, unreachable_world) ∧
  (∀ token_id lock_type,
     get_concurrency token_id lock_type unreachable_world
       = (Raised ConnectionError, unreachable_world) ∧
     increment_concurrency token_id lock_type unreachable_world
       = (Raised ConnectionError, unreachable_world) ∧
     decrement_concurrency token_id lock_type unreachable_world
       = (Raised ConnectionError, unreachable_world)) ∧
  (∀ key lock_value,
     release_lock key lock_value unreachable_world = (Returned false, unreachable_world)) ∧
  (∀ token_id lock_type lock_value,
     release_token_lock token_id lock_type lock_value unreachable_world
       = (Returned false, unreachable_world)).
Proof.
  split; [reflexivity|]. split; [reflexivity|].
  apply (remote_failure_propagates unreachable_world
           {| host := "localhost"; port := 6379; password := None; db := 0 |});
    reflexivity.
Defined.

(** X2.  [initialize] returning [False] does not mean that the fallback is
    in use: with the feature disabled, a manager that holds a connection
    keeps it, [is_connected] stays [True], and the next [acquire_lock]
    records the lock on the server, not in [_local_locks]. *)
Theorem disabled_initialize_stays_remote key lock_value timeout blocking wait_timeout w c :
  redis_enabled (config w) = false → _client (mgr w) = Some c → link w = true →
  0 < py_or timeout (redis_lock_timeout (config w)) →
  stored_token key w = None →
  ∃ w1 w2,
    initialize w = (Returned false, w1) ∧
    is_connected (mgr w1) = true ∧ _initialized (mgr w1) = true ∧
    acquire_lock key lock_value timeout blocking wait_timeout w1
      = (Returned (Return (Some lock_value)), w2) ∧
    _local_locks (mgr w2) = _local_locks (mgr w) ∧
    rvalue <$> rlookup (clock w2) (store w2) ("lock:" +:+ key) = Some lock_value.
Proof.
  intros Hd Hc Hl Ht Hk. unfold stored_token in Hk. rewrite Hc in Hk.
  assert (Hi : initialize w = (Returned false, set_mgr (set_initialized true (mgr w)) w)).
  { unfold initialize. run_m. by rewrite Hd. }
  eexists _, _. split; [exact Hi|].
  split; [unfold is_connected; cbn; rewrite Hc; by apply bool_decide_eq_true_2|]. split; [done|].
  split.
  { eapply acquire_lock_remote_free; cbn; try done. by destruct (rlookup _ _ _). }
  split; [done|]. cbn -[String.append rlookup]. rewrite rlookup_insert. unfold alive. cbn.
  by rewrite (proj2 (Z.ltb_lt _ _)) by lia.
Qed.

Lemma disabled_initialize_stays_remote_witness :
  redis_enabled (config switched_off_world) = false ∧
  _client (mgr switched_off_world)
    = Some {| host := "localhost"; port := 6379; password := None; db := 0 |} ∧
  link switched_off_world = true ∧
  0 < py_or (Some 2) (redis_lock_timeout (config switched_off_world)) ∧
  stored_token "job:42" switched_off_world = None ∧
  ∃ w1 w2,
    initialize switched_off_world = (Returned false, w1) ∧
    is_connected (mgr w1) = true ∧ _initialized (mgr w1) = true ∧
    acquire_lock "job:42" "token-A" (Some 2) true None w1
      = (Returned (Return (Some "token-A")), w2) ∧
    _local_locks (mgr w2) = _local_locks (mgr switched_off_world) ∧
    rvalue <$> rlookup (clock w2) (store w2) ("lock:" +:+ "job:42") = Some "token-A".
Proof.
  split; [reflexivity|]. split; [reflexivity|]. split; [reflexivity|].
  split; [reflexivity|]. split; [reflexivity|].
  apply (disabled_initialize_stays_remote "job:42" "token-A" (Some 2) true None
           switched_off_world
           {| host := "localhost"; port := 6379; password := None; db := 0 |});
    reflexivity.
Defined.

(** ** Key naming *)

Lemma colon_free_uint d : colon_free (NilEmpty.string_of_uint d) = true.
Proof. induction d; cbn; done. Qed.

Lemma colon_free_str_of_int z : colon_free (str_of_int z) = true.
Proof.
  unfold str_of_int, NilZero.string_of_int, NilZero.string_of_uint.
  destruct (Z.to_int z) as [d|d]; destruct d; cbn; try done; apply colon_free_uint.
Qed.

Lemma str_of_int_inj a b : str_of_int a = str_of_int b → a = b.
Proof.
  intros H. apply (f_equal int_of_str) in H. rewrite !int_of_str_of_int in H.
  by simplify_eq.
Qed.

(** Two strings that agree after a [":"] and have none before it. *)
Lemma colon_split u : ∀ v s t,
  colon_free u = true → colon_free v = true →
  u +:+ ":" +:+ s = v +:+ ":" +:+ t → u = v ∧ s = t.
Proof.
  induction u as [|a u IH]; intros [|b v] s t Hu Hv H; cbn in *.
  - by simplify_eq.
  - by simplify_eq.
  - by simplify_eq.
  - apply andb_true_iff in Hu as [_ Hu]. apply andb_true_iff in Hv as [_ Hv].
    injection H as -> H. destruct (IH v s t Hu Hv H) as [-> ->]. done.
Qed.

Lemma token_key_inj a b s t : token_key a s = token_key b t → a = b ∧ s = t.
Proof.
  unfold token_key. intros H. cbn in H. simplify_eq.
  apply colon_split in H as [H ->]; [|apply colon_free_str_of_int..].
  by apply str_of_int_inj in H as ->.
Qed.

Lemma concurrency_key_inj a b s t :
  concurrency_key a s = concurrency_key b t → a = b ∧ s = t.
Proof.
  unfold concurrency_key. intros H. cbn in H. simplify_eq.
  apply colon_split in H as [H ->]; [|apply colon_free_str_of_int..].
  by apply str_of_int_inj in H as ->.
Qed.

(** X7.  The keys of token locks and of concurrency counters tell their
    [(token_id, lock_type)] pairs apart: two pairs with the same key are
    the same pair.  In the one keyspace of the server the three families
    stay apart: no lock record (of a token or of the refresh lock) shares
    its key with a counter or with the refreshing flag, and no counter is
    the refreshing flag. *)
Theorem key_naming_injective a b s t :
  (token_key a s = token_key b t → a = b ∧ s = t) ∧
  (concurrency_key a s = concurrency_key b t → a = b ∧ s = t) ∧
  (∀ key, "lock:" +:+ key ≠ concurrency_key b t ∧ "lock:" +:+ key ≠ "cf:refreshing") ∧
  concurrency_key a s ≠ "cf:refreshing".
Proof.
  split; [apply token_key_inj|]. split; [apply concurrency_key_inj|].
  unfold concurrency_key. split; [intros key; split|]; intros H; cbn in H; by simplify_eq.
Qed.

(** ** Locks, continued *)

Lemma is_locked_spec key w :
  answering w → is_locked key w = (Returned (locked key w), w).
Proof.
  unfold answering, is_locked, locked, stored_token, Server.exists_. run_m.
  destruct (_client (mgr w)); [|done]. intros ->. cbn -[rlookup].
  destruct (rlookup _ _ _); cbn; f_equal; world_eq.
Qed.

Lemma acquire_lock_serving_free key lock_value timeout blocking wait_timeout w :
  serving w → 0 < py_or timeout (redis_lock_timeout (config w)) →
  stored_token key w = None →
  ∃ w1,
    acquire_lock key lock_value timeout blocking wait_timeout w
      = (Returned (Return (Some lock_value)), w1) ∧
    stored_token key w1 = Some lock_value ∧
    (∀ key', key' ≠ key → stored_token key' w1 = stored_token key' w) ∧
    serving w1 ∧ config w1 = config w ∧ clock w1 = clock w ∧
    _initialized (mgr w1) = _initialized (mgr w) ∧
    _client (mgr w1) = _client (mgr w).
Proof.
  unfold serving, stored_token. destruct (_client (mgr w)) as [c|] eqn:Hc; intros Hs Ht Hk.
  - eexists. split.
    { eapply acquire_lock_remote_free; try done. by destruct (rlookup _ _ _). }
    cbn -[rlookup]. rewrite Hc. split_and!; try done.
    + rewrite rlookup_insert. unfold alive. cbn.
      by rewrite (proj2 (Z.ltb_lt _ _)) by lia.
    + intros key' Hne%lock_key_inj. unfold rlookup. by rewrite lookup_insert_ne.
  - eexists. split; [by apply acquire_lock_local_free|].
    cbn. rewrite Hc. split_and!; try done.
    + by rewrite lookup_insert_eq.
    + intros key' Hne%lock_key_inj. by rewrite lookup_insert_ne.
Qed.

Lemma acquire_lock_serving_held key t1 lock_value timeout wait_timeout w :
  serving w → 0 < py_or timeout (redis_lock_timeout (config w)) →
  stored_token key w = Some t1 →
  acquire_lock key lock_value timeout false wait_timeout w = (Returned (Return None), w).
Proof.
  unfold serving, stored_token. destruct (_client (mgr w)) eqn:Hc; intros Hs Ht Hk.
  - eapply acquire_lock_remote_held; try done.
    destruct (rlookup _ _ _); [by eexists|done].
  - apply acquire_lock_local_held; try done.
Qed.

(** X6.  A token lock goes round: on a free [(token_id, lock_type)],
    [acquire_token_lock] returns a token and [is_token_locked] turns
    [True]; a second [acquire_token_lock] is refused; [release_token_lock]
    with the token returns [True] and [is_token_locked] is [False] again.
    The lock of any other pair is not touched on the way. *)
Theorem token_lock_round_trip token_id lock_type lock_value timeout w :
  serving w → 0 < timeout →
  stored_token (token_key token_id lock_type) w = None →
  ∃ w1 w2,
    acquire_token_lock token_id lock_type lock_value timeout w
      = (Returned (Return (Some lock_value)), w1) ∧
    is_token_locked token_id lock_type w1 = (Returned true, w1) ∧
    (∀ lock_value', acquire_token_lock token_id lock_type lock_value' timeout w1
                    = (Returned (Return None), w1)) ∧
    release_token_lock token_id lock_type lock_value w1 = (Returned true, w2) ∧
    is_token_locked token_id lock_type w2 = (Returned false, w2) ∧
    (∀ token_id' lock_type', (token_id', lock_type') ≠ (token_id, lock_type) →
       stored_token (token_key token_id' lock_type') w1
         = stored_token (token_key token_id' lock_type') w ∧
       stored_token (token_key token_id' lock_type') w2
         = stored_token (token_key token_id' lock_type') w).
Proof.
  intros Hs Ht Hk.
  assert (0 < py_or (Some timeout) (redis_lock_timeout (config w))) as Hto.
  { cbn. destruct (Z.eqb_spec timeout 0); lia. }
  destruct (acquire_lock_serving_free (token_key token_id lock_type) lock_value
              (Some timeout) false None w Hs Hto Hk)
    as (w1 & Ha & Hk1 & Hfr1 & Hs1 & Hcfg1 & _).
  assert (answering w1) as Han1.
  { revert Hs1. unfold serving, answering. by destruct (_client (mgr w1)). }
  exists w1, (without_lock (token_key token_id lock_type) w1).
  unfold acquire_token_lock, release_token_lock, is_token_locked.
  split; [done|]. split.
  { rewrite is_locked_spec by done. unfold locked. rewrite Hk1.
    by rewrite bool_decide_eq_true_2 by by eexists. }
  split.
  { intros v'. eapply acquire_lock_serving_held; try done. by rewrite Hcfg1. }
  split.
  { rewrite release_lock_serving by done. by rewrite bool_decide_eq_true_2. }
  split.
  { rewrite is_locked_spec.
    - unfold locked. rewrite stored_token_without_lock.
      by rewrite bool_decide_eq_false_2 by by intros [? ?].
    - apply serving_without_lock with (key := token_key token_id lock_type) in Hs1.
      revert Hs1. unfold serving, answering.
      by destruct (_client (mgr (without_lock _ w1))). }
  intros id' ty' Hne.
  assert (token_key id' ty' ≠ token_key token_id lock_type) as Hkey.
  { intros Heq. apply token_key_inj in Heq as [-> ->]. done. }
  split.
  - by apply Hfr1.
  - rewrite stored_token_without_lock_ne by done. by apply Hfr1.
Qed.

Lemma token_lock_round_trip_witness :
  serving (boot cfg_off) ∧ 0 < 300 ∧
  stored_token (token_key 7 "image") (boot cfg_off) = None ∧
  ∃ w1 w2,
    acquire_token_lock 7 "image" "t1" 300 (boot cfg_off)
      = (Returned (Return (Some "t1")), w1) ∧
    is_token_locked 7 "image" w1 = (Returned true, w1) ∧
    (∀ lock_value', acquire_token_lock 7 "image" lock_value' 300 w1
                    = (Returned (Return None), w1)) ∧
    release_token_lock 7 "image" "t1" w1 = (Returned true, w2) ∧
    is_token_locked 7 "image" w2 = (Returned false, w2) ∧
    (∀ token_id' lock_type', (token_id', lock_type') ≠ (7, "image") →
       stored_token (token_key token_id' lock_type') w1
         = stored_token (token_key token_id' lock_type') (boot cfg_off) ∧
       stored_token (token_key token_id' lock_type') w2
         = stored_token (token_key token_id' lock_type') (boot cfg_off)).
Proof.
  split; [reflexivity|]. split; [lia|]. split; [reflexivity|].
  apply (token_lock_round_trip 7 "image" "t1" 300 (boot cfg_off)); [reflexivity|lia|reflexivity].
Defined.

Lemma lock_handover_witness :
  serving held_world ∧
  0 < py_or (Some 2) (redis_lock_timeout (config held_world)) ∧
  stored_token "job:42" held_world = Some "t1" ∧
  acquire_lock "job:42" "t2" (Some 2) false None held_world
    = (Returned (Return None), held_world) ∧
  ∃ w1 w2,
    release_lock "job:42" "t1" held_world = (Returned true, w1) ∧
    acquire_lock "job:42" "t2" (Some 2) false None w1
      = (Returned (Return (Some "t2")), w2) ∧
    stored_token "job:42" w2 = Some "t2".
Proof.
  split; [reflexivity|]. split; [reflexivity|]. split; [reflexivity|].
  apply (lock_handover "job:42" "t1" "t2" (Some 2) None held_world); reflexivity.
Defined.

(** X8.  [acquire_cf_lock] and [release_cf_lock] meet on one key,
    ["lock:cf:refresh"]: while a record is there [acquire_cf_lock] returns
    [False] and changes nothing; on a free key it returns [True] and
    records its token; [release_cf_lock] then frees the key and
    [acquire_cf_lock] succeeds again. *)
Theorem cf_lock_round_trip lock_value timeout w :
  serving w → 0 < timeout →
  (∀ t1, stored_token "cf:refresh" w = Some t1 →
     acquire_cf_lock lock_value timeout w = (Returned (Return false), w)) ∧
  (stored_token "cf:refresh" w = None →
   ∃ w1 w2,
     acquire_cf_lock lock_value timeout w = (Returned (Return true), w1) ∧
     stored_token "cf:refresh" w1 = Some lock_value ∧
     release_cf_lock w1 = (Returned (), w2) ∧
     stored_token "cf:refresh" w2 = None ∧
     ∀ lock_value', ∃ w3,
       acquire_cf_lock lock_value' timeout w2 = (Returned (Return true), w3)).
Proof.
  intros Hs Ht.
  assert (∀ d, 0 < py_or (Some timeout) d) as Hto.
  { intros d. cbn. destruct (Z.eqb_spec timeout 0); lia. }
  split.
  - intros t1 Hk. unfold acquire_cf_lock. unfold mbind, M_bind at 1.
    erewrite acquire_lock_serving_held; [done|done|apply Hto|done].
  - intros Hk.
    destruct (acquire_lock_serving_free "cf:refresh" lock_value (Some timeout) false None
                w Hs (Hto _) Hk)
      as (w1 & Ha & Hk1 & _ & Hs1 & Hcfg1 & _).
    exists w1, (without_lock "cf:refresh" w1).
    split. { unfold acquire_cf_lock. unfold mbind, M_bind at 1. by rewrite Ha. }
    split; [done|].
    split; [by apply release_cf_lock_serving|].
    split; [apply stored_token_without_lock|].
    intros v'.
    destruct (acquire_lock_serving_free "cf:refresh" v' (Some timeout) false None
                (without_lock "cf:refresh" w1)) as (w3 & Ha3 & _).
    + by apply serving_without_lock.
    + apply Hto.
    + apply stored_token_without_lock.
    + exists w3. unfold acquire_cf_lock. unfold mbind, M_bind at 1. by rewrite Ha3.
Qed.

Lemma cf_lock_round_trip_witness :
  serving (boot cfg_off) ∧ 0 < 60 ∧
  (∀ t1, stored_token "cf:refresh" (boot cfg_off) = Some t1 →
     acquire_cf_lock "t1" 60 (boot cfg_off) = (Returned (Return false), boot cfg_off)) ∧
  (stored_token "cf:refresh" (boot cfg_off) = None →
   ∃ w1 w2,
     acquire_cf_lock "t1" 60 (boot cfg_off) = (Returned (Return true), w1) ∧
     stored_token "cf:refresh" w1 = Some "t1" ∧
     release_cf_lock w1 = (Returned (), w2) ∧
     stored_token "cf:refresh" w2 = None ∧
     ∀ lock_value', ∃ w3,
       acquire_cf_lock lock_value' 60 w2 = (Returned (Return true), w3)).
Proof.
  split; [reflexivity|]. split; [lia|].
  apply (cf_lock_round_trip "t1" 60 (boot cfg_off)); [reflexivity|lia].
Defined.

(** X5.  On the remote backend a lock lives exactly [ttl] seconds: until
    then its record is there and other callers are refused; from then on
    the record is gone and another caller acquires the key, after which a
    late [release_lock] of the first owner returns [False] and leaves the
    new owner's record in place. *)
Theorem remote_lock_expiry key lock_value timeout blocking wait_timeout w c :
  _client (mgr w) = Some c → link w = true →
  0 < py_or timeout (redis_lock_timeout (config w)) →
  stored_token key w = None →
  ∃ w1,
    acquire_lock key lock_value timeout blocking wait_timeout w
      = (Returned (Return (Some lock_value)), w1) ∧
    (∀ t, clock w ≤ t < clock w + 1000 * py_or timeout (redis_lock_timeout (config w)) →
       stored_token key (set_clock t w1) = Some lock_value ∧
       ∀ lock_value',
         acquire_lock key lock_value' timeout false wait_timeout (set_clock t w1)
           = (Returned (Return None), set_clock t w1)) ∧
    (∀ t, clock w + 1000 * py_or timeout (redis_lock_timeout (config w)) ≤ t →
       stored_token key (set_clock t w1) = None ∧
       ∀ lock_value', lock_value' ≠ lock_value → ∃ w2,
         acquire_lock key lock_value' timeout false wait_timeout (set_clock t w1)
           = (Returned (Return (Some lock_value')), w2) ∧
         release_lock key lock_value w2 = (Returned false, w2) ∧
         stored_token key w2 = Some lock_value').
Proof.
  intros Hc Hl Ht Hk.
  assert (rlookup (clock w) (store w) ("lock:" +:+ key) = None) as Hfree.
  { revert Hk. unfold stored_token. rewrite Hc. by destruct (rlookup _ _ _). }
  eexists. split; [by eapply acquire_lock_remote_free|].
  split.
  - intros t Hin.
    assert (stored_token key
              (set_clock t
                 (set_store (<["lock:" +:+ key :=
                     {| rvalue := lock_value;
                        rdeadline := Some (clock w + 1000 * py_or timeout
                                                     (redis_lock_timeout (config w))) |}]>
                   (store w)) w)) = Some lock_value) as Hst.
    { unfold stored_token. cbn -[rlookup]. rewrite Hc. rewrite rlookup_insert.
      unfold alive. cbn. by rewrite (proj2 (Z.ltb_lt _ _)) by lia. }
    split; [done|]. intros v'.
    eapply acquire_lock_serving_held; [|done|exact Hst].
    unfold serving. cbn. by rewrite Hc.
  - intros t Hin.
    assert (stored_token key
              (set_clock t
                 (set_store (<["lock:" +:+ key :=
                     {| rvalue := lock_value;
                        rdeadline := Some (clock w + 1000 * py_or timeout
                                                     (redis_lock_timeout (config w))) |}]>
                   (store w)) w)) = None) as Hst.
    { unfold stored_token. cbn -[rlookup]. rewrite Hc. rewrite rlookup_insert.
      unfold alive. cbn. by rewrite (proj2 (Z.ltb_ge _ _)) by lia. }
    split; [done|]. intros v' Hne.
    edestruct (acquire_lock_serving_free key v' timeout false wait_timeout) as
      (w2 & Ha & Hk2 & _ & Hs2 & _); [| |exact Hst|].
    + unfold serving. cbn. by rewrite Hc.
    + done.
    + exists w2. split; [done|]. split; [|done].
      rewrite release_lock_serving by done. rewrite Hk2.
      by rewrite bool_decide_eq_false_2 by congruence.
Qed.

Lemma remote_lock_expiry_witness :
  _client (mgr remote_world)
    = Some {| host := "localhost"; port := 6379; password := None; db := 0 |} ∧
  link remote_world = true ∧
  0 < py_or (Some 2) (redis_lock_timeout (config remote_world)) ∧
  stored_token "job:42" remote_world = None ∧
  ∃ w1,
    acquire_lock "job:42" "t1" (Some 2) false None remote_world
      = (Returned (Return (Some "t1")), w1) ∧
    (∀ t, clock remote_world ≤ t
          < clock remote_world + 1000 * py_or (Some 2) (redis_lock_timeout (config remote_world)) →
       stored_token "job:42" (set_clock t w1) = Some "t1" ∧
       ∀ lock_value',
         acquire_lock "job:42" lock_value' (Some 2) false None (set_clock t w1)
           = (Returned (Return None), set_clock t w1)) ∧
    (∀ t, clock remote_world
          + 1000 * py_or (Some 2) (redis_lock_timeout (config remote_world)) ≤ t →
       stored_token "job:42" (set_clock t w1) = None ∧
       ∀ lock_value', lock_value' ≠ "t1" → ∃ w2,
         acquire_lock "job:42" lock_value' (Some 2) false None (set_clock t w1)
           = (Returned (Return (Some lock_value')), w2) ∧
         release_lock "job:42" "t1" w2 = (Returned false, w2) ∧
         stored_token "job:42" w2 = Some lock_value').
Proof.
  split; [reflexivity|]. split; [reflexivity|]. split; [reflexivity|]. split; [reflexivity|].
  apply (remote_lock_expiry "job:42" "t1" (Some 2) false None remote_world
           {| host := "localhost"; port := 6379; password := None; db := 0 |});
    reflexivity.
Defined.

(** ** The event loop, continued *)

Lemma waiting_world_run : run waiting_run (boot cfg_off) = Some waiting_world.
Proof. vm_compute. reflexivity. Defined.

Lemma fallback_wait_is_futile_witness :
  tasks (boot cfg_off) = [] ∧ _client (mgr (boot cfg_off)) = None ∧
  run waiting_run (boot cfg_off) = Some waiting_world ∧
  tasks waiting_world !! 2%nat
    = Some (AcquireLocalSleep "lock:job:42" "token-B" 1 5000 0 100) ∧
  (∀ c, resume (Pending c) waiting_world = None) ∧
  (∀ key wake, resume (AutoReleaseLocalLock key wake) waiting_world = None) ∧
  (∀ t' w',
     resume (AcquireLocalSleep "lock:job:42" "token-B" 1 5000 0 100) waiting_world
       = Some (t', w') →
     (t' = Done (Returned PNone) ∧ 5000 ≤ clock waiting_world - 0) ∨
     (t' = AcquireLocalSleep "lock:job:42" "token-B" 1 5000 0 (clock waiting_world + 100) ∧
      w' = waiting_world)).
Proof.
  split; [reflexivity|]. split; [reflexivity|]. split; [exact waiting_world_run|].
  split; [reflexivity|].
  apply (fallback_wait_is_futile waiting_run (boot cfg_off) waiting_world 2
           "lock:job:42" "token-B" 1 5000 0 100);
    [reflexivity|reflexivity|exact waiting_world_run|reflexivity].
Defined.

Lemma wait_loop_bounded_witness :
  tasks (boot cfg_off) = [] ∧
  run waiting_run (boot cfg_off) = Some waiting_world ∧
  tasks waiting_world !! 2%nat
    = Some (AcquireLocalSleep "lock:job:42" "token-B" 1 5000 0 100) ∧
  acquire_sleep (AcquireLocalSleep "lock:job:42" "token-B" 1 5000 0 100)
    = Some (0, 5000, 100) ∧
  clock waiting_world ≤ 100 ∧ 100 ≤ 0 + Z.max 5000 0 + 100 ∧
  (100 ≤ clock waiting_world →
   is_Some (resume (AcquireLocalSleep "lock:job:42" "token-B" 1 5000 0 100) waiting_world)).
Proof.
  split; [reflexivity|]. split; [exact waiting_world_run|].
  split; [reflexivity|]. split; [reflexivity|].
  apply (wait_loop_bounded waiting_run (boot cfg_off) waiting_world 2
           (AcquireLocalSleep "lock:job:42" "token-B" 1 5000 0 100) 0 5000 100);
    [reflexivity|exact waiting_world_run|reflexivity|reflexivity].
Defined.

Lemma guard_owned_fire e w w' :
  guard_inv w →
  (_local_lock (mgr w) = true → ∃ i t, tasks w !! i = Some t ∧ is_Some (local_sleeper t)) →
  fire e w = Some w' →
  _local_lock (mgr w') = true → ∃ i t, tasks w' !! i = Some t ∧ is_Some (local_sleeper t).
Proof.
  intros Hinv Hown Hf Hg'. destruct e as [c|i|d|st up]; cbn in Hf.
  - simplify_eq. cbn in *. destruct (Hown Hg') as (i & t & Hi & Hs).
    exists i, t. split; [|done]. rewrite lookup_app_l; [done|by eapply lookup_lt_Some].
  - destruct (tasks w !! i) as [t|] eqn:Hi; [|done]. cbn in Hf.
    destruct (resume t w) as [[t' w1]|] eqn:Hr; [|done]. cbn in Hf. simplify_eq.
    destruct (resume_frame _ _ _ _ Hr) as (_ & _ & _ & sp & Hsp & _). cbn in *.
    assert (i < length (tasks w ++ sp))%nat as Hlen.
    { rewrite length_app. apply lookup_lt_Some in Hi. lia. }
    destruct (local_sleeper t) as [lk|] eqn:Hst.
    + destruct (Hinv i t lk Hi Hst) as (Hg & Hk & _).
      destruct t; try done. cbn in Hst. simplify_eq.
      apply resume_sleeper in Hr as [_ [(_ & -> & ->)|(_ & -> & ->)]]; [done| |done].
      exists i. eexists. rewrite Hsp, list_lookup_insert_eq by done. split; [done|by eexists].
    + destruct (_local_lock (mgr w)) eqn:Hg.
      * destruct (Hown eq_refl) as (j & t2 & Hj & Hs2).
        assert (j ≠ i) as Hne.
        { intros ->. simplify_eq. rewrite Hst in Hs2. by destruct Hs2. }
        exists j, t2. split; [|done]. rewrite Hsp, list_lookup_insert_ne by done.
        rewrite lookup_app_l; [done|by eapply lookup_lt_Some].
      * destruct (resume_other_free _ _ _ _ Hst Hg Hr) as [[_ ?]|(lk' & Hst' & _)];
          [congruence|].
        exists i, t'. rewrite Hsp, list_lookup_insert_eq by done.
        split; [done|]. rewrite Hst'. by eexists.
  - destruct (_ && _); [|done]. simplify_eq. cbn in *. auto.
  - simplify_eq. cbn in *. auto.
Qed.

(** X12.  The guard of the fallback is never left behind: in every world
    the event loop can reach, [_local_lock] is locked exactly while some
    coroutine sleeps in the wait loop of [acquire_lock], and at most one
    coroutine does; every lock method that has returned has unlocked it. *)
Theorem guard_held_only_by_waiter es w0 w :
  tasks w0 = [] → _local_lock (mgr w0) = false →
  run es w0 = Some w →
  (_local_lock (mgr w) = true ↔
     ∃ i t, tasks w !! i = Some t ∧ is_Some (local_sleeper t)) ∧
  (∀ i j t t', tasks w !! i = Some t → tasks w !! j = Some t' →
     is_Some (local_sleeper t) → is_Some (local_sleeper t') → i = j).
Proof.
  intros Ht0 Hg0 Hrun.
  assert (guard_inv w ∧
          (_local_lock (mgr w) = true →
           ∃ i t, tasks w !! i = Some t ∧ is_Some (local_sleeper t))) as [Hinv Hown].
  { eapply (run_invariant (λ w, guard_inv w ∧
              (_local_lock (mgr w) = true →
               ∃ i t, tasks w !! i = Some t ∧ is_Some (local_sleeper t))));
      [|split; [by apply guard_inv_no_tasks|by rewrite Hg0]|exact Hrun].
    intros e w1 w2 [H1 H2] Hf. split.
    - by eapply guard_inv_fire.
    - by eapply guard_owned_fire. }
  split; [split; [done|]|].
  - intros (i & t & Hi & [lk Hs]). by destruct (Hinv i t lk Hi Hs).
  - intros i j t t' Hi Hj [lk Hs] Hs'.
    destruct (Hinv i t lk Hi Hs) as (_ & _ & Hu). symmetry. by eapply Hu.
Qed.

Lemma guard_held_only_by_waiter_witness :
  tasks (boot cfg_off) = [] ∧ _local_lock (mgr (boot cfg_off)) = false ∧
  run waiting_run (boot cfg_off) = Some waiting_world ∧
  (_local_lock (mgr waiting_world) = true ↔
     ∃ i t, tasks waiting_world !! i = Some t ∧ is_Some (local_sleeper t)) ∧
  (∀ i j t t', tasks waiting_world !! i = Some t → tasks waiting_world !! j = Some t' →
     is_Some (local_sleeper t) → is_Some (local_sleeper t') → i = j).
Proof.
  split; [reflexivity|]. split; [reflexivity|]. split; [exact waiting_world_run|].
  apply (guard_held_only_by_waiter waiting_run (boot cfg_off) waiting_world);
    [reflexivity|reflexivity|exact waiting_world_run].
Defined.

(** X13.  In the fallback, a lock call ([acquire_lock], [release_lock],
    [release_cf_lock]) made while another coroutine sleeps in the wait loop
    does not start before that coroutine's wait deadline
    [start_time + wait_timeout], whatever the event loop does. *)
Theorem lock_call_waits_for_waiter es0 es w0 w w' i j lk v to wt st wk c :
  tasks w0 = [] → _client (mgr w0) = None →
  run es0 w0 = Some w →
  tasks w !! i = Some (AcquireLocalSleep lk v to wt st wk) →
  tasks w !! j = Some (Pending c) →
  run es w = Some w' → clock w' < st + wt →
  tasks w' !! j = Some (Pending c).
Proof.
  intros Ht0 Hc0 Hrun0 Hi Hj Hrun Ht.
  assert (guard_inv w) as Hinv by (eapply guard_inv_run; [by apply guard_inv_no_tasks|done]).
  assert (_client (mgr w) = None) as Hc by (by rewrite (run_client _ _ _ Hrun0)).
  by destruct (pending_starves es w w' i j lk v to wt st wk c Hinv Hc Hi Hj Hrun Ht).
Qed.

Lemma waiting_world_later_run : run (polls 10 2) waiting_world = Some waiting_world_later.
Proof. vm_compute. reflexivity. Defined.

Lemma lock_call_waits_for_waiter_witness :
  tasks (boot cfg_off) = [] ∧ _client (mgr (boot cfg_off)) = None ∧
  run waiting_run (boot cfg_off) = Some waiting_world ∧
  tasks waiting_world !! 2%nat
    = Some (AcquireLocalSleep "lock:job:42" "token-B" 1 5000 0 100) ∧
  tasks waiting_world !! 3%nat = Some (Pending (ReleaseLock "job:42" "token-A")) ∧
  run (polls 10 2) waiting_world = Some waiting_world_later ∧
  clock waiting_world_later < 0 + 5000 ∧
  tasks waiting_world_later !! 3%nat = Some (Pending (ReleaseLock "job:42" "token-A")).
Proof.
  split; [reflexivity|]. split; [reflexivity|]. split; [exact waiting_world_run|].
  split; [reflexivity|]. split; [reflexivity|]. split; [exact waiting_world_later_run|].
  split; [vm_compute; reflexivity|].
  apply (lock_call_waits_for_waiter waiting_run (polls 10 2) (boot cfg_off) waiting_world
           waiting_world_later 2 3 "lock:job:42" "token-B" 1 5000 0 100
           (ReleaseLock "job:42" "token-A"));
    [reflexivity|reflexivity|exact waiting_world_run|reflexivity|reflexivity
    |exact waiting_world_later_run|vm_compute; reflexivity].
Defined.

(** ** Cache operations, continued *)

Lemma exists_remote key w c :
  _client (mgr w) = Some c → link w = true →
  exists_ key w = (Returned (bool_decide (is_Some (rlookup (clock w) (store w) key))), w).
Proof.
  intros Hc Hl. unfold exists_, Server.exists_. run_m. rewrite Hc, Hl. cbn -[rlookup].
  destruct (rlookup _ _ _); cbn; f_equal; world_eq.
Qed.

Lemma cached_spec key w :
  answering w →
  get key w = (Returned (default PNone (cached key w)), w) ∧
  exists_ key w = (Returned (bool_decide (is_Some (cached key w))), w).
Proof.
  unfold answering, cached. destruct (_client (mgr w)) as [c|] eqn:Hc; intros Hl.
  - erewrite get_remote, exists_remote by done.
    destruct (rlookup _ _ _); cbn; split; done.
  - by rewrite get_local, exists_local by done.
Qed.

(** X14.  [delete] reports whether the key was there, which is what
    [exists] said just before; after it the key is gone: [exists] returns
    [False], [get] returns [None] and a second [delete] returns [False]. *)
Theorem delete_reports_existence key w :
  answering w →
  ∃ b w1,
    exists_ key w = (Returned b, w) ∧
    delete key w = (Returned b, w1) ∧
    (b = true ↔ is_Some (cached key w)) ∧
    exists_ key w1 = (Returned false, w1) ∧
    get key w1 = (Returned PNone, w1) ∧
    delete key w1 = (Returned false, w1).
Proof.
  intros Ha. destruct (cached_spec key w Ha) as [_ He].
  revert Ha He. unfold answering, cached.
  destruct (_client (mgr w)) as [c|] eqn:Hc; intros Hl He.
  - destruct (delete_remote key w c Hc Hl) as (st & Hd & Hst).
    eexists _, _. split; [exact He|]. split.
    { rewrite Hd. do 2 f_equal. destruct (rlookup _ _ _); done. }
    split. { rewrite bool_decide_eq_true. by rewrite fmap_is_Some. }
    assert (_client (mgr (set_store st w)) = Some c) as Hc1 by done.
    destruct (delete_remote key (set_store st w) c Hc1 Hl) as (st' & Hd' & Hst').
    rewrite (exists_remote _ _ c), (get_remote _ _ c) by done.
    cbn -[rlookup] in *. rewrite Hst in *. cbn. split_and!; try done.
    unfold delete, Server.del. run_m. rewrite Hc. cbn -[rlookup]. rewrite Hl.
    cbn -[rlookup]. rewrite Hst. cbn. f_equal.
  - eexists _, _. split; [exact He|]. split; [by rewrite delete_local|].
    split; [by rewrite bool_decide_eq_true|].
    rewrite exists_local, get_local, delete_local by done. cbn.
    rewrite lookup_delete_eq. cbn. split_and!; try done.
    f_equal. rewrite delete_delete_eq. done.
Qed.

Lemma delete_reports_existence_witness :
  answering remote_world ∧
  ∃ b w1,
    exists_ "concurrency:7:image" remote_world = (Returned b, remote_world) ∧
    delete "concurrency:7:image" remote_world = (Returned b, w1) ∧
    (b = true ↔ is_Some (cached "concurrency:7:image" remote_world)) ∧
    exists_ "concurrency:7:image" w1 = (Returned false, w1) ∧
    get "concurrency:7:image" w1 = (Returned PNone, w1) ∧
    delete "concurrency:7:image" w1 = (Returned false, w1).
Proof.
  split; [reflexivity|].
  apply (delete_reports_existence "concurrency:7:image" remote_world). reflexivity.
Defined.

(** X15.  A value written without expiry over one written with expiry: on
    the remote backend it stays, the second [SET] having dropped the
    deadline; in the fallback the expiry of the first [set] is still in the
    event loop, and once it has run the second value is gone. *)
Theorem overwritten_expiry key v1 v2 e w :
  answering w → 0 < e →
  ∃ w1 w2,
    set key v1 (Some e) w = (Returned true, w1) ∧
    set key v2 None w1 = (Returned true, w2) ∧
    get key w2 = (Returned (PStr v2), w2) ∧
    ∀ t, clock w + 1000 * e ≤ t →
      if _client (mgr w) is Some _
      then get key (set_clock t w2) = (Returned (PStr v2), set_clock t w2)
      else AutoExpireLocalCache key (clock w + 1000 * e) ∈ tasks w2 ∧
           ∃ w3, resume (AutoExpireLocalCache key (clock w + 1000 * e)) (set_clock t w2)
                   = Some (Done (Returned PNone), w3) ∧
                 get key w3 = (Returned PNone, w3).
Proof.
  unfold answering. destruct (_client (mgr w)) as [c|] eqn:Hc; intros Hl He.
  - eexists _, _. split.
    { eapply set_remote; try done. intros ? [= <-]. done. }
    split. { eapply set_remote; done. }
    split.
    { erewrite get_remote; [|done..]. cbn -[rlookup]. by rewrite rlookup_insert. }
    intros t Ht. erewrite get_remote; [|done..]. cbn -[rlookup]. by rewrite rlookup_insert.
  - eexists _, _. split; [by apply set_local|]. split; [by apply set_local|].
    split. { rewrite get_local by done. cbn. by rewrite lookup_insert_eq. }
    intros t Ht. split.
    { assert (py_or (Some e) 0 = e) as Hpy.
      { cbn. by destruct (Z.eqb_spec e 0). }
      unfold expiry_task. cbn [tasks set_tasks set_mgr mgr clock _client set_local_cache].
      rewrite Hc, Hpy. destruct (Z.eqb_spec e 0); [lia|]. cbn.
      rewrite app_nil_r. apply elem_of_app. right. by apply list_elem_of_singleton. }
    eexists. cbn -[_auto_expire_local_cache].
    rewrite (proj2 (Z.ltb_ge _ _)) by done.
    unfold _auto_expire_local_cache. run_m. rewrite lookup_insert_eq.
    rewrite bool_decide_eq_true_2 by by eexists. cbn.
    split; [done|]. rewrite get_local by done. cbn. by rewrite lookup_delete_eq.
Qed.

Lemma overwritten_expiry_witness :
  answering (boot cfg_off) ∧ 0 < 60 ∧
  ∃ w1 w2,
    set "cf:refreshing" "1" (Some 60) (boot cfg_off) = (Returned true, w1) ∧
    set "cf:refreshing" "2" None w1 = (Returned true, w2) ∧
    get "cf:refreshing" w2 = (Returned (PStr "2"), w2) ∧
    ∀ t, clock (boot cfg_off) + 1000 * 60 ≤ t →
      if _client (mgr (boot cfg_off)) is Some _
      then get "cf:refreshing" (set_clock t w2) = (Returned (PStr "2"), set_clock t w2)
      else AutoExpireLocalCache "cf:refreshing" (clock (boot cfg_off) + 1000 * 60) ∈ tasks w2 ∧
           ∃ w3, resume (AutoExpireLocalCache "cf:refreshing" (clock (boot cfg_off) + 1000 * 60))
                        (set_clock t w2)
                   = Some (Done (Returned PNone), w3) ∧
                 get "cf:refreshing" w3 = (Returned PNone, w3).
Proof.
  split; [exact I|]. split; [lia|].
  apply (overwritten_expiry "cf:refreshing" "1" "2" 60 (boot cfg_off)); [exact I|lia].
Defined.

(** ** The two fallback dictionaries *)

Ltac run_cache :=
  unfold get, set, delete, exists_, get_concurrency, increment_concurrency,
    decrement_concurrency, is_locked, Server.get, Server.set, Server.del, Server.exists_,
    Server.incrby, Server.set_nx_ex, Server.eval_release in *;
  run_all.

(** X16.  The lock dictionary and the cache dictionary of the fallback
    never meet: no cache or counter call changes [_local_locks] or the
    guard, and no lock call changes [_local_cache], whatever the backend
    and whatever the call returns or raises. *)
Theorem local_dictionaries_are_separate w :
  (∀ key value ex token_id lock_type w',
     w' ∈ [ (get key w).2; (set key value ex w).2; (delete key w).2; (exists_ key w).2;
            (get_concurrency token_id lock_type w).2;
            (increment_concurrency token_id lock_type w).2;
            (decrement_concurrency token_id lock_type w).2;
            (decrement_concurrency_reset key w).2;
            (_auto_expire_local_cache key w).2 ] →
     _local_locks (mgr w') = _local_locks (mgr w) ∧
     _local_lock (mgr w') = _local_lock (mgr w)) ∧
  (∀ key lock_value timeout blocking wait_timeout w',
     w' ∈ [ (acquire_lock key lock_value timeout blocking wait_timeout w).2;
            (release_lock key lock_value w).2; (is_locked key w).2;
            (release_cf_lock w).2; (_auto_release_local_lock key w).2 ] →
     _local_cache (mgr w') = _local_cache (mgr w)).
Proof.
  split.
  - intros key value ex token_id lock_type w' Hin.
    repeat (apply elem_of_cons in Hin as [->|Hin]); [..|by apply elem_of_nil in Hin];
      run_cache; repeat (case_match; simplify_eq/=; try done).
  - intros key lock_value timeout blocking wait_timeout w' Hin.
    repeat (apply elem_of_cons in Hin as [->|Hin]); [..|by apply elem_of_nil in Hin];
      run_cache; repeat (case_match; simplify_eq/=; try done).
Qed.


(** X17.  On the remote backend the lock records and the cache share one
    keyspace: the cache call [delete("lock:" + key)] removes the lock of
    [key] whatever its token, and [set("lock:" + key, v)] makes [key]
    locked with token [v].  In the fallback the same calls leave the lock
    of [key] as it is. *)
Theorem cache_calls_reach_remote_locks key v w :
  answering w →
  ∃ b w1 w2,
    delete ("lock:" +:+ key) w = (Returned b, w1) ∧
    set ("lock:" +:+ key) v None w = (Returned true, w2) ∧
    if _client (mgr w) is Some _
    then stored_token key w1 = None ∧ stored_token key w2 = Some v
    else stored_token key w1 = stored_token key w ∧ stored_token key w2 = stored_token key w.
Proof.
  unfold answering, stored_token.
  destruct (_client (mgr w)) as [c|] eqn:Hc; intros Hl.
  - destruct (delete_remote ("lock:" +:+ key) w c Hc Hl) as (st & Hd & Hst).
    eexists _, _, _. split; [exact Hd|].
    split; [by eapply set_remote|].
    cbn -[rlookup]. rewrite Hc, Hst. split; [done|].
    by rewrite rlookup_insert.
  - eexists _, _, _. split; [by apply delete_local|].
    split; [by apply set_local|]. cbn. by rewrite Hc.
Qed.

Lemma cache_calls_reach_remote_locks_witness :
  answering remote_world ∧
  ∃ b w1 w2,
    delete ("lock:" +:+ "job:42") remote_world = (Returned b, w1) ∧
    set ("lock:" +:+ "job:42") "t9" None remote_world = (Returned true, w2) ∧
    if _client (mgr remote_world) is Some _
    then stored_token "job:42" w1 = None ∧ stored_token "job:42" w2 = Some "t9"
    else stored_token "job:42" w1 = stored_token "job:42" remote_world ∧
         stored_token "job:42" w2 = stored_token "job:42" remote_world.
Proof.
  split; [reflexivity|].
  apply (cache_calls_reach_remote_locks "job:42" "t9" remote_world). reflexivity.
Defined.

(** ** Counters, continued *)

(** X18.  In the fallback a counter key that holds a string (written by
    [set]) is not a counter: [increment_concurrency] and
    [decrement_concurrency] raise [TypeError] and change nothing, and
    [get_concurrency] hands the string back.  On the remote backend the
    same key, when its string is the decimal numeral of [n], counts on from
    [n] as long as [n + 1] fits the signed 64-bit range of the server. *)
Theorem counter_on_string_value token_id lock_type s w :
  answering w → cached (concurrency_key token_id lock_type) w = Some (PStr s) →
  if _client (mgr w) is Some _
  then ∀ n, s = str_of_int n → int64_min ≤ n < int64_max →
       get_concurrency token_id lock_type w = (Returned (PInt n), w) ∧
       ∃ w1, increment_concurrency token_id lock_type w = (Returned (n + 1), w1) ∧
             cached (concurrency_key token_id lock_type) w1 = Some (PStr (str_of_int (n + 1)))
  else get_concurrency token_id lock_type w = (Returned (PStr s), w) ∧
       increment_concurrency token_id lock_type w = (Raised TypeError, w) ∧
       decrement_concurrency token_id lock_type w = (Raised TypeError, w).
Proof.
  unfold answering, cached. destruct (_client (mgr w)) as [c|] eqn:Hc; intros Hl Hk.
  - intros n -> Hr. pose proof (py_int_str_of_int n) as Hn.
    pose proof (str_of_int_nonempty n) as Hs.
    assert (redis_int (str_of_int n) = Some n) as Hri by (apply redis_int_str_of_int; lia).
    destruct (rlookup (clock w) (store w) _) as [e|] eqn:He; [|done].
    cbn in Hk. injection Hk as Hk. rewrite <- Hk in Hn, Hs, Hri. split.
    + unfold get_concurrency, Server.get. run_m. rewrite Hc, Hl. cbn -[rlookup].
      rewrite He. cbn. destruct (rvalue e) eqn:Hv; [done|]. rewrite Hn. f_equal. world_eq.
    + unfold increment_concurrency, Server.incrby. run_m. rewrite Hc, Hl. cbn -[rlookup].
      rewrite He, Hri. cbn -[rlookup].
      rewrite (proj2 (Z.leb_le int64_min (n + 1))) by lia.
      rewrite (proj2 (Z.leb_le (n + 1) int64_max)) by lia.
      cbn -[rlookup]. eexists. split; [done|]. cbn -[rlookup].
      rewrite Hc, rlookup_insert. apply rlookup_Some in He as [_ Ha].
      unfold alive in *. cbn. by rewrite Ha.
  - unfold get_concurrency, increment_concurrency, decrement_concurrency. run_m.
    by rewrite Hc, Hk.
Qed.

Lemma counter_on_string_value_witness :
  answering remote_world ∧
  cached (concurrency_key 7 "image") remote_world = Some (PStr "3") ∧
  if _client (mgr remote_world) is Some _
  then ∀ n, "3" = str_of_int n → int64_min ≤ n < int64_max →
       get_concurrency 7 "image" remote_world = (Returned (PInt n), remote_world) ∧
       ∃ w1, increment_concurrency 7 "image" remote_world = (Returned (n + 1), w1) ∧
             cached (concurrency_key 7 "image") w1 = Some (PStr (str_of_int (n + 1)))
  else get_concurrency 7 "image" remote_world = (Returned (PStr "3"), remote_world) ∧
       increment_concurrency 7 "image" remote_world = (Raised TypeError, remote_world) ∧
       decrement_concurrency 7 "image" remote_world = (Raised TypeError, remote_world).
Proof.
  split; [reflexivity|]. split; [reflexivity|].
  apply (counter_on_string_value 7 "image" "3" remote_world); reflexivity.
Defined.

(** X19.  Counters of different [(token_id, lock_type)] pairs do not
    interfere: whatever a counter call on one pair does, returns or
    raises, the counter of another pair stands where it stood, and so does
    what is stored under its key. *)
Theorem counters_are_independent a s b t o w :
  (a, s) ≠ (b, t) →
  counter_value b t (counter_call a s o w).2 = counter_value b t w ∧
  cached (concurrency_key b t) (counter_call a s o w).2 = cached (concurrency_key b t) w.
Proof.
  intros Hne.
  assert (concurrency_key a s ≠ concurrency_key b t) as Hk.
  { intros Heq. apply concurrency_key_inj in Heq as [-> ->]. done. }
  assert (∀ w', _client (mgr w') = _client (mgr w) → clock w' = clock w →
            (store w' !! concurrency_key b t = store w !! concurrency_key b t) →
            (_local_cache (mgr w') !! concurrency_key b t
               = _local_cache (mgr w) !! concurrency_key b t) →
            counter_value b t w' = counter_value b t w ∧
            cached (concurrency_key b t) w' = cached (concurrency_key b t) w) as Hsame.
  { intros w' Hc Hcl Hst Hlc. unfold counter_value, cached, rlookup.
    by rewrite Hc, Hcl, Hst, Hlc. }
  apply Hsame;
    destruct o; unfold counter_call, uninterrupted; run_cache;
    repeat (first [case_match | progress run_cache]; simplify_eq/=; try done);
    rewrite ?lookup_insert_ne by done; done.
Qed.

Lemma counters_are_independent_witness :
  (7, "image") ≠ (7, "video") ∧
  counter_value 7 "video" (counter_call 7 "image" Increment remote_world).2
    = counter_value 7 "video" remote_world ∧
  cached (concurrency_key 7 "video") (counter_call 7 "image" Increment remote_world).2
    = cached (concurrency_key 7 "video") remote_world.
Proof.
  assert ((7, "image") ≠ (7, "video")) as Hne by (intros [=]).
  split; [exact Hne|].
  apply (counters_are_independent 7 "image" 7 "video" Increment remote_world). exact Hne.
Defined.


Lemma counter_spec_run_app os1 : ∀ os2 n,
  (counter_spec_run (os1 ++ os2) n).2
    = (counter_spec_run os2 (counter_spec_run os1 n).2).2.
Proof.
  induction os1 as [|o os1 IH]; intros os2 n; [done|].
  cbn [app counter_spec_run]. destruct (counter_spec o n) as [r n1].
  specialize (IH os2 n1).
  destruct (counter_spec_run (os1 ++ os2) n1), (counter_spec_run os1 n1). done.
Qed.

Lemma counter_spec_run_increments k : ∀ n,
  (counter_spec_run (replicate k Increment) n).2 = n + Z.of_nat k.
Proof.
  induction k as [|k IH]; intros n; [cbn; lia|].
  change (replicate (S k) Increment) with (Increment :: replicate k Increment).
  cbn [counter_spec_run counter_spec]. specialize (IH (n + 1)).
  destruct (counter_spec_run (replicate k Increment) (n + 1)). cbn in *. lia.
Qed.

Lemma counter_spec_run_decrements_from k : ∀ n,
  0 ≤ n → (counter_spec_run (replicate k Decrement) n).2 = Z.max 0 (n - Z.of_nat k).
Proof.
  induction k as [|k IH]; intros n Hn; [cbn; lia|].
  change (replicate (S k) Decrement) with (Decrement :: replicate k Decrement).
  cbn [counter_spec_run counter_spec].
  destruct (Z.ltb_spec (n - 1) 0).
  - specialize (IH 0 ltac:(lia)).
    destruct (counter_spec_run (replicate k Decrement) 0). cbn in *. lia.
  - specialize (IH (n - 1) ltac:(lia)).
    destruct (counter_spec_run (replicate k Decrement) (n - 1)). cbn in *. lia.
Qed.

Lemma counter_spec_peak_increments k : ∀ os n,
  counter_spec_peak (replicate k Increment ++ os) n = counter_spec_peak os (n + Z.of_nat k).
Proof.
  induction k as [|k IH]; intros os n; [cbn; f_equal; lia|].
  change (replicate (S k) Increment ++ os) with (Increment :: (replicate k Increment ++ os)).
  cbn [counter_spec_peak counter_spec snd]. rewrite IH.
  pose proof (counter_spec_peak_ge os (n + 1 + Z.of_nat k)).
  replace (n + Z.of_nat (S k)) with (n + 1 + Z.of_nat k) by lia. lia.
Qed.

(** X20.  Increments and decrements add up, down to the floor: from a
    counter at [n ≥ 0], [k] calls of [increment_concurrency] followed by
    [j] calls of [decrement_concurrency], each run to its end before the
    next, leave it at [max 0 (n + k - j)]; with [j = k] it is back at [n].
    On the server [n + k] has to fit the signed 64-bit range. *)
Theorem increments_then_decrements token_id lock_type w n k j :
  answering w → counter_value token_id lock_type w = Some n → 0 ≤ n →
  (is_connected (mgr w) = true → n + Z.of_nat k ≤ int64_max) →
  ∃ rs w',
    counter_calls token_id lock_type (replicate k Increment ++ replicate j Decrement) w
      = (Returned rs, w') ∧
    counter_value token_id lock_type w' = Some (Z.max 0 (n + Z.of_nat k - Z.of_nat j)) ∧
    (j = k → counter_value token_id lock_type w' = Some n).
Proof.
  intros Ha Hv Hn Hr.
  destruct (counter_calls_run token_id lock_type
              (replicate k Increment ++ replicate j Decrement) w n Ha Hv Hn)
    as (w' & Hc & Hv' & _).
  { rewrite counter_spec_peak_increments, counter_spec_peak_decrements by lia. done. }
  rewrite counter_spec_run_app, counter_spec_run_increments in Hv'.
  rewrite counter_spec_run_decrements_from in Hv' by lia.
  eexists _, w'. split; [exact Hc|]. split; [done|].
  intros ->. rewrite Hv'. f_equal. lia.
Qed.

Lemma increments_then_decrements_witness :
  answering remote_world ∧ counter_value 7 "image" remote_world = Some 3 ∧ 0 ≤ 3 ∧
  (is_connected (mgr remote_world) = true → 3 + Z.of_nat 2 ≤ int64_max) ∧
  ∃ rs w',
    counter_calls 7 "image" (replicate 2 Increment ++ replicate 7 Decrement) remote_world
      = (Returned rs, w') ∧
    counter_value 7 "image" w'
      = Some (Z.max 0 (3 + Z.of_nat 2 - Z.of_nat 7)) ∧
    (7%nat = 2%nat → counter_value 7 "image" w' = Some 3).
Proof.
  assert (is_connected (mgr remote_world) = true → 3 + Z.of_nat 2 ≤ int64_max) as Hr
    by (intros _; vm_compute; discriminate).
  split; [reflexivity|]. split; [reflexivity|]. split; [lia|]. split; [exact Hr|].
  apply (increments_then_decrements 7 "image" remote_world 3 2 7);
    [reflexivity|reflexivity|lia|exact Hr].
Defined.

(** X28.  On the server [decrement_concurrency] is two commands.  On a
    counter that is absent or stands at [0], [DECR] stores [-1] and the
    coroutine is suspended before [SET key 0]: until it is resumed the
    counter is negative, and [get_concurrency] returns [-1].  Resumed, it
    stores [0] and returns [0]; resumed while the server does not answer,
    it raises and the [-1] stays.  Increments made in between are
    overwritten by the [SET]: after two of them the counter is back at
    [0]. *)
Theorem remote_decrement_is_two_commands token_id lock_type w c :
  _client (mgr w) = Some c → link w = true →
  counter_value token_id lock_type w = Some 0 →
  ∃ w1,
    decrement_concurrency token_id lock_type w
      = (Returned (Await (DecrementReset (concurrency_key token_id lock_type))), w1) ∧
    counter_value token_id lock_type w1 = Some (-1) ∧
    get_concurrency token_id lock_type w1 = (Returned (PInt (-1)), w1) ∧
    (∃ w2, resume (DecrementReset (concurrency_key token_id lock_type)) w1
             = Some (Done (Returned (PInt 0)), w2) ∧
           counter_value token_id lock_type w2 = Some 0) ∧
    (∃ wd, fire (Peer (store w1) false) w1 = Some wd ∧
           resume (DecrementReset (concurrency_key token_id lock_type)) wd
             = Some (Done (Raised ConnectionError), wd) ∧
           counter_value token_id lock_type wd = Some (-1)) ∧
    (∃ w2 w3 w4,
       increment_concurrency token_id lock_type w1 = (Returned 0, w2) ∧
       increment_concurrency token_id lock_type w2 = (Returned 1, w3) ∧
       resume (DecrementReset (concurrency_key token_id lock_type)) w3
         = Some (Done (Returned (PInt 0)), w4) ∧
       counter_value token_id lock_type w4 = Some 0).
Proof.
  intros Hc Hl Hv.
  assert (∃ w1, decrement_concurrency token_id lock_type w
                  = (Returned (Await (DecrementReset (concurrency_key token_id lock_type))), w1) ∧
                counter_value token_id lock_type w1 = Some (-1) ∧
                _client (mgr w1) = Some c ∧ link w1 = true) as (w1 & Hd & Hv1 & Hc1 & Hl1).
  { unfold counter_value in *. rewrite Hc in Hv.
    unfold decrement_concurrency, Server.incrby. run_m. rewrite Hc, Hl. cbn -[rlookup].
    destruct (rlookup _ _ _) as [e|] eqn:He; cbn -[rlookup].
    - rewrite Hv. cbn -[rlookup]. eexists. split; [done|]. cbn -[rlookup]. rewrite Hc.
      rewrite rlookup_insert. apply rlookup_Some in He as [_ Ha].
      unfold alive in *. cbn. by rewrite Ha.
    - eexists. split; [done|]. cbn -[rlookup]. rewrite Hc. by rewrite rlookup_insert. }
  assert (∀ w', _client (mgr w') = Some c → link w' = true →
            ∃ w2, resume (DecrementReset (concurrency_key token_id lock_type)) w'
                    = Some (Done (Returned (PInt 0)), w2) ∧
                  counter_value token_id lock_type w2 = Some 0) as Hreset.
  { intros w' Hc' Hl'. cbn -[String.append]. unfold Server.set. run_all. rewrite Hc'. cbn.
    rewrite Hl'. cbn. eexists. split; [done|]. unfold counter_value. cbn -[rlookup].
    rewrite Hc'. by rewrite rlookup_insert. }
  exists w1. split; [exact Hd|]. split; [exact Hv1|].
  split; [by eapply get_concurrency_remote|].
  split; [by apply Hreset|].
  split.
  { eexists. split; [reflexivity|]. split.
    - cbn -[String.append]. run_all. by rewrite Hc1.
    - unfold counter_value in *. cbn -[rlookup]. by rewrite Hc1 in *. }
  destruct (increment_concurrency_remote token_id lock_type w1 c (-1) Hc1 Hl1 Hv1)
    as (w2 & Hi2 & Hv2 & Hc2 & Hl2); [done|].
  destruct (increment_concurrency_remote token_id lock_type w2 c 0 Hc2 Hl2 Hv2)
    as (w3 & Hi3 & Hv3 & Hc3 & Hl3); [done|].
  destruct (Hreset w3 Hc3 Hl3) as (w4 & Hr4 & Hv4).
  by exists w2, w3, w4.
Qed.

Lemma remote_decrement_is_two_commands_witness :
  _client (mgr remote_world)
    = Some {| host := "localhost"; port := 6379; password := None; db := 0 |} ∧
  link remote_world = true ∧ counter_value 8 "video" remote_world = Some 0 ∧
  ∃ w1,
    decrement_concurrency 8 "video" remote_world
      = (Returned (Await (DecrementReset (concurrency_key 8 "video"))), w1) ∧
    counter_value 8 "video" w1 = Some (-1) ∧
    get_concurrency 8 "video" w1 = (Returned (PInt (-1)), w1) ∧
    (∃ w2, resume (DecrementReset (concurrency_key 8 "video")) w1
             = Some (Done (Returned (PInt 0)), w2) ∧
           counter_value 8 "video" w2 = Some 0) ∧
    (∃ wd, fire (Peer (store w1) false) w1 = Some wd ∧
           resume (DecrementReset (concurrency_key 8 "video")) wd
             = Some (Done (Raised ConnectionError), wd) ∧
           counter_value 8 "video" wd = Some (-1)) ∧
    (∃ w2 w3 w4,
       increment_concurrency 8 "video" w1 = (Returned 0, w2) ∧
       increment_concurrency 8 "video" w2 = (Returned 1, w3) ∧
       resume (DecrementReset (concurrency_key 8 "video")) w3
         = Some (Done (Returned (PInt 0)), w4) ∧
       counter_value 8 "video" w4 = Some 0).
Proof.
  split; [reflexivity|]. split; [reflexivity|]. split; [reflexivity|].
  apply (remote_decrement_is_two_commands 8 "video" remote_world
           {| host := "localhost"; port := 6379; password := None; db := 0 |});
    reflexivity.
Defined.

(** ** The fallback cache under the event loop *)

(** What a resumption does to [_local_cache]: nothing, unless it is an
    expiry of the cache that is due; and it never leaves a new expiry of
    the cache behind. *)
Lemma resume_cache t w t' w' :
  resume t w = Some (t', w') →
  (∀ k wk, t' ≠ AutoExpireLocalCache k wk) ∧
  (_local_cache (mgr w') = _local_cache (mgr w) ∨
   ∃ k wk, t = AutoExpireLocalCache k wk ∧ wk ≤ clock w ∧
           _local_cache (mgr w') = base.delete k (_local_cache (mgr w))).
Proof.
  intros H. each_task t; cbn -[String.append] in H; run_all;
    repeat (case_match; simplify_eq/=; try done);
    (split; [done|]); try (by left);
    right; eexists _, _; split_and!; try done; by apply Z.ltb_ge.
Qed.

Lemma resume_cache_expiry key wk w t' w' :
  resume (AutoExpireLocalCache key wk) w = Some (t', w') →
  _local_cache (mgr w') !! key = None.
Proof.
  intros H. cbn in H. run_all. repeat (case_match; simplify_eq/=; try done).
  - by rewrite lookup_delete_eq.
  - match goal with H : bool_decide _ = false |- _ => apply bool_decide_eq_false_1 in H end.
    by apply eq_None_not_Some.
Qed.

Lemma elem_of_resumed (l sp : list task) i t' t :
  t ∈ <[i := t']> (l ++ sp) → Forall is_expiry sp → ¬ is_expiry t →
  t = t' ∨ t ∈ l.
Proof.
  intros [j Hj]%list_elem_of_lookup_1 Hsp Hne.
  apply list_lookup_insert_Some in Hj as [(_ & -> & _)|[_ Hj]]; [by left|].
  apply lookup_app_Some in Hj as [Hj|[_ Hj]].
  - right. by eapply list_elem_of_lookup_2.
  - apply list_elem_of_lookup_2 in Hj. rewrite Forall_forall in Hsp. by apply Hsp in Hj.
Qed.

(** An entry of the fallback cache with no expiry due before [D] is there
    at every instant before [D], whatever the event loop does. *)
Lemma cache_entry_kept es : ∀ w w' key v D,
  _local_cache (mgr w) !! key = Some v →
  (∀ wk, AutoExpireLocalCache key wk ∈ tasks w → D ≤ wk) →
  run es w = Some w' → clock w' < D →
  _local_cache (mgr w') !! key = Some v.
Proof.
  induction es as [|e es IH]; intros w w' key v D Hv Hex Hrun Ht; cbn in Hrun.
  - by simplify_eq.
  - destruct (fire e w) as [w1|] eqn:Hf; [|done]. cbn in Hrun.
    pose proof (run_clock_mono _ _ _ Hrun) as Hmono.
    pose proof (fire_frame _ _ _ Hf) as (Hcl & _).
    eapply IH; [| |exact Hrun|exact Ht].
    + destruct e as [c|i|d|st up]; cbn in Hf.
      * by simplify_eq.
      * destruct (tasks w !! i) as [t|] eqn:Hi; [|done]. cbn in Hf.
        destruct (resume t w) as [[t' w2]|] eqn:Hr; [|done]. cbn in Hf. simplify_eq. cbn.
        destruct (resume_cache _ _ _ _ Hr) as [_ [->|(k & wk & -> & Hwk & ->)]]; [done|].
        destruct (decide (k = key)) as [->|Hne].
        -- apply list_elem_of_lookup_2, Hex in Hi. lia.
        -- by rewrite lookup_delete_ne.
      * destruct (_ && _); [|done]. by simplify_eq.
      * by simplify_eq.
    + intros wk Hin. destruct e as [c|i|d|st up]; cbn in Hf.
      * simplify_eq. cbn in Hin. apply elem_of_app in Hin as [Hin|Hin]; [by apply Hex|].
        by apply list_elem_of_singleton in Hin.
      * destruct (tasks w !! i) as [t|] eqn:Hi; [|done]. cbn in Hf.
        destruct (resume t w) as [[t' w2]|] eqn:Hr; [|done]. cbn in Hf. simplify_eq.
        destruct (resume_frame _ _ _ _ Hr) as (_ & _ & _ & sp & Hsp & Hnos).
        destruct (resume_cache _ _ _ _ Hr) as [Hnew _].
        cbn in Hin. rewrite Hsp in Hin.
        apply elem_of_resumed in Hin as [Hin|Hin]; [by destruct (Hnew key wk)|by apply Hex|done|by intros []].
      * destruct (_ && _); [|done]. simplify_eq. by apply Hex.
      * simplify_eq. by apply Hex.
Qed.

(** An entry of the fallback cache whose expiry is due at [D] is gone at
    every instant after [D]: the clock does not pass [D] before that expiry
    has run. *)
Lemma cache_entry_expires es : ∀ w w' key D,
  _local_cache (mgr w) !! key = None ∨
    (AutoExpireLocalCache key D ∈ tasks w ∧ clock w ≤ D) →
  run es w = Some w' → D < clock w' →
  _local_cache (mgr w') !! key = None.
Proof.
  induction es as [|e es IH]; intros w w' key D HK Hrun Ht; cbn in Hrun.
  - simplify_eq. destruct HK as [?|[_ ?]]; [done|lia].
  - destruct (fire e w) as [w1|] eqn:Hf; [|done]. cbn in Hrun.
    eapply IH; [|exact Hrun|exact Ht].
    destruct e as [c|i|d|st up]; cbn in Hf.
    + simplify_eq. cbn. destruct HK as [?|[Hin ?]]; [by left|right].
      split; [|done]. apply elem_of_app. by left.
    + destruct (tasks w !! i) as [t|] eqn:Hi; [|done]. cbn in Hf.
      destruct (resume t w) as [[t' w2]|] eqn:Hr; [|done]. cbn in Hf. simplify_eq. cbn.
      destruct (resume_frame _ _ _ _ Hr) as (Hcl & _ & _ & sp & Hsp & _).
      destruct HK as [Hnone|[Hin Hle]].
      * left. destruct (resume_cache _ _ _ _ Hr) as [_ [->|(k & wk & _ & _ & ->)]]; [done|].
        destruct (decide (k = key)) as [->|]; [by rewrite lookup_delete_eq|].
        by rewrite lookup_delete_ne.
      * apply list_elem_of_lookup_1 in Hin as [j Hj].
        destruct (decide (j = i)) as [->|Hji].
        { left. simplify_eq. by eapply resume_cache_expiry. }
        right. rewrite Hcl. split; [|done].
        apply (list_elem_of_lookup_2 _ j). rewrite list_lookup_insert_ne by done.
        rewrite Hsp. rewrite lookup_app_l by by eapply lookup_lt_Some. done.
    + destruct (Z.ltb_spec 0 d); cbn in Hf; [|done].
      destruct (idle_for d w) eqn:Hidle; [|done]. simplify_eq. cbn.
      destruct HK as [?|[Hin Hle]]; [by left|right]. split; [done|].
      pose proof (idle_for_spec d w (d - 1) _ Hidle ltac:(lia) Hin) as Hrun'.
      rewrite runnable_spec in Hrun'. cbn in Hrun'.
      apply bool_decide_eq_false_1 in Hrun'. lia.
    + simplify_eq. cbn. done.
Qed.

(** The lifetime of an entry written with an expiry of [e] seconds.  On
    the server its deadline passes with the clock.  In the fallback it
    lasts until the event loop has run its expiry, which is on time, as
    long as no expiry of an earlier [set] of the key is still scheduled. *)
Lemma set_entry_lifetime key value e w :
  answering w → 0 < e →
  (_client (mgr w) = None → ∀ wk, AutoExpireLocalCache key wk ∉ tasks w) →
  ∃ w1,
    set key value (Some e) w = (Returned true, w1) ∧
    answering w1 ∧ cached key w1 = Some (PStr value) ∧
    if _client (mgr w) is Some _ then
      ∀ t, answering (set_clock t w1) ∧
           (clock w ≤ t < clock w + 1000 * e → cached key (set_clock t w1) = Some (PStr value)) ∧
           (clock w + 1000 * e ≤ t → cached key (set_clock t w1) = None)
    else
      ∀ es w', run es w1 = Some w' →
        answering w' ∧
        (clock w' < clock w + 1000 * e → cached key w' = Some (PStr value)) ∧
        (clock w + 1000 * e < clock w' → cached key w' = None).
Proof.
  unfold answering, cached.
  destruct (_client (mgr w)) as [c|] eqn:Hc; intros Hl He Hno.
  - eexists. split; [eapply set_remote; [done..|by intros ? [= <-]]|].
    cbn -[rlookup]. rewrite Hc. split; [done|].
    split. { rewrite rlookup_insert. unfold alive. cbn.
             by rewrite (proj2 (Z.ltb_lt _ _)) by lia. }
    intros t. split; [done|]. rewrite rlookup_insert. unfold alive. cbn. split; intros Ht.
    + by rewrite (proj2 (Z.ltb_lt _ _)) by lia.
    + by rewrite (proj2 (Z.ltb_ge _ _)) by lia.
  - specialize (Hno eq_refl).
    assert (py_or (Some e) 0 = e) as Hpy.
    { cbn. destruct (Z.eqb_spec e 0); [lia|done]. }
    eexists. split; [by apply set_local|]. cbn. rewrite Hc.
    split; [done|]. split; [by rewrite lookup_insert_eq|].
    intros es w' Hrun.
    pose proof (run_client _ _ _ Hrun) as Hc'. cbn in Hc'. rewrite Hc in Hc'. rewrite Hc'.
    split; [done|]. unfold expiry_task in Hrun. rewrite Hc, Hpy in Hrun.
    destruct (Z.eqb_spec e 0); [lia|].
    split; intros Ht.
    + eapply cache_entry_kept; [..|exact Hrun|exact Ht].
      * cbn. by rewrite lookup_insert_eq.
      * cbn. intros wk [Hin|Hin]%elem_of_app; [by apply Hno in Hin|].
        apply list_elem_of_singleton in Hin. simplify_eq. lia.
    + eapply cache_entry_expires; [|exact Hrun|exact Ht].
      right. cbn. split; [|lia]. apply elem_of_app. right. by apply list_elem_of_singleton.
Qed.

(** X26.  The lifetime of a cache entry written with [set(key, value,
    ex=e)].  On the server, [get] returns the value at every instant
    before [e] seconds have passed and [None] from then on.  In the
    fallback, when no expiry of an earlier [set] of the key is still
    scheduled: whatever the event loop does, [get] returns the value at
    every instant before [e] seconds have passed, and [None] at every
    instant after. *)
Theorem cache_entry_lifetime key value e w :
  answering w → 0 < e →
  (_client (mgr w) = None → ∀ wk, AutoExpireLocalCache key wk ∉ tasks w) →
  ∃ w1,
    set key value (Some e) w = (Returned true, w1) ∧
    get key w1 = (Returned (PStr value), w1) ∧
    if _client (mgr w) is Some _ then
      (∀ t, clock w ≤ t < clock w + 1000 * e →
         get key (set_clock t w1) = (Returned (PStr value), set_clock t w1) ∧
         exists_ key (set_clock t w1) = (Returned true, set_clock t w1)) ∧
      (∀ t, clock w + 1000 * e ≤ t →
         get key (set_clock t w1) = (Returned PNone, set_clock t w1) ∧
         exists_ key (set_clock t w1) = (Returned false, set_clock t w1))
    else
      ∀ es w', run es w1 = Some w' →
        (clock w' < clock w + 1000 * e →
           get key w' = (Returned (PStr value), w') ∧
           exists_ key w' = (Returned true, w')) ∧
        (clock w + 1000 * e < clock w' →
           get key w' = (Returned PNone, w') ∧
           exists_ key w' = (Returned false, w')).
Proof.
  intros Ha He Hno.
  destruct (set_entry_lifetime key value e w Ha He Hno) as (w1 & Hset & Ha1 & Hv1 & Hlife).
  exists w1. split; [done|].
  split. { destruct (cached_spec key w1 Ha1) as [-> _]. by rewrite Hv1. }
  destruct (_client (mgr w)).
  - split; intros t Ht; destruct (Hlife t) as (Hat & Hin & Hout);
      destruct (cached_spec key (set_clock t w1) Hat) as [-> ->].
    + by rewrite Hin.
    + by rewrite Hout.
  - intros es w' Hrun. destruct (Hlife es w' Hrun) as (Ha' & Hin & Hout).
    destruct (cached_spec key w' Ha') as [-> ->].
    split; intros Ht; [by rewrite Hin|by rewrite Hout].
Qed.

Lemma cache_entry_lifetime_witness :
  answering (boot cfg_off) ∧ 0 < 60 ∧
  (_client (mgr (boot cfg_off)) = None →
     ∀ wk, AutoExpireLocalCache "session" wk ∉ tasks (boot cfg_off)) ∧
  ∃ w1,
    set "session" "1" (Some 60) (boot cfg_off) = (Returned true, w1) ∧
    get "session" w1 = (Returned (PStr "1"), w1) ∧
    if _client (mgr (boot cfg_off)) is Some _ then
      (∀ t, clock (boot cfg_off) ≤ t < clock (boot cfg_off) + 1000 * 60 →
         get "session" (set_clock t w1) = (Returned (PStr "1"), set_clock t w1) ∧
         exists_ "session" (set_clock t w1) = (Returned true, set_clock t w1)) ∧
      (∀ t, clock (boot cfg_off) + 1000 * 60 ≤ t →
         get "session" (set_clock t w1) = (Returned PNone, set_clock t w1) ∧
         exists_ "session" (set_clock t w1) = (Returned false, set_clock t w1))
    else
      ∀ es w', run es w1 = Some w' →
        (clock w' < clock (boot cfg_off) + 1000 * 60 →
           get "session" w' = (Returned (PStr "1"), w') ∧
           exists_ "session" w' = (Returned true, w')) ∧
        (clock (boot cfg_off) + 1000 * 60 < clock w' →
           get "session" w' = (Returned PNone, w') ∧
           exists_ "session" w' = (Returned false, w')).
Proof.
  assert (_client (mgr (boot cfg_off)) = None →
            ∀ wk, AutoExpireLocalCache "session" wk ∉ tasks (boot cfg_off)) as Hno
    by (intros _ wk Hin; cbn in Hin; by apply elem_of_nil in Hin).
  split; [exact I|]. split; [lia|]. split; [exact Hno|].
  apply (cache_entry_lifetime "session" "1" 60 (boot cfg_off)); [exact I|lia|exact Hno].
Defined.

(** ** The refreshing flag *)

Lemma delete_then_absent key w :
  answering w →
  ∃ b w1, delete key w = (Returned b, w1) ∧ cached key w1 = None ∧ answering w1.
Proof.
  unfold answering, cached. destruct (_client (mgr w)) as [c|] eqn:Hc; intros Hl.
  - destruct (delete_remote key w c Hc Hl) as (st & Hd & Hst).
    eexists _, _. split; [exact Hd|]. cbn -[rlookup]. rewrite Hc, Hst. done.
  - eexists _, _. split; [by apply delete_local|]. cbn. rewrite Hc.
    by rewrite lookup_delete_eq.
Qed.

(** X9.  The refreshing flag.  [set_cf_refreshing(True, ttl)] sets it:
    [is_cf_refreshing] returns [True].  On the server it returns [True] at
    every instant before [ttl] seconds have passed and [False] from then
    on.  In the fallback, when no expiry of an earlier
    [set_cf_refreshing(True)] is still scheduled, it returns [True] at
    every instant before [ttl] seconds have passed and [False] at every
    instant after, whatever the event loop does.  After
    [set_cf_refreshing(False)] it returns [False].  On an initialized
    manager the [RedisCFLock] class methods are these calls. *)
Theorem cf_refreshing_flag ttl w :
  answering w → 0 < ttl →
  (_client (mgr w) = None → ∀ wk, AutoExpireLocalCache "cf:refreshing" wk ∉ tasks w) →
  ∃ w1,
    set_cf_refreshing true ttl w = (Returned (), w1) ∧
    is_cf_refreshing w1 = (Returned true, w1) ∧
    (if _client (mgr w) is Some _ then
       (∀ t, clock w ≤ t < clock w + 1000 * ttl →
          is_cf_refreshing (set_clock t w1) = (Returned true, set_clock t w1)) ∧
       (∀ t, clock w + 1000 * ttl ≤ t →
          is_cf_refreshing (set_clock t w1) = (Returned false, set_clock t w1))
     else
       ∀ es w', run es w1 = Some w' →
         (clock w' < clock w + 1000 * ttl → is_cf_refreshing w' = (Returned true, w')) ∧
         (clock w + 1000 * ttl < clock w' → is_cf_refreshing w' = (Returned false, w'))) ∧
    (∀ w' ttl', answering w' → ∃ w2,
       set_cf_refreshing false ttl' w' = (Returned (), w2) ∧
       is_cf_refreshing w2 = (Returned false, w2)) ∧
    (_initialized (mgr w) = true →
       RedisCFLock_set_refreshing true ttl w = set_cf_refreshing true ttl w ∧
       RedisCFLock_is_refreshing w = is_cf_refreshing w).
Proof.
  intros Ha Ht Hno.
  destruct (set_entry_lifetime "cf:refreshing" "1" ttl w Ha Ht Hno)
    as (w1 & Hset & Ha1 & Hv1 & Hlife).
  exists w1. split.
  { unfold set_cf_refreshing. unfold mbind, M_bind at 1. by rewrite Hset. }
  unfold is_cf_refreshing.
  split. { destruct (cached_spec "cf:refreshing" w1 Ha1) as [_ ->]. by rewrite Hv1. }
  split.
  { destruct (_client (mgr w)).
    - split; intros t Hin; destruct (Hlife t) as (Hat & Hbefore & Hafter);
        destruct (cached_spec "cf:refreshing" (set_clock t w1) Hat) as [_ ->].
      + by rewrite Hbefore.
      + by rewrite Hafter.
    - intros es w' Hrun. destruct (Hlife es w' Hrun) as (Ha' & Hbefore & Hafter).
      destruct (cached_spec "cf:refreshing" w' Ha') as [_ ->].
      split; intros Hin; [by rewrite Hbefore|by rewrite Hafter]. }
  split.
  { intros w' ttl' Ha'.
    destruct (delete_then_absent "cf:refreshing" w' Ha') as (b & w2 & Hd & Habs & Ha2).
    exists w2. split.
    { unfold set_cf_refreshing. unfold mbind, M_bind at 1. by rewrite Hd. }
    destruct (cached_spec "cf:refreshing" w2 Ha2) as [_ ->]. by rewrite Habs. }
  intros Hi. unfold RedisCFLock_set_refreshing, RedisCFLock_is_refreshing.
  split; unfold mbind, M_bind at 1; by rewrite ensure_initialized_skip.
Qed.

Lemma cf_refreshing_flag_witness :
  answering held_world ∧ 0 < 60 ∧
  (_client (mgr held_world) = None →
     ∀ wk, AutoExpireLocalCache "cf:refreshing" wk ∉ tasks held_world) ∧
  ∃ w1,
    set_cf_refreshing true 60 held_world = (Returned (), w1) ∧
    is_cf_refreshing w1 = (Returned true, w1) ∧
    (if _client (mgr held_world) is Some _ then
       (∀ t, clock held_world ≤ t < clock held_world + 1000 * 60 →
          is_cf_refreshing (set_clock t w1) = (Returned true, set_clock t w1)) ∧
       (∀ t, clock held_world + 1000 * 60 ≤ t →
          is_cf_refreshing (set_clock t w1) = (Returned false, set_clock t w1))
     else
       ∀ es w', run es w1 = Some w' →
         (clock w' < clock held_world + 1000 * 60 →
            is_cf_refreshing w' = (Returned true, w')) ∧
         (clock held_world + 1000 * 60 < clock w' →
            is_cf_refreshing w' = (Returned false, w'))) ∧
    (∀ w' ttl', answering w' → ∃ w2,
       set_cf_refreshing false ttl' w' = (Returned (), w2) ∧
       is_cf_refreshing w2 = (Returned false, w2)) ∧
    (_initialized (mgr held_world) = true →
       RedisCFLock_set_refreshing true 60 held_world = set_cf_refreshing true 60 held_world ∧
       RedisCFLock_is_refreshing held_world = is_cf_refreshing held_world).
Proof.
  assert (_client (mgr held_world) = None →
            ∀ wk, AutoExpireLocalCache "cf:refreshing" wk ∉ tasks held_world) as Hno
    by (intros _ wk Hin; cbn in Hin; by apply elem_of_nil in Hin).
  split; [exact I|]. split; [lia|]. split; [exact Hno|].
  apply (cf_refreshing_flag 60 held_world); [exact I|lia|exact Hno].
Defined.

(** ** [RedisLock] *)

Lemma acquire_lock_free_any_wait key lock_value timeout b b' wt wt' w :
  serving w → stored_token key w = None →
  acquire_lock key lock_value timeout b wt w = acquire_lock key lock_value timeout b' wt' w.
Proof.
  unfold serving, stored_token. destruct (_client (mgr w)) as [c|] eqn:Hc; intros Hs Hk.
  - unfold acquire_lock, acquire_lock_remote_loop, Server.set_nx_ex. run_m.
    rewrite Hc, Hs. destruct (_ <=? 0); [done|].
    destruct (rlookup _ _ _); [done|]. reflexivity.
  - by rewrite !acquire_lock_local_free.
Qed.

(** X21.  A [RedisLock] object goes round on a free key: [acquire], however
    it is called, returns [True] without waiting and keeps the token in
    [_lock_value]; [release] then removes the record and forgets the token;
    a further [release] does nothing.  [async with] is the same round:
    [__aenter__] hands back the object holding the token, [__aexit__]
    frees the key. *)
Theorem redis_lock_round_trip key timeout lock_value w :
  serving w → _initialized (mgr w) = true →
  0 < py_or timeout (redis_lock_timeout (config w)) →
  stored_token key w = None →
  ∃ l0 l1 l2 w1 w2,
    RedisLock.init key timeout w = (Returned l0, w) ∧
    (∀ blocking wait,
       RedisLock.acquire l0 lock_value blocking wait w
         = (Returned (Return (true, l1)), w1)) ∧
    RedisLock._lock_value l1 = Some lock_value ∧
    stored_token key w1 = Some lock_value ∧
    RedisLock.release l1 w1 = (Returned l2, w2) ∧
    RedisLock._lock_value l2 = None ∧
    stored_token key w2 = None ∧
    RedisLock.release l2 w2 = (Returned l2, w2) ∧
    RedisLock.aenter l0 lock_value w = (Returned (Return l1), w1) ∧
    RedisLock.aexit l1 w1 = (Returned l2, w2).
Proof.
  intros Hs Hi Ht Hk.
  set (ttl := py_or timeout (redis_lock_timeout (config w))) in *.
  assert (py_or (Some ttl) (redis_lock_timeout (config w)) = ttl) as Hpy.
  { cbn. destruct (Z.eqb_spec ttl 0); [lia|done]. }
  destruct (acquire_lock_serving_free key lock_value (Some ttl) true None w Hs
              ltac:(by rewrite Hpy) Hk)
    as (w1 & Ha & Hk1 & _ & Hs1 & _).
  eexists _, _, _, w1, (without_lock key w1).
  split; [reflexivity|]. cbn [RedisLock.key RedisLock.timeout].
  assert (Hacq : ∀ blocking wait,
            RedisLock.acquire
              {| RedisLock.key := key; RedisLock.timeout := ttl;
                 RedisLock._lock_value := None |} lock_value blocking wait w
            = (Returned (Return (true, {| RedisLock.key := key; RedisLock.timeout := ttl;
                                          RedisLock._lock_value := Some lock_value |})), w1)).
  { intros blocking wait. unfold RedisLock.acquire. unfold mbind, M_bind at 1.
    rewrite ensure_initialized_skip by done. cbn [RedisLock.key RedisLock.timeout].
    unfold mbind, M_bind at 1.
    rewrite (acquire_lock_free_any_wait key lock_value (Some ttl) blocking true _ None w Hs Hk).
    rewrite Ha. reflexivity. }
  assert (Hrel : RedisLock.release
                   {| RedisLock.key := key; RedisLock.timeout := ttl;
                      RedisLock._lock_value := Some lock_value |} w1
                 = (Returned {| RedisLock.key := key; RedisLock.timeout := ttl;
                                RedisLock._lock_value := None |}, without_lock key w1)).
  { unfold RedisLock.release. cbn. unfold mbind, M_bind.
    rewrite release_lock_serving by done. by rewrite bool_decide_eq_true_2. }
  split; [exact Hacq|]. split; [done|]. split; [done|].
  split; [exact Hrel|].
  split; [done|]. split; [apply stored_token_without_lock|]. split; [done|].
  split; [|exact Hrel].
  unfold RedisLock.aenter. unfold mbind, M_bind. by rewrite Hacq.
Qed.

Lemma redis_lock_round_trip_witness :
  serving held_world ∧ _initialized (mgr held_world) = true ∧
  0 < py_or None (redis_lock_timeout (config held_world)) ∧
  stored_token "job:7" held_world = None ∧
  ∃ l0 l1 l2 w1 w2,
    RedisLock.init "job:7" None held_world = (Returned l0, held_world) ∧
    (∀ blocking wait,
       RedisLock.acquire l0 "t7" blocking wait held_world
         = (Returned (Return (true, l1)), w1)) ∧
    RedisLock._lock_value l1 = Some "t7" ∧
    stored_token "job:7" w1 = Some "t7" ∧
    RedisLock.release l1 w1 = (Returned l2, w2) ∧
    RedisLock._lock_value l2 = None ∧
    stored_token "job:7" w2 = None ∧
    RedisLock.release l2 w2 = (Returned l2, w2) ∧
    RedisLock.aenter l0 "t7" held_world = (Returned (Return l1), w1) ∧
    RedisLock.aexit l1 w1 = (Returned l2, w2).
Proof.
  split; [reflexivity|]. split; [reflexivity|]. split; [reflexivity|]. split; [reflexivity|].
  apply (redis_lock_round_trip "job:7" None "t7" held_world); reflexivity.
Defined.

(** X22.  A [RedisLock] object is not re-entrant and forgets on failure:
    when [acquire] is refused (the key is held, by this very object or by
    anyone), it overwrites [_lock_value] with [None].  A [release] after
    that does nothing, so a record this object had acquired before stays
    until it expires. *)
Theorem redis_lock_refused_acquire_forgets (l : RedisLock.t) t1 lock_value wait w :
  serving w → _initialized (mgr w) = true →
  0 < py_or (Some (RedisLock.timeout l)) (redis_lock_timeout (config w)) →
  stored_token (RedisLock.key l) w = Some t1 →
  ∃ l',
    RedisLock.acquire l lock_value false wait w = (Returned (Return (false, l')), w) ∧
    RedisLock._lock_value l' = None ∧
    RedisLock.release l' w = (Returned l', w) ∧
    stored_token (RedisLock.key l) w = Some t1.
Proof.
  intros Hs Hi Ht Hk. eexists. split.
  { unfold RedisLock.acquire. unfold mbind, M_bind at 1.
    rewrite ensure_initialized_skip by done. unfold mbind, M_bind at 1.
    erewrite acquire_lock_serving_held; [reflexivity|done..]. }
  done.
Qed.

Lemma redis_lock_refused_acquire_forgets_witness :
  serving held_world ∧ _initialized (mgr held_world) = true ∧
  0 < py_or (Some 2) (redis_lock_timeout (config held_world)) ∧
  stored_token "job:42" held_world = Some "t1" ∧
  ∃ l',
    RedisLock.acquire {| RedisLock.key := "job:42"; RedisLock.timeout := 2;
                         RedisLock._lock_value := Some "t1" |}
                      "t2" false None held_world
      = (Returned (Return (false, l')), held_world) ∧
    RedisLock._lock_value l' = None ∧
    RedisLock.release l' held_world = (Returned l', held_world) ∧
    stored_token "job:42" held_world = Some "t1".
Proof.
  split; [reflexivity|]. split; [reflexivity|]. split; [reflexivity|]. split; [reflexivity|].
  apply (redis_lock_refused_acquire_forgets
           {| RedisLock.key := "job:42"; RedisLock.timeout := 2;
              RedisLock._lock_value := Some "t1" |} "t1" "t2" None held_world);
    reflexivity.
Defined.

(** ** The process-wide manager *)

(** X23.  [get_redis_manager] makes a manager once and hands the same one
    back from then on.  [init_redis] returns that manager, initialized, and
    on a process without a manager it is connected exactly when
    [initialize] reaches the server.  [close_redis] always returns and
    clears the global, so the next [get_redis_manager] is a fresh manager:
    no fallback lock and no cached value of the old one is left. *)
Theorem process_manager_lifecycle p :
  (let '(m, p1) := get_redis_manager p in
   _redis_manager p1 = Some m ∧ get_redis_manager p1 = (m, p1) ∧
   (∀ m0, _redis_manager p = Some m0 → m = m0 ∧ p1 = p)) ∧
  (∃ m p1, init_redis p = (Returned m, p1) ∧ _redis_manager p1 = Some m ∧
           _initialized m = true ∧
           (_redis_manager p = None → is_connected m = connects (around p))) ∧
  (∃ p1, close_redis p = (Returned (), p1) ∧ _redis_manager p1 = None ∧
         (get_redis_manager p1).1 = RedisManager_init).
Proof.
  destruct p as [[m|] [m' [en ? ? ? ? ?] ? ? md up ?]]; cbn.
  - split; [by split_and!; [..|intros ? [= <-]]|]. split.
    + unfold init_redis, on_manager, initialize, import_redis, ping. run_m.
      destruct en, md, up; cbn; eexists _, _; split_and!; done.
    + unfold close_redis, on_manager. rewrite close_returns. cbn. eauto.
  - split; [done|]. split.
    + unfold init_redis, on_manager, initialize, import_redis, ping, connects, is_connected.
      run_m. destruct en, md, up; cbn; eexists _, _; split_and!; done.
    + unfold close_redis. cbn. eauto.
Qed.

(** X24.  [get_redis_client] initializes the manager when it has to and
    only then: it always returns the manager's client and leaves the
    manager initialized; on an initialized manager it changes nothing, so a
    second call returns the same client; on a manager that is not
    initialized, with the feature enabled, the client is there exactly when
    [initialize] reaches the server. *)
Theorem get_redis_client_lazy w :
  ∃ w1,
    get_redis_client w = (Returned (_client (mgr w1)), w1) ∧
    _initialized (mgr w1) = true ∧
    get_redis_client w1 = (Returned (_client (mgr w1)), w1) ∧
    (_initialized (mgr w) = true → w1 = w) ∧
    (_initialized (mgr w) = false → redis_enabled (config w) = true →
       is_connected (mgr w1) = connects w).
Proof.
  destruct w as [[cl ini ll lc g] [en ? ? ? ? ?] ? ? md up ?].
  unfold get_redis_client, ensure_initialized, initialize, import_redis, ping, connects,
    is_connected.
  run_m. destruct ini; cbn.
  all: destruct en, md, up; cbn.
  all: match goal with |- ∃ w1, (_, ?w) = _ ∧ _ => exists w end.
  all: cbn; split_and!; done.
Qed.

(** ** [RedisCFLock] on a process that has not initialized *)

Lemma initialize_frame w :
  _client (mgr w) = None →
  ∃ w0, initialize w = (Returned (connects w), w0) ∧
        _initialized (mgr w0) = true ∧
        is_connected (mgr w0) = connects w ∧
        _local_locks (mgr w0) = _local_locks (mgr w) ∧
        _local_cache (mgr w0) = _local_cache (mgr w) ∧
        _local_lock (mgr w0) = _local_lock (mgr w) ∧
        config w0 = config w ∧ clock w0 = clock w ∧ tasks w0 = tasks w ∧
        link w0 = link w ∧ store w0 = store w.
Proof.
  destruct w as [[cl ini ll lc g] [en ? ? ? ? ?] ? ? md up ?]. cbn. intros ->.
  unfold initialize, connects, import_redis, ping, is_connected. run_m.
  destruct en, md, up; cbn; eexists; (split; [reflexivity|]); cbn; split_and!; done.
Qed.

(** X25.  The class methods of [RedisCFLock] work on a process that never
    called [init_redis]: the first [RedisCFLock.acquire_lock] initializes
    the manager, takes the refresh lock in the backend [initialize] chose
    (the server exactly when it is reached) and returns [True]; from then
    on [RedisCFLock.acquire_lock] is refused, until
    [RedisCFLock.release_lock] frees the key. *)
Theorem redis_cf_lock_first_use lock_value timeout w :
  _initialized (mgr w) = false → _client (mgr w) = None → _local_lock (mgr w) = false →
  0 < timeout →
  rlookup (clock w) (store w) "lock:cf:refresh" = None →
  _local_locks (mgr w) !! "lock:cf:refresh" = None →
  ∃ w1 w2,
    RedisCFLock_acquire_lock lock_value timeout w = (Returned (Return true), w1) ∧
    _initialized (mgr w1) = true ∧ is_connected (mgr w1) = connects w ∧
    stored_token "cf:refresh" w1 = Some lock_value ∧
    (∀ lock_value', RedisCFLock_acquire_lock lock_value' timeout w1
                    = (Returned (Return false), w1)) ∧
    RedisCFLock_release_lock w1 = (Returned (), w2) ∧
    stored_token "cf:refresh" w2 = None.
Proof.
  intros Hi Hc Hg Ht Hr Hl.
  assert (∀ d, 0 < py_or (Some timeout) d) as Hto.
  { intros d. cbn. destruct (Z.eqb_spec timeout 0); lia. }
  destruct (initialize_frame w Hc)
    as (w0 & Hini & Hi0 & Hc0 & Hl0 & _ & Hg0 & _ & Hck0 & _ & Hlk0 & Hst0).
  assert (Hs0 : serving w0).
  { unfold serving. unfold is_connected in Hc0.
    destruct (_client (mgr w0)) eqn:E; [|congruence].
    rewrite bool_decide_eq_true_2 in Hc0 by done. symmetry in Hc0.
    unfold connects in Hc0. rewrite !andb_true_iff in Hc0. rewrite Hlk0. tauto. }
  assert (Hk0 : stored_token "cf:refresh" w0 = None).
  { unfold stored_token. change ("lock:" +:+ "cf:refresh") with "lock:cf:refresh".
    rewrite Hck0, Hst0, Hl0, Hr, Hl. by destruct (_client (mgr w0)). }
  destruct (acquire_lock_serving_free "cf:refresh" lock_value (Some timeout) false None
              w0 Hs0 (Hto _) Hk0)
    as (w1 & Ha & Hk1 & _ & Hs1 & _ & _ & Hi1 & Hc1).
  exists w1, (without_lock "cf:refresh" w1).
  split.
  { unfold RedisCFLock_acquire_lock, ensure_initialized. run_m. rewrite Hi. cbn.
    rewrite Hini. cbn. unfold acquire_cf_lock. unfold mbind, M_bind at 1. by rewrite Ha. }
  split; [congruence|].
  split; [unfold is_connected in *; by rewrite Hc1|].
  split; [done|].
  split.
  { intros v'. unfold RedisCFLock_acquire_lock. unfold mbind, M_bind at 1.
    rewrite ensure_initialized_skip by congruence.
    unfold acquire_cf_lock. unfold mbind, M_bind at 1.
    erewrite acquire_lock_serving_held; [done|done|apply Hto|done]. }
  split.
  { unfold RedisCFLock_release_lock. unfold mbind, M_bind at 1.
    rewrite ensure_initialized_skip by congruence. by apply release_cf_lock_serving. }
  apply stored_token_without_lock.
Qed.

Lemma redis_cf_lock_first_use_witness :
  _initialized (mgr (boot cfg_on)) = false ∧ _client (mgr (boot cfg_on)) = None ∧
  _local_lock (mgr (boot cfg_on)) = false ∧ 0 < 60 ∧
  rlookup (clock (boot cfg_on)) (store (boot cfg_on)) "lock:cf:refresh" = None ∧
  _local_locks (mgr (boot cfg_on)) !! "lock:cf:refresh" = None ∧
  ∃ w1 w2,
    RedisCFLock_acquire_lock "token-A" 60 (boot cfg_on) = (Returned (Return true), w1) ∧
    _initialized (mgr w1) = true ∧ is_connected (mgr w1) = connects (boot cfg_on) ∧
    stored_token "cf:refresh" w1 = Some "token-A" ∧
    (∀ lock_value', RedisCFLock_acquire_lock lock_value' 60 w1
                    = (Returned (Return false), w1)) ∧
    RedisCFLock_release_lock w1 = (Returned (), w2) ∧
    stored_token "cf:refresh" w2 = None.
Proof.
  split; [reflexivity|]. split; [reflexivity|]. split; [reflexivity|]. split; [reflexivity|].
  split; [reflexivity|]. split; [reflexivity|].
  apply (redis_cf_lock_first_use "token-A" 60 (boot cfg_on)); reflexivity.
Defined.
